(** * Ad slot lifecycle engine (src/ads.js): shallow embedding and properties

    The development follows the class [AdSystem] of src/ads.js:
    - [JS]          the fragments of the JavaScript runtime the class relies on
                    (truthiness, [parseInt], [Number::toString],
                    [String.prototype.replace] with a global literal pattern,
                    [URLSearchParams] serialisation);
    - [Macro]       [replaceAuctionMacros];
    - [Async], [Net] promises, [fetch], [makeBidRequest], [sendImpression];
    - [Render]      [renderAd] and its three variants, [hideAdSlot], [showError];
    - [Orchestrator] [initialize] and [loadAdForSlot];
    - [Viewability] [setupViewabilityTracking] as a timed state machine;
    - [Device], [Markup], [Listeners] the device detection, [extractUrls]
                    and the listeners bound to a creative;
    - [Call]        [replaceAuctionMacros] on a template of any type;
    - [Dwell]       the three-state machine the tracker refines.

    Bid responses are JS objects used as structs; they are embedded as records
    with optional fields (an absent property is [None]), typed as the
    OpenRTB-like wire format prescribes: identifiers, URLs and markup are
    strings, the price is a number. *)

From Stdlib Require Import ZArith QArith Ascii String List DecimalString DecimalN Lia.
From stdpp Require Import gmap strings list.
Import ListNotations.

Local Open Scope string_scope.

(* String concatenation unfolds on a constructor, as in the Standard Library. *)
#[local] Arguments String.append !_ _ : simpl nomatch.

(* ===================================================================== *)
(** ** JavaScript runtime fragments *)
(* ===================================================================== *)

Module JS.

(** *** Truthiness *)

(** [!!s] for a string: only the empty string is falsy. *)
Definition truthy_str (s : string) : bool :=
  negb (String.eqb s "").

(** [!!v] for an optional string property: [undefined] and [""] are falsy. *)
Definition truthy_ostr (v : option string) : bool :=
  match v with
  | Some s => truthy_str s
  | None => false
  end.

(** [a || b] where [a] is an optional string property and [b] a string. *)
Definition or_str (a : option string) (b : string) : string :=
  match a with
  | Some s => if truthy_str s then s else b
  | None => b
  end.

(** [a || b] between two optional string properties. *)
Definition or_ostr (a b : option string) : option string :=
  if truthy_ostr a then a else b.

(** The integral Numbers [parseInt] returns: an integer that is a double,
    or an infinity ([NaN] is kept apart, minus zero is not told from zero). *)
Inductive integral :=
| Int (z : Z)
| Infinity (negative : bool).

(** [!!n]: [0] (and [NaN], which the callers have already turned into
    [0]) is falsy, every other value, negative ones and the infinities
    included, is truthy. *)
Definition truthy_int (n : integral) : bool :=
  match n with
  | Int z => negb (z =? 0)%Z
  | Infinity _ => true
  end.

(** *** Numbers

    A JSON number with a finite decimal expansion, [mant / 10^scale].  The
    Number it denotes is the nearest double, and [Number::toString] prints
    the shortest digits that denote that double: for a number of at most 15
    significant digits in the normal range these are its own digits
    ([printable]); the embedding covers that range, and the theorems that
    depend on the text of a number carry it. *)
Record number := { mant : Z; scale : nat }.

Definition digits_of (n : Z) : string :=
  NilZero.string_of_uint (N.to_uint (Z.to_N n)).

Fixpoint zeros (n : nat) : string :=
  match n with
  | O => ""
  | S k => String "0" (zeros k)
  end.

Fixpoint take_str (n : nat) (s : string) : string :=
  match n, s with
  | S k, String c r => String c (take_str k r)
  | _, _ => ""
  end.

Fixpoint drop_str (n : nat) (s : string) : string :=
  match n, s with
  | S k, String _ r => drop_str k r
  | _, _ => s
  end.

Fixpoint strip_trailing_zeros (s : string) : string :=
  match s with
  | EmptyString => ""
  | String c r =>
      match strip_trailing_zeros r with
      | EmptyString => if Ascii.eqb c "0" then "" else String c ""
      | r' => String c r'
      end
  end.

(** The significant digits of a number that is not zero (no trailing
    zero). *)
Definition significant (x : number) : string :=
  strip_trailing_zeros (digits_of (Z.abs (mant x))).

(** The position of the decimal point: the value lies in
    [10^(n-1), 10^n). *)
Definition point (x : number) : Z :=
  (Z.of_nat (String.length (digits_of (Z.abs (mant x)))) - Z.of_nat (scale x))%Z.

(** The range in which the digits of the decimal are those of the Number:
    zero, or at most 15 significant digits and a magnitude between 1e-300
    and 1e300. *)
Definition printable (x : number) : bool :=
  (mant x =? 0)%Z
  || ((String.length (significant x) <=? 15)%nat
      && (-300 <=? point x)%Z && (point x <=? 300)%Z).

(** [n.toString()]: [Number::toString] with radix 10.  With [k] digits and
    the point at [n]: an integer up to 21 digits is written out, padded with
    zeros; a point within the first 21 places, or up to six zeros after
    [0.], give plain decimal notation; everything else exponent notation. *)
Definition number_to_string (x : number) : string :=
  if (mant x =? 0)%Z then "0"
  else
    let sig := significant x in
    let k := Z.of_nat (String.length sig) in
    let n := point x in
    (if (mant x <? 0)%Z then "-" else "")
    ++ (if (k <=? n)%Z && (n <=? 21)%Z then sig ++ zeros (Z.to_nat (n - k))
        else if (0 <? n)%Z && (n <=? 21)%Z
             then take_str (Z.to_nat n) sig ++ "." ++ drop_str (Z.to_nat n) sig
        else if (-6 <? n)%Z && (n <=? 0)%Z then "0." ++ zeros (Z.to_nat (- n)) ++ sig
        else
          let e := (n - 1)%Z in
          let exponent := (if (e <? 0)%Z then "-" else "+") ++ digits_of (Z.abs e) in
          match sig with
          | String d EmptyString => String d ("e" ++ exponent)
          | String d rest => String d ("." ++ rest ++ "e" ++ exponent)
          | EmptyString => ""
          end).

(** *** Values

    The values a JSON document can hold, as far as the code tells them
    apart: [VObject] stands for every object and array. *)
Inductive value :=
| VUndefined
| VNull
| VBool (b : bool)
| VNumber (x : number)
| VString (s : string)
| VObject.

(** [!!v] *)
Definition truthy (v : value) : bool :=
  match v with
  | VUndefined | VNull => false
  | VBool b => b
  | VNumber x => negb (mant x =? 0)%Z
  | VString s => truthy_str s
  | VObject => true
  end.

(** *** [parseInt(s, 10)]

    Leading white space is skipped, an optional sign is read, then the
    longest run of decimal digits; [None] stands for [NaN] (no digit).
    Strings are taken as their UTF-8 bytes.  White space is the set the
    language strips ([WhiteSpace] and [LineTerminator]): TAB, LF, VT, FF, CR
    and SP, and, beyond ASCII, U+00A0, U+1680, U+2000 to U+200A, U+2028,
    U+2029, U+202F, U+205F, U+3000 and U+FEFF. *)
Definition is_space (c : ascii) : bool :=
  let n := nat_of_ascii c in
  (n =? 32)%nat || (n =? 9)%nat || (n =? 10)%nat || (n =? 11)%nat
  || (n =? 12)%nat || (n =? 13)%nat.

(** U+00A0 is the byte pair c2 a0. *)
Definition space2 (a b : nat) : bool := (a =? 194)%nat && (b =? 160)%nat.

(** U+1680 is e1 9a 80; U+2000 to U+200A, U+2028, U+2029 and U+202F are
    e2 80 followed by 80 to 8a, a8, a9 and af; U+205F is e2 81 9f; U+3000 is
    e3 80 80; U+FEFF is ef bb bf. *)
Definition space3 (a b c : nat) : bool :=
  ((a =? 225) && (b =? 154) && (c =? 128))%nat
  || ((a =? 226)%nat && (b =? 128)%nat
      && (((128 <=? c) && (c <=? 138))%nat || (c =? 168)%nat || (c =? 169)%nat
          || (c =? 175)%nat))
  || ((a =? 226) && (b =? 129) && (c =? 159))%nat
  || ((a =? 227) && (b =? 128) && (c =? 128))%nat
  || ((a =? 239) && (b =? 187) && (c =? 191))%nat.

Definition digit_val (c : ascii) : option Z :=
  let n := nat_of_ascii c in
  if (48 <=? n)%nat && (n <=? 57)%nat then Some (Z.of_nat (n - 48)) else None.

Fixpoint skip_spaces (s : string) : string :=
  match s with
  | String a r =>
      if is_space a then skip_spaces r
      else if (nat_of_ascii a <? 194)%nat then s
      else
        match r with
        | String b r2 =>
            if space2 (nat_of_ascii a) (nat_of_ascii b) then skip_spaces r2
            else
              match r2 with
              | String c r3 =>
                  if space3 (nat_of_ascii a) (nat_of_ascii b) (nat_of_ascii c)
                  then skip_spaces r3
                  else s
              | EmptyString => s
              end
        | EmptyString => s
        end
  | EmptyString => s
  end.

(** Reads the digits after the sign; [acc] is [None] until a digit is seen. *)
Fixpoint read_digits (acc : option Z) (s : string) : option Z :=
  match s with
  | String c r =>
      match digit_val c with
      | Some d =>
          read_digits (Some (10 * match acc with Some a => a | None => 0 end + d)%Z) r
      | None => acc
      end
  | EmptyString => acc
  end.

(** The Number of a non-negative integer: the nearest double, ties to the
    even mantissa, and an infinity when that is 2^1024 or more.  (The
    language lets an implementation drop the digits after the twentieth;
    the engines round correctly.) *)
Definition to_double (n : Z) : integral :=
  let e := Z.log2 n in
  if (e <=? 52)%Z then Int n
  else
    let sh := (e - 52)%Z in
    let q := Z.shiftr n sh in
    let r := (n - Z.shiftl q sh)%Z in
    let half := Z.shiftl 1 (sh - 1) in
    let q' := if (half <? r)%Z || ((r =? half)%Z && Z.odd q) then (q + 1)%Z else q in
    let v := Z.shiftl q' sh in
    if (Z.shiftl 1 1024 <=? v)%Z then Infinity false else Int v.

Definition negate (n : integral) : integral :=
  match n with
  | Int z => Int (- z)
  | Infinity b => Infinity (negb b)
  end.

Definition parseInt10 (s : string) : option integral :=
  match skip_spaces s with
  | String "-" r => option_map (fun n => negate (to_double n)) (read_digits None r)
  | String "+" r => option_map to_double (read_digits None r)
  | t => option_map to_double (read_digits None t)
  end.

(** [parseInt(el.dataset.k, 10) || 0]: a missing attribute is [undefined],
    which [parseInt] reads as the string "undefined", hence [NaN]. *)
Definition parseInt_or_0 (attr : option string) : integral :=
  match attr with
  | Some s =>
      match parseInt10 s with
      | Some n => if truthy_int n then n else Int 0
      | None => Int 0
      end
  | None => Int 0
  end.

(** *** [String.prototype.replace] with a global pattern that matches one
    literal string *)

(** [GetSubstitution] for a match without capture groups: [$$] is a dollar
    sign, [$&] the matched text, [$`] the text before the match and [$']
    the text after it; any other [$] stands for itself. *)
Fixpoint getSubstitution (matched before after repl : string) : string :=
  match repl with
  | EmptyString => ""
  | String c tl =>
      if Ascii.eqb c "$" then
        match tl with
        | String d r =>
            if Ascii.eqb d "$" then String "$" (getSubstitution matched before after r)
            else if Ascii.eqb d "&" then matched ++ getSubstitution matched before after r
            else if Ascii.eqb d "`" then before ++ getSubstitution matched before after r
            else if Ascii.eqb d "'" then after ++ getSubstitution matched before after r
            else String c (getSubstitution matched before after tl)
        | EmptyString => String c ""
        end
      else String c (getSubstitution matched before after tl)
  end.

(** The scan of [s.replace(new RegExp(src, "g"), repl)] for a pattern that
    matches exactly the non-empty literal [pat]: matches are found left to
    right and do not overlap; [before] is the part of the subject already
    passed, [skip] the number of characters of the current match still to
    be consumed. *)
Fixpoint replace_scan (pat repl before : string) (skip : nat) (s : string) : string :=
  match s with
  | EmptyString => ""
  | String c r =>
      match skip with
      | S k => replace_scan pat repl (before ++ String c "") k r
      | O =>
          if String.prefix pat s then
            getSubstitution pat before (drop_str (String.length pat) s) repl
              ++ replace_scan pat repl (before ++ String c "") (String.length pat - 1) r
          else String c (replace_scan pat repl (before ++ String c "") 0 r)
      end
  end.

(** [s.replace(re, repl)] for a global [re] that matches the literal [pat]
    (the patterns of the macro table are never empty). *)
Definition replace_global (pat repl s : string) : string :=
  match pat with
  | EmptyString => s
  | _ => replace_scan pat repl "" 0 s
  end.

(** [macro.replace(/\$/g, "\\$")]: every dollar sign gets a backslash. *)
Fixpoint escape_dollar (s : string) : string :=
  match s with
  | EmptyString => ""
  | String c r =>
      if Ascii.eqb c "$" then String "\" (String "$" (escape_dollar r))
      else String c (escape_dollar r)
  end.

(** The literal matched by a pattern source made of identity escapes
    ([\x] matches [x]) and plain characters.  In the macro tokens the
    braces do not form a quantifier (their content is not a number), so a
    browser's RegExp reads them as plain characters. *)
Fixpoint pattern_literal (src : string) : string :=
  match src with
  | EmptyString => ""
  | String c tl =>
      if Ascii.eqb c "\" then
        match tl with
        | String d r => String d (pattern_literal r)
        | EmptyString => ""
        end
      else String c (pattern_literal tl)
  end.

(** *** [new URLSearchParams(obj).toString()]

    The application/x-www-form-urlencoded serialiser: letters, digits and
    [*-._] are kept, a space becomes [+], every other byte is
    percent-encoded.  Strings are taken as their UTF-8 bytes. *)
Definition hex_digit (n : nat) : ascii :=
  ascii_of_nat (if (n <? 10)%nat then 48 + n else 55 + n).

Definition form_safe (c : ascii) : bool :=
  let n := nat_of_ascii c in
  ((48 <=? n)%nat && (n <=? 57)%nat) || ((65 <=? n)%nat && (n <=? 90)%nat)
  || ((97 <=? n)%nat && (n <=? 122)%nat)
  || (n =? 42)%nat || (n =? 45)%nat || (n =? 46)%nat || (n =? 95)%nat.

Fixpoint form_encode (s : string) : string :=
  match s with
  | EmptyString => ""
  | String c r =>
      if form_safe c then String c (form_encode r)
      else if Ascii.eqb c " " then String "+" (form_encode r)
      else
        let n := nat_of_ascii c in
        String "%" (String (hex_digit (n / 16)) (String (hex_digit (n mod 16)) (form_encode r)))
  end.

Fixpoint url_search_params (kvs : list (string * string)) : string :=
  match kvs with
  | [] => ""
  | [(k, v)] => form_encode k ++ "=" ++ form_encode v
  | (k, v) :: rest => form_encode k ++ "=" ++ form_encode v ++ "&" ++ url_search_params rest
  end.

End JS.

(* ===================================================================== *)
(** ** Bid responses (the JSON delivered by the bid endpoint) *)
(* ===================================================================== *)

(** [ad.tracking] of the brand and testing variants. *)
Record Tracking := {
  impression_url : option string;
  click_url : option string;
  billable_impression_url : option string;
  destination_url : option string
}.

(** [bidResponse.seatbid[i].bid[j]] *)
Record Bid := {
  bid_id : option string;      (* bid.id *)
  impid : option string;
  adid : option string;
  price : option JS.number;
  adm : option string;
  nurl : option string;
  burl : option string
}.

(** [bidResponse.seatbid[i]] *)
Record SeatBid := {
  seat : option string;
  bid : list Bid               (* an absent array is the empty list *)
}.

(** The parsed response.  A response that is not an object ([null], a
    number) has no property at all and behaves as the record whose fields
    are all absent. *)
Record BidResponse := {
  ad_type : option string;
  resp_id : option string;     (* bidResponse.id *)
  bidid : option string;
  cur : option string;
  seatbid : list SeatBid;
  full_file_path : option string;
  creative_type : option string;
  brand_name : option string;
  tracking : option Tracking;
  landing_page_url : option string;
  ad_click_url : option string (* ad.click_url *)
}.

(** [bidResponse?.seatbid?.[0]] *)
Definition firstSeat (r : BidResponse) : option SeatBid := head (seatbid r).

(** [bidResponse?.seatbid?.[0]?.bid?.[0]] *)
Definition firstBid (r : BidResponse) : option Bid :=
  match firstSeat r with
  | Some sb => head (bid sb)
  | None => None
  end.

(* ===================================================================== *)
(** ** Macro substitution: [replaceAuctionMacros] *)
(* ===================================================================== *)

Module Macro.
Import JS.

(** The object literal [macros], in insertion order (the order in which
    [Object.entries] lists it). *)
Definition macros (r : BidResponse) (sb : SeatBid) (b : Bid) : list (string * string) :=
  [ ("${AUCTION_ID}", or_str (or_ostr (resp_id r) (bidid r)) "");
    ("${AUCTION_BID_ID}", or_str (bid_id b) "");
    ("${AUCTION_IMP_ID}", or_str (impid b) "");
    ("${AUCTION_SEAT_ID}", or_str (seat sb) "");
    ("${AUCTION_PRICE}", or_str (option_map number_to_string (price b)) "");
    ("${AUCTION_CURRENCY}", or_str (cur r) "");
    ("${AUCTION_MBR}", "");
    ("${AUCTION_AD_ID}", or_str (adid b) "");
    ("${AUCTION_LOSS}", "") ].

(** One step of the [reduce]:
    [acc.replace(new RegExp(macro.replace(/\$/g, "\\$"), "g"), value)]. *)
Definition replace_macro (acc : string) (mv : string * string) : string :=
  replace_global (pattern_literal (escape_dollar (fst mv))) (snd mv) acc.

Definition replaceAuctionMacros (url : string) (r : BidResponse) : string :=
  if negb (truthy_str url) then url
  else
    match firstSeat r, firstBid r with
    | Some sb, Some b => fold_left replace_macro (macros r sb b) url
    | _, _ => url
    end.

(** *** The substitution as the specification words it

    One left-to-right pass over the template: at a position where a macro
    token starts, the token's value is copied literally and the scan
    resumes after the token; substituted text is never scanned again. *)
Fixpoint token_at (ms : list (string * string)) (s : string) : option (string * string) :=
  match ms with
  | [] => None
  | (m, v) :: rest => if String.prefix m s then Some (m, v) else token_at rest s
  end.

Fixpoint single_pass (ms : list (string * string)) (skip : nat) (s : string) : string :=
  match s with
  | EmptyString => ""
  | String c r =>
      match skip with
      | S k => single_pass ms k r
      | O =>
          match token_at ms s with
          | Some (m, v) => v ++ single_pass ms (String.length m - 1) r
          | None => String c (single_pass ms 0 r)
          end
      end
  end.

Definition substitute_literal (url : string) (r : BidResponse) : string :=
  match firstSeat r, firstBid r with
  | Some sb, Some b => single_pass (macros r sb b) 0 url
  | _, _ => url
  end.

(** *** Templates as sequences of plain text and macro tokens *)
Inductive segment :=
| Text (s : string)
| Token (m : string).

Fixpoint render (segs : list segment) : string :=
  match segs with
  | [] => ""
  | Text s :: rest => s ++ render rest
  | Token m :: rest => m ++ render rest
  end.

(** The value a macro table gives to a token ([lookup] by name). *)
Fixpoint value_of (ms : list (string * string)) (m : string) : option string :=
  match ms with
  | [] => None
  | (k, v) :: rest => if String.eqb k m then Some v else value_of rest m
  end.

Definition fill (ms : list (string * string)) (seg : segment) : segment :=
  match seg with
  | Text s => Text s
  | Token m => match value_of ms m with Some v => Text v | None => Token m end
  end.

(** One pass of the [reduce] seen on segments: the token [m] gets its
    value, everything else stays. *)
Definition fill_one (m v : string) (seg : segment) : segment :=
  match seg with
  | Text s => Text s
  | Token m' => if String.eqb m' m then Text v else Token m'
  end.

(** The passes of the [reduce], on segments. *)
Fixpoint fill_passes (ms : list (string * string)) (segs : list segment) : list segment :=
  match ms with
  | [] => segs
  | (m, v) :: rest => fill_passes rest (map (fill_one m v) segs)
  end.

Fixpoint dollar_free (s : string) : bool :=
  match s with
  | EmptyString => true
  | String c r => negb (Ascii.eqb c "$") && dollar_free r
  end.

Definition macro_names : list string :=
  [ "${AUCTION_ID}"; "${AUCTION_BID_ID}"; "${AUCTION_IMP_ID}"; "${AUCTION_SEAT_ID}";
    "${AUCTION_PRICE}"; "${AUCTION_CURRENCY}"; "${AUCTION_MBR}"; "${AUCTION_AD_ID}";
    "${AUCTION_LOSS}" ].

(** A macro token is a dollar sign and an opening brace followed by text
    without a dollar sign. *)
Definition token_shape (m : string) : bool :=
  match m with
  | String c (String d q) => Ascii.eqb c "$" && Ascii.eqb d "{" && dollar_free q
  | _ => false
  end.

(** Text in which no token can begin: every dollar sign is followed, in
    the text itself, by a character that is not among [avoid]. *)
Fixpoint tame (avoid : list ascii) (s : string) : bool :=
  match s with
  | EmptyString => true
  | String c r =>
      (if Ascii.eqb c "$"
       then match r with
            | String d _ => negb (existsb (Ascii.eqb d) avoid)
            | EmptyString => false
            end
       else true)
      && tame avoid r
  end.

(** Plain text of a template: a dollar sign may stand in it, but not
    before an opening brace and not at its end. *)
Definition quiet (s : string) : bool := tame ["{"%char] s.

(** A value that is its own replacement text and plain text once it is
    substituted: after a dollar sign comes none of the characters that make
    a replacement pattern ([$$], [$&], [$`], [$']), and no opening brace. *)
Definition literal_value (v : string) : bool :=
  tame ["{"%char; "$"%char; "&"%char; "`"%char; "'"%char] v.

(** A well-formed template: plain text, and tokens of the macro table. *)
Definition wf_segment (seg : segment) : bool :=
  match seg with
  | Text s => quiet s
  | Token m => bool_decide (m ∈ macro_names)
  end.

(** Absent fields give empty values; [MBR] and [LOSS] are always empty. *)
Definition absent_is_empty (r : BidResponse) (sb : SeatBid) (b : Bid) : Prop :=
  let ms := macros r sb b in
  (resp_id r = None -> bidid r = None -> value_of ms "${AUCTION_ID}" = Some "")
  /\ (bid_id b = None -> value_of ms "${AUCTION_BID_ID}" = Some "")
  /\ (impid b = None -> value_of ms "${AUCTION_IMP_ID}" = Some "")
  /\ (seat sb = None -> value_of ms "${AUCTION_SEAT_ID}" = Some "")
  /\ (price b = None -> value_of ms "${AUCTION_PRICE}" = Some "")
  /\ (cur r = None -> value_of ms "${AUCTION_CURRENCY}" = Some "")
  /\ (adid b = None -> value_of ms "${AUCTION_AD_ID}" = Some "")
  /\ value_of ms "${AUCTION_MBR}" = Some ""
  /\ value_of ms "${AUCTION_LOSS}" = Some "".

(** *** Sample responses *)

Definition no_bid : Bid :=
  {| bid_id := None; impid := None; adid := None; price := None; adm := None;
     nurl := None; burl := None |}.

Definition response_of (rid : option string) (b : Bid) : BidResponse :=
  {| ad_type := Some "ortb"; resp_id := rid; bidid := None; cur := None;
     seatbid := [ {| seat := None; bid := [b] |} ];
     full_file_path := None; creative_type := None; brand_name := None;
     tracking := None; landing_page_url := None; ad_click_url := None |}.

(** [{seatbid:[{bid:[{id:"b1",price:2.5}]}]}] *)
Definition example_response : BidResponse :=
  {| ad_type := None; resp_id := None; bidid := None; cur := None;
     seatbid :=
       [ {| seat := None;
            bid := [ {| bid_id := Some "b1"; impid := None; adid := None;
                        price := Some {| mant := 25; scale := 1 |};
                        adm := None; nurl := None; burl := None |} ] |} ];
     full_file_path := None; creative_type := None; brand_name := None;
     tracking := None; landing_page_url := None; ad_click_url := None |}.

(** [{}] *)
Definition empty_response : BidResponse :=
  {| ad_type := None; resp_id := None; bidid := None; cur := None; seatbid := [];
     full_file_path := None; creative_type := None; brand_name := None;
     tracking := None; landing_page_url := None; ad_click_url := None |}.

End Macro.


(* ===================================================================== *)
(** ** Promises and [fetch] *)
(* ===================================================================== *)

Module Async.

Inductive Error :=
| TypeError            (* fetch: transport failure *)
| HttpError (status : Z)   (* new Error(`HTTP Error ${status}`) *)
| SyntaxError          (* response.json() on a body that is not JSON *)
| TimeoutError.        (* abort by AbortSignal.timeout *)

Inductive Settled (A : Type) :=
| Fulfilled (a : A)
| Rejected (e : Error).
Arguments Fulfilled {A} a.
Arguments Rejected {A} e.

(** A promise is described by when and how it settles, in milliseconds
    after the page's time origin; [None] is a promise that stays pending
    for ever. *)
Definition Promise (A : Type) : Type := option (Z * Settled A).

(** [Promise.allSettled(ps)]: fulfilled, never rejected, once the last of
    [ps] has settled ([from] is the time of the call). *)
Fixpoint allSettled {A} (from : Z) (ps : list (Promise A)) : Promise unit :=
  match ps with
  | [] => Some (from, Fulfilled tt)
  | None :: _ => None
  | Some (t, _) :: rest =>
      match allSettled from rest with
      | Some (t', _) => Some (Z.max t t', Fulfilled tt)
      | None => None
      end
  end.

End Async.

(* ===================================================================== *)
(** ** A call of [replaceAuctionMacros] on a template of any type *)
(* ===================================================================== *)

Module Call.
Import JS Async.

(** How a call ends. *)
Inductive Completion (A : Type) :=
| Normal (a : A)
| Thrown (e : Error).
Arguments Normal {A} a.
Arguments Thrown {A} e.

(** What a call does besides: the lines it writes to the console, the
    requests it issues, the properties of its arguments it assigns. *)
Inductive Effect :=
| Console (text : string)
| Request (url : string)
| Assign (property : string).

(** [replaceAuctionMacros(url, bidResponse)].  The guard returns a falsy
    template, and any template when there is no bid payload, as it is.
    Past the guard the macro table is built and [reduce] calls
    [acc.replace]: a template that is not a string has no such method, and
    the call throws a [TypeError].  The body writes nothing to the console,
    issues no request and assigns to no property. *)
Definition replaceAuctionMacros (url : value) (r : BidResponse)
    : Completion value * list Effect :=
  if negb (truthy url) then (Normal url, [])
  else
    match firstSeat r, firstBid r with
    | Some sb, Some b =>
        match url with
        | VString s =>
            (Normal (VString (fold_left Macro.replace_macro (Macro.macros r sb b) s)), [])
        | _ => (Thrown TypeError, [])
        end
    | _, _ => (Normal url, [])
    end.

End Call.

Module Net.
Import Async.

(** [window.adSystemConfig] *)
Record Config := {
  geo_country : string;
  geo_region : string;
  geo_city : string;
  ipv6 : string;
  deviceType : Z;
  deviceMake : string;
  deviceModel : string;
  deviceOs : string;
  deviceOsVersion : string;
  deviceCarrier : string
}.

(** The configuration written by [initializeAdSystemConfig] on a desktop
    browser. *)
Definition sample_config : Config :=
  {| geo_country := "IND"; geo_region := "HR"; geo_city := "Panipat";
     ipv6 := "2001:0db8:85a3:0000:0000:8a2e:0370:7334";
     deviceType := 2; deviceMake := "Unknown"; deviceModel := "Linux x86_64";
     deviceOs := "Linux"; deviceOsVersion := "Unknown"; deviceCarrier := "unknown" |}.

Record Slot := { slot_id : JS.integral; width : JS.integral; height : JS.integral }.

(** The object [bidRequest]: the slot id, the device object built from the
    configuration (its [ua], read off [navigator] when the request is made,
    is left out) and the pid, present only when the page URL carries a
    non-empty [pid] parameter.  Width and height are not part of it.
    ([JSON.stringify] writes an infinite slot id as [null].) *)
Record BidRequest := {
  req_slot_id : JS.integral;
  req_device : Config;
  req_js : Z;
  req_pid : option string
}.

(** The second argument of [fetch].  The members the Fetch standard
    defines are fields ([signal] holds the delay of an
    [AbortSignal.timeout], when one is given); [other_members] are the
    properties of the object literal that are not members of [RequestInit],
    which [fetch] never reads. *)
Record RequestInit := {
  method : string;
  headers : list (string * string);
  body : option BidRequest;
  mode : option string;
  credentials : option string;
  keepalive : bool;
  cache : option string;
  signal : option Z;
  other_members : list (string * Z)
}.

Record FetchCall := { fc_url : string; fc_init : RequestInit }.

Record Response := { status : Z; json : option BidResponse }.

(** [response.ok] *)
Definition ok (r : Response) : bool := (200 <=? status r)%Z && (status r <=? 299)%Z.

(** What the remote end does with one request; latencies are in
    milliseconds after the request. *)
Inductive Endpoint :=
| Responds (latency : Z) (st : Z) (payload : option BidResponse)
| TransportFailure (latency : Z)
| Silent.                                  (* no response, ever *)

(** [fetch(url, init)] issued at time [t0]. *)
Definition fetch (t0 : Z) (init : RequestInit) (ep : Endpoint) : Promise Response :=
  let natural : Promise Response :=
    match ep with
    | Responds l st payload => Some (t0 + l, Fulfilled {| status := st; json := payload |})%Z
    | TransportFailure l => Some (t0 + l, Rejected TypeError)%Z
    | Silent => None
    end in
  match signal init with
  | None => natural
  | Some ms =>
      match natural with
      | Some (t, o) =>
          if (t <? t0 + ms)%Z then Some (t, o) else Some (t0 + ms, Rejected TimeoutError)%Z
      | None => Some (t0 + ms, Rejected TimeoutError)%Z
      end
  end.

Definition bidderUrl : string := "https://dev.ssp.verismart.ai/api/ssp-load-ads".
Definition updateJourneyUrl : string := "https://dev.ssp.verismart.ai/api/update-adjourney".

Definition bidRequest (cfg : Config) (slot : Slot) (pid : option string) : BidRequest :=
  {| req_slot_id := slot_id slot;
     req_device := cfg;
     req_js := 1;
     req_pid := if JS.truthy_ostr pid then pid else None |}.

(** The options object of the bid request, as the source writes it. *)
Definition bidInit (cfg : Config) (slot : Slot) (pid : option string) : RequestInit :=
  {| method := "POST";
     headers := [("Content-Type", "application/json")];
     body := Some (bidRequest cfg slot pid);
     mode := None; credentials := None; keepalive := false; cache := None;
     signal := None;
     other_members := [("timeout", 3000%Z)] |}.

(** [makeBidRequest(slot, pid)], called at time [t0]: the promise it
    returns and the network call it issues. *)
Definition makeBidRequest (cfg : Config) (t0 : Z) (slot : Slot) (pid : option string)
    (ep : Endpoint) : Promise BidResponse * list FetchCall :=
  let init := bidInit cfg slot pid in
  let p : Promise BidResponse :=
    match fetch t0 init ep with
    | None => None
    | Some (t, Rejected e) => Some (t, Rejected e)          (* catch: log, rethrow *)
    | Some (t, Fulfilled response) =>
        if negb (ok response) then Some (t, Rejected (HttpError (status response)))
        else
          match json response with
          | Some r => Some (t, Fulfilled r)
          | None => Some (t, Rejected SyntaxError)
          end
    end in
  (p, [ {| fc_url := bidderUrl; fc_init := init |} ]).

(** [sendImpression(url)]: the URLs actually requested (none for a missing
    or empty URL). *)
Definition sendImpression (url : option string) : list string :=
  match url with
  | Some u => if JS.truthy_str u then [u] else []
  | None => []
  end.

End Net.

(* ===================================================================== *)
(** ** The creative renderer: [renderAd] and its variants *)
(* ===================================================================== *)

Module Render.
Import JS Net.

Inductive Variant := Brand | Ortb | TestingPid.

(** The subtree [container > anchor > media] appended to the slot. *)
Record Creative := {
  variant : Variant;
  is_video : bool;
  src : string;
  alt : option string;
  href : string
}.

(** [slotElement.innerHTML] *)
Inductive Inner :=
| Original                      (* the markup of the page *)
| LoadingBox                    (* the "Loading ad..." box *)
| Blank                         (* innerHTML = "" *)
| ErrorBox (message : string)   (* the box written by showError *)
| Ad (c : Creative).

Record SlotElement := {
  style_width : option Z;       (* style.width, in px *)
  style_height : option Z;      (* style.height, in px *)
  display : option string;      (* style.display *)
  inner : Inner
}.

Definition fresh : SlotElement :=
  {| style_width := None; style_height := None; display := None; inner := Original |}.

Definition set_inner (el : SlotElement) (i : Inner) : SlotElement :=
  {| style_width := style_width el; style_height := style_height el;
     display := display el; inner := i |}.

(** [hideAdSlot(slotElement, message)]: the message only goes to the
    console. *)
Definition hideAdSlot (el : SlotElement) (message : string) : SlotElement :=
  {| style_width := style_width el; style_height := style_height el;
     display := Some "none"; inner := inner el |}.

(** [showError(slotElement, message)] *)
Definition showError (el : SlotElement) (message : string) : SlotElement :=
  set_inner el (ErrorBox message).

(** The result of [extractUrls(adm)]. *)
Record Urls := {
  clickUrl : option string;
  imageUrl : option string;
  impressionUrl : option string
}.

Definition media_alt (is_vid : bool) (a : string) : option string :=
  if is_vid then None else Some a.

Definition is_video_type (ad : BidResponse) : bool :=
  match creative_type ad with
  | Some t => String.eqb t "video"
  | None => false
  end.

Definition renderBrandAd (el : SlotElement) (ad : BidResponse) : SlotElement :=
  if negb (truthy_ostr (full_file_path ad)) then showError el "Invalid brand ad creative."
  else
    let v := is_video_type ad in
    set_inner el (Ad {| variant := Brand; is_video := v;
                        src := or_str (full_file_path ad) "";
                        alt := media_alt v (or_str (brand_name ad) "Advertisement");
                        href := "#" |}).

Definition renderTestingPidAd (el : SlotElement) (ad : BidResponse) : SlotElement :=
  if negb (truthy_ostr (full_file_path ad)) then hideAdSlot el "Invalid testing_pid ad creative."
  else
    let v := is_video_type ad in
    set_inner el (Ad {| variant := TestingPid; is_video := v;
                        src := or_str (full_file_path ad) "";
                        alt := media_alt v "Advertisement";
                        href := "#" |}).

(** The listener bound to the media element's [error] event. *)
Definition onMediaError (c : Creative) (el : SlotElement) : SlotElement :=
  match variant c with
  | Brand => showError el ((if is_video c then "Video" else "Image") ++ " failed to load.")
  | Ortb => showError el "Ad image failed to load."
  | TestingPid => hideAdSlot el ((if is_video c then "Video" else "Image") ++ " failed to load.")
  end.

(** The structured journey request
    [updateJourneyUrl + "?" + new URLSearchParams({bid_id, event})]. *)
Definition journeyUrl (r : BidResponse) (event : string) : string :=
  let bid_id_value :=
    match or_ostr (resp_id r) (bidid r) with
    | Some s => s
    | None => "undefined"
    end in
  updateJourneyUrl ++ "?" ++ url_search_params [("bid_id", bid_id_value); ("event", event)].

Definition IMPRESSION : string := "impression_at".
Definition BILLED_IMPRESSION : string := "billable_impression_at".
Definition CLICK : string := "clicked_at".

(** The listener bound to the ORTB image's [load] event: the URLs it
    requests, in order. *)
Definition ortbOnLoad (urls : Urls) (b : Bid) (r : BidResponse) : list string :=
  (if truthy_ostr (impressionUrl urls)
   then sendImpression (impressionUrl urls) ++ sendImpression (Some (journeyUrl r IMPRESSION))
   else [])
  ++ (if truthy_ostr (nurl b)
      then sendImpression (Some (Macro.replaceAuctionMacros (or_str (nurl b) "") r))
      else []).

(** The callback the ORTB variant hands to [setupViewabilityTracking]. *)
Definition ortbOnBillable (b : Bid) (r : BidResponse) : list string :=
  sendImpression (Some (journeyUrl r BILLED_IMPRESSION))
  ++ (if truthy_ostr (burl b)
      then sendImpression (Some (Macro.replaceAuctionMacros (or_str (burl b) "") r))
      else []).

(** The click listener of the ORTB variant (the request it sends). *)
Definition ortbOnClick (r : BidResponse) : list string :=
  sendImpression (Some (journeyUrl r CLICK)).

Section WithMarkupParser.

(** [extractUrls]: the DOM parser applied to the bid's markup. *)
Variable extractUrls : option string -> Urls.

Definition renderOrtbAd (el : SlotElement) (r : BidResponse) : SlotElement :=
  match firstBid r with
  | None => showError el "No valid bid received."
  | Some b =>
      let urls := extractUrls (adm b) in
      if negb (truthy_ostr (imageUrl urls)) then showError el "Invalid ad creative."
      else
        set_inner el (Ad {| variant := Ortb; is_video := false;
                            src := or_str (imageUrl urls) "";
                            alt := Some "Advertisement";
                            href := or_str (clickUrl urls) "#" |})
  end.

(** The [try] of the source guards the dispatch; none of the DOM
    operations of the embedding throws, so its [catch] has no case. *)
Definition renderAd (el : SlotElement) (r : BidResponse) : SlotElement :=
  let el := set_inner el Blank in
  match ad_type r with
  | Some adType =>
      if String.eqb adType "brand" then renderBrandAd el r
      else if String.eqb adType "ortb" then renderOrtbAd el r
      else if String.eqb adType "testing_pid" then renderTestingPidAd el r
      else hideAdSlot el "Unknown ad type received."
  | None => hideAdSlot el "Unknown ad type received."
  end.

End WithMarkupParser.

(** What the page shows in a slot. *)
Inductive Status :=
| Untouched
| Loading
| Cleared
| Rendered
| ErrorShown (message : string)
| Hidden.

(** [style.display] is [none]. *)
Definition hidden (el : SlotElement) : bool :=
  match display el with
  | Some d => String.eqb d "none"
  | None => false
  end.

Definition status (el : SlotElement) : Status :=
  if hidden el then Hidden
  else
    match inner el with
    | Original => Untouched
    | LoadingBox => Loading
    | Blank => Cleared
    | ErrorBox m => ErrorShown m
    | Ad _ => Rendered
    end.

Definition terminal (el : SlotElement) : bool :=
  match status el with
  | Rendered | ErrorShown _ | Hidden => true
  | _ => false
  end.

(** A visible neutral box with a non-empty explanatory text. *)
Definition shows_placeholder (el : SlotElement) : bool :=
  match status el with
  | ErrorShown m => truthy_str m
  | _ => false
  end.

End Render.

(* ===================================================================== *)
(** ** The slot orchestrator: [initialize] and [loadAdForSlot] *)
(* ===================================================================== *)

Module Orchestrator.
Import JS Async Net Render.

(** The data attributes of an [.ad-placeholder] element. *)
Record Placeholder := {
  data_width : option string;
  data_height : option string;
  data_slot_id : option string
}.

(** A slot from the time [initialize] starts it: its state when the
    synchronous part of [initialize] is done with it, and the promise of
    its pipeline, which carries the state the slot has once the pipeline
    has settled.  (Before that time the slot is the placeholder of the
    page, [fresh].) *)
Record Timeline := {
  sync_state : SlotElement;
  pipeline : Promise SlotElement
}.

(** The state of a started slot at [t], a time at or after its start. *)
Definition state_at (tl : Timeline) (t : Z) : SlotElement :=
  match pipeline tl with
  | Some (ts, Fulfilled el) => if (ts <=? t)%Z then el else sync_state tl
  | _ => sync_state tl
  end.

Definition maxRetries : nat := 5.
Definition baseDelay : Z := 500.

(** The polling loop: [left] is [maxRetries - attempt]; returns the time
    at which the loop is left. *)
Fixpoint waitForConfig (configAt : Z -> option Config) (left attempt : nat) (now : Z) : Z :=
  match left with
  | O => now
  | S k =>
      match configAt now with
      | Some _ => now
      | None => waitForConfig configAt k (S attempt) (now + baseDelay * 2 ^ Z.of_nat attempt)
      end
  end.

Section WithPage.

Variable extractUrls : option string -> Urls.
Variable pid : option string.          (* the [pid] parameter of the page URL *)

Definition loadAdForSlot (cfg : Config) (t0 : Z) (el : SlotElement) (slot : Slot)
    (ep : Endpoint) : Promise SlotElement * list FetchCall :=
  let '(p, calls) := makeBidRequest cfg t0 slot pid ep in
  (match p with
   | None => None
   | Some (t, Fulfilled bidResponse) => Some (t, Fulfilled (renderAd extractUrls el bidResponse))
   | Some (t, Rejected _) => Some (t, Fulfilled (hideAdSlot el "Failed to load advertisement."))
   end, calls).

(** [el.style.width = `${n}px`]: the declaration is dropped, and the
    property keeps its value, when the length is negative or not a number
    ("Infinitypx"). *)
Definition set_px (n : integral) (previous : option Z) : option Z :=
  match n with
  | Int z => if (0 <=? z)%Z then Some z else previous
  | Infinity _ => previous
  end.

(** The callback of [Array.from(this.adSlots).map(...)]. *)
Definition startSlot (cfg : Config) (t0 : Z) (ph : Placeholder) (ep : Endpoint)
    : Timeline * list FetchCall :=
  let width := parseInt_or_0 (data_width ph) in
  let height := parseInt_or_0 (data_height ph) in
  let slot_id := parseInt_or_0 (data_slot_id ph) in
  if truthy_int width && truthy_int height && truthy_int slot_id then
    let el := {| style_width := set_px width (style_width fresh);
                 style_height := set_px height (style_height fresh);
                 display := display fresh; inner := LoadingBox |} in
    let '(p, calls) :=
      loadAdForSlot cfg t0 el {| slot_id := slot_id; width := width; height := height |} ep in
    ({| sync_state := el; pipeline := p |}, calls)
  else
    let el := hideAdSlot fresh "Ad size & slot not defined." in
    ({| sync_state := el; pipeline := Some (t0, Fulfilled el) |}, []).

(** The endpoint's behaviour is given per placeholder, by position. *)
Fixpoint startSlots (cfg : Config) (t0 : Z) (net : nat -> Endpoint) (i : nat)
    (phs : list Placeholder) : list (Timeline * list FetchCall) :=
  match phs with
  | [] => []
  | ph :: rest => startSlot cfg t0 ph (net i) :: startSlots cfg t0 net (S i) rest
  end.

Record Run := {
  result : Promise unit;              (* the promise returned by initialize() *)
  slots : list Timeline;
  calls : list FetchCall
}.

Definition untouched : Timeline := {| sync_state := fresh; pipeline := None |}.

(** [initialize()], called at time [t0]. *)
Definition initialize (configAt : Z -> option Config) (t0 : Z) (net : nat -> Endpoint)
    (phs : list Placeholder) : Run :=
  let t1 := waitForConfig configAt maxRetries 0 t0 in
  match configAt t1 with
  | None =>
      {| result := Some (t1, Fulfilled tt); slots := map (fun _ => untouched) phs; calls := [] |}
  | Some cfg =>
      let started := startSlots cfg t1 net 0 phs in
      {| result := allSettled t1 (map (fun s => pipeline (fst s)) started);
         slots := map fst started;
         calls := concat (map snd started) |}
  end.

End WithPage.

(** *** Sample pages *)

Definition placeholder (w h id : string) : Placeholder :=
  {| data_width := Some w; data_height := Some h; data_slot_id := Some id |}.

(** A markup parser that finds nothing. *)
Definition no_markup : option string -> Urls :=
  fun _ => {| clickUrl := None; imageUrl := None; impressionUrl := None |}.

Definition configured : Z -> option Config := fun _ => Some sample_config.
Definition never_configured : Z -> option Config := fun _ => None.

(** Three valid slots; the bid request of the second fails in transport,
    the first gets a brand creative after 120 ms, the third a response of
    unknown type after 80 ms. *)
Definition three_slots : list Placeholder :=
  [ placeholder "300" "250" "1"; placeholder "728" "90" "2"; placeholder "160" "600" "3" ].

Definition brand_response : BidResponse :=
  {| ad_type := Some "brand"; resp_id := None; bidid := None; cur := None; seatbid := [];
     full_file_path := Some "https://cdn.example/banner.png"; creative_type := Some "image";
     brand_name := Some "Acme"; tracking := None; landing_page_url := None;
     ad_click_url := None |}.

Definition second_fails (i : nat) : Endpoint :=
  match i with
  | 0%nat => Responds 120 200 (Some brand_response)
  | 1%nat => TransportFailure 40
  | _ => Responds 80 200 (Some Macro.empty_response)
  end.

End Orchestrator.

(* ===================================================================== *)
(** ** The viewability tracker: [setupViewabilityTracking] *)
(* ===================================================================== *)

Module Viewability.

Definition THRESHOLD : Q := 1 # 2.
Definition DURATION : Z := 1000.

(** DOM elements and callbacks are known by their identity. *)
Definition Element := nat.
Definition Callback := nat.

(** [entries[0]] of an IntersectionObserver notification. *)
Record Entry := { isIntersecting : bool; intersectionRatio : Q }.

(** The variables closed over by one call of [setupViewabilityTracking]
    that went past the guard, with the observer it created. *)
Record Tracker := {
  element : Element;
  callback : Callback;
  visibilityStart : option Z;       (* null, or a reading of performance.now() *)
  visibilityTimeout : option nat;   (* null, or a timer id *)
  hasTriggeredBillable : bool;
  observing : bool;                 (* false after observer.disconnect() *)
  unloadListener : bool             (* the [beforeunload] listener, bound with
                                       [once: true], is still bound *)
}.

Record Timer := { timer_id : nat; due : Z; owner : nat }.

(** One run of a billable callback. *)
Record Firing := { f_element : Element; f_callback : Callback; f_time : Z }.

Record World := {
  now : Z;                          (* performance.now() *)
  flagged : gset Element;           (* elements with _viewabilityTracking = true *)
  trackers : list Tracker;
  timers : list Timer;              (* pending timeouts *)
  next_timer : nat;
  firings : list Firing             (* most recent first *)
}.

(** A page whose clock reads [origin]; timer ids start at 1. *)
Definition init (origin : Z) : World :=
  {| now := origin; flagged := ∅; trackers := []; timers := []; next_timer := 1;
     firings := [] |}.

(** Truthiness of the closure variables. *)
Definition truthy_start (v : option Z) : bool :=
  match v with
  | Some t => negb (t =? 0)%Z
  | None => false
  end.

Definition truthy_timeout (v : option nat) : bool :=
  match v with
  | Some i => negb (i =? 0)%nat
  | None => false
  end.

Definition set_trackers (w : World) (ts : list Tracker) : World :=
  {| now := now w; flagged := flagged w; trackers := ts; timers := timers w;
     next_timer := next_timer w; firings := firings w |}.

Definition set_timers (w : World) (tms : list Timer) : World :=
  {| now := now w; flagged := flagged w; trackers := trackers w; timers := tms;
     next_timer := next_timer w; firings := firings w |}.

Definition set_now (w : World) (t : Z) : World :=
  {| now := t; flagged := flagged w; trackers := trackers w; timers := timers w;
     next_timer := next_timer w; firings := firings w |}.

(** [clearTimeout(id)]; [clearTimeout(null)] does nothing. *)
Definition clearTimeout (w : World) (id : option nat) : World :=
  match id with
  | Some i => set_timers w (filter (fun tm => timer_id tm ≠ i) (timers w))
  | None => w
  end.

(** [setupViewabilityTracking(element, callback)] *)
Definition setupViewabilityTracking (w : World) (el : Element) (cb : Callback) : World :=
  if bool_decide (el ∈ flagged w) then w
  else
    {| now := now w;
       flagged := {[ el ]} ∪ flagged w;
       trackers := trackers w ++
         [ {| element := el; callback := cb; visibilityStart := None;
              visibilityTimeout := None; hasTriggeredBillable := false;
              observing := true; unloadListener := true |} ];
       timers := timers w;
       next_timer := next_timer w;
       firings := firings w |}.

(** The IntersectionObserver callback of tracker [k]. *)
Definition onIntersect (w : World) (k : nat) (e : Entry) : World :=
  match trackers w !! k with
  | None => w
  | Some tr =>
      if isIntersecting e && Qle_bool THRESHOLD (intersectionRatio e) then
        if negb (truthy_start (visibilityStart tr)) then
          let id := next_timer w in
          let tr' :=
            {| element := element tr; callback := callback tr;
               visibilityStart := Some (now w);
               visibilityTimeout := Some id;
               hasTriggeredBillable := hasTriggeredBillable tr;
               observing := observing tr;
               unloadListener := unloadListener tr |} in
          {| now := now w; flagged := flagged w;
             trackers := <[k := tr']> (trackers w);
             timers := timers w ++ [ {| timer_id := id; due := now w + DURATION; owner := k |} ];
             next_timer := S id;
             firings := firings w |}
        else w
      else
        if truthy_start (visibilityStart tr) then
          let w' := clearTimeout w (visibilityTimeout tr) in
          set_trackers w'
            (<[k := {| element := element tr; callback := callback tr;
                       visibilityStart := None;
                       visibilityTimeout := visibilityTimeout tr;
                       hasTriggeredBillable := hasTriggeredBillable tr;
                       observing := observing tr;
                       unloadListener := unloadListener tr |}]> (trackers w'))
        else w
  end.

(** The function handed to [setTimeout] by tracker [k]. *)
Definition onTimeout (w : World) (k : nat) : World :=
  match trackers w !! k with
  | None => w
  | Some tr =>
      if negb (hasTriggeredBillable tr) then
        {| now := now w; flagged := flagged w;
           trackers :=
             <[k := {| element := element tr; callback := callback tr;
                       visibilityStart := visibilityStart tr;
                       visibilityTimeout := visibilityTimeout tr;
                       hasTriggeredBillable := true;
                       observing := false;
                       unloadListener := unloadListener tr |}]> (trackers w);
           timers := timers w;
           next_timer := next_timer w;
           firings :=
             {| f_element := element tr; f_callback := callback tr; f_time := now w |}
             :: firings w |}
      else w
  end.

(** The [beforeunload] listener of one tracker.  It is bound with
    [once: true]: the first [beforeunload] runs it and removes it, a later
    one finds nothing to run. *)
Definition onUnload (w : World) (k : nat) : World :=
  match trackers w !! k with
  | None => w
  | Some tr =>
      if negb (unloadListener tr) then w
      else
        let w' :=
          set_trackers w
            (<[k := {| element := element tr; callback := callback tr;
                       visibilityStart := visibilityStart tr;
                       visibilityTimeout := visibilityTimeout tr;
                       hasTriggeredBillable := hasTriggeredBillable tr;
                       observing := false;
                       unloadListener := false |}]> (trackers w)) in
        if truthy_timeout (visibilityTimeout tr) then clearTimeout w' (visibilityTimeout tr)
        else w'
  end.

(** *** The event loop *)

(** The pending timer that runs next: the earliest one, the older one
    among equals. *)
Fixpoint earliest (tms : list Timer) : option Timer :=
  match tms with
  | [] => None
  | tm :: rest =>
      match earliest rest with
      | Some tm' => if (due tm' <? due tm)%Z then Some tm' else Some tm
      | None => Some tm
      end
  end.

(** Runs, in order, the timers that are due at [t] or before; each runs
    with the clock at its due time (or at the present time, if that is
    later). *)
Fixpoint runTimers (fuel : nat) (t : Z) (w : World) : World :=
  match fuel with
  | O => w
  | S f =>
      match earliest (timers w) with
      | Some tm =>
          if (due tm <=? t)%Z then
            let w1 := set_now (clearTimeout w (Some (timer_id tm))) (Z.max (now w) (due tm)) in
            runTimers f t (onTimeout w1 (owner tm))
          else w
      | None => w
      end
  end.

(** Time passes until the clock reads [t]. *)
Definition elapse (w : World) (t : Z) : World :=
  let w' := runTimers (length (timers w)) t w in
  set_now w' (Z.max (now w') t).

(** The trackers whose observer watches [el]. *)
Fixpoint watchers (ts : list Tracker) (i : nat) (el : Element) : list nat :=
  match ts with
  | [] => []
  | tr :: rest =>
      if bool_decide (element tr = el) && observing tr
      then i :: watchers rest (S i) el
      else watchers rest (S i) el
  end.

Inductive Event :=
| Register (el : Element) (cb : Callback)   (* a call of setupViewabilityTracking *)
| Intersect (el : Element) (e : Entry)      (* the visibility of el changes *)
| Notify (k : nat) (e : Entry)              (* an entry queued for the observer of
                                               tracker k is delivered, connected or not *)
| Elapse (t : Z)                            (* the clock advances to t *)
| Unload.                                   (* beforeunload *)

Definition step (w : World) (ev : Event) : World :=
  match ev with
  | Register el cb => setupViewabilityTracking w el cb
  | Intersect el e =>
      fold_left (fun w k => onIntersect w k e) (watchers (trackers w) 0 el) w
  | Notify k e => onIntersect w k e
  | Elapse t => elapse w t
  | Unload => fold_left onUnload (seq 0 (length (trackers w))) w
  end.

Definition run (w : World) (evs : list Event) : World := fold_left step evs w.

(** How often a billable callback ran for [el]. *)
Definition fired_count (w : World) (el : Element) : nat :=
  length (filter (fun f => f_element f = el) (firings w)).

(** *** What the at-most-once argument looks at *)

(** Per tracker, its element and whether its callback has run. *)
Definition marks (w : World) : list (Element * bool) :=
  (fun tr => (element tr, hasTriggeredBillable tr)) <$> trackers w.

(** Every element has at most one tracker, tracked elements carry the
    flag, and a callback that has run has left its mark. *)
Record consistent (w : World) : Prop := {
  c_nodup : NoDup (fst <$> marks w);
  c_flagged : forall el, el ∈ (fst <$> marks w) -> el ∈ flagged w;
  c_count : forall el,
    fired_count w el = 0%nat \/ (fired_count w el = 1%nat /\ (el, true) ∈ marks w)
}.

(** Two worlds that differ in clock, timers and dwell state only. *)
Definition same_view (w w' : World) : Prop :=
  flagged w' = flagged w /\ marks w' = marks w /\ firings w' = firings w.

(** *** A page with one tracked element *)

(** The tracker of element 0 with callback 0, before and after the page's
    first [beforeunload]. *)
Definition tracker0 (vs : option Z) (vt : option nat) (trig obs : bool) : Tracker :=
  {| element := 0%nat; callback := 0%nat; visibilityStart := vs; visibilityTimeout := vt;
     hasTriggeredBillable := trig; observing := obs; unloadListener := true |}.

Definition unloaded0 (vs : option Z) (vt : option nat) (trig : bool) : Tracker :=
  {| element := 0%nat; callback := 0%nat; visibilityStart := vs; visibilityTimeout := vt;
     hasTriggeredBillable := trig; observing := false; unloadListener := false |}.

Definition single (F : gset Element) (t : Z) (tr : Tracker) (tms : list Timer) (nxt : nat)
    (fs : list Firing) : World :=
  {| now := t; flagged := F; trackers := [tr]; timers := tms; next_timer := nxt;
     firings := fs |}.

(** The visibility test of the observer callback. *)
Definition viewable (e : Entry) : bool :=
  isIntersecting e && Qle_bool THRESHOLD (intersectionRatio e).

(** *** Visibility timelines

    A timeline lists visibility changes with the time at which each is
    reported, counted from the start of the observation; the page's clock
    reads [origin] at that start. *)
Definition timeline_events (origin : Z) (el : Element) (tl : list (Z * Entry)) : list Event :=
  flat_map (fun '(t, e) => [Elapse (origin + t); Intersect el e]) tl.

(** The times, counted as in the timeline and in chronological order, at
    which the callback of [el] has run when the timeline has been played
    and the clock has reached [horizon]. *)
Definition firing_times (origin : Z) (tl : list (Z * Entry)) (horizon : Z) : list Z :=
  let el := 0%nat in
  let w := run (init origin)
             (Register el 0%nat :: timeline_events origin el tl ++ [Elapse (origin + horizon)]) in
  rev (map (fun f => f_time f - origin)%Z (filter (fun f => f_element f = el) (firings w))).

Definition visible (t : Z) (ratio : Q) : Z * Entry :=
  (t, {| isIntersecting := true; intersectionRatio := ratio |}).

(** The timeline of the specification's example. *)
Definition example_timeline : list (Z * Entry) :=
  [ visible 0 (6 # 10); visible 400 (4 # 10); visible 500 (6 # 10) ].

End Viewability.


(* ===================================================================== *)
(** ** The device context: [detectDeviceType], [initializeAdSystemConfig] *)
(* ===================================================================== *)

Module Device.
Import JS.

(** Case folding of the [i] flag, on the ASCII letters (a character outside
    ASCII never folds to an ASCII one). *)
Definition lower (c : ascii) : ascii :=
  let n := nat_of_ascii c in
  if (65 <=? n)%nat && (n <=? 90)%nat then ascii_of_nat (n + 32) else c.

Fixpoint lower_str (s : string) : string :=
  match s with
  | EmptyString => ""
  | String c r => String (lower c) (lower_str r)
  end.

(** [p] starts [s], letter case apart. *)
Fixpoint prefix_ci (p s : string) : bool :=
  match p with
  | EmptyString => true
  | String a p' =>
      match s with
      | EmptyString => false
      | String b s' => Ascii.eqb (lower a) (lower b) && prefix_ci p' s'
      end
  end.

(** [/p/i.test(s)] for a literal [p]. *)
Fixpoint contains_ci (p s : string) : bool :=
  prefix_ci p s
  || match s with
     | EmptyString => false
     | String _ r => contains_ci p r
     end.

(** [/p1|p2|.../i.test(s)] *)
Definition test_any (alternatives : list string) (s : string) : bool :=
  existsb (fun p => contains_ci p s) alternatives.

Record DeviceType := { name : string; val : Z }.

Definition mobile_words : list string :=
  [ "Mobile"; "Android"; "iPhone"; "iPad"; "iPod"; "BlackBerry"; "IEMobile"; "Opera Mini" ].
Definition tablet_words : list string := [ "Tablet"; "iPad" ].
Definition tv_words : list string := [ "SmartTV"; "TV" ].
Definition desktop_words : list string := [ "Mac"; "Windows"; "Linux" ].

(** [detectDeviceType()], of [navigator.userAgent]. *)
Definition detectDeviceType (ua : string) : DeviceType :=
  if test_any mobile_words ua then
    if test_any tablet_words ua
    then {| name := "Tablet"; val := 5 |}
    else {| name := "Phone"; val := 4 |}
  else if test_any tv_words ua then {| name := "Connected TV"; val := 3 |}
  else if test_any desktop_words ua then {| name := "Personal Computer"; val := 2 |}
  else {| name := "Connected Device"; val := 6 |}.

(** The properties of [navigator] the configuration reads;
    [userAgentData_platform] is [navigator.userAgentData?.platform]. *)
Record Navigator := {
  userAgent : string;
  vendor : string;
  platform : string;
  userAgentData_platform : option string
}.

Fixpoint take_while (f : ascii -> bool) (s : string) : string :=
  match s with
  | String c r => if f c then String c (take_while f r) else ""
  | EmptyString => ""
  end.

(** Every character of [s] is in the class [f]. *)
Fixpoint all_chars (f : ascii -> bool) (s : string) : bool :=
  match s with
  | String c r => f c && all_chars f r
  | EmptyString => true
  end.

(** The class [[\d_]] *)
Definition version_char (c : ascii) : bool :=
  match digit_val c with
  | Some _ => true
  | None => Ascii.eqb c "_"
  end.

(** [s.match(/OS ([\d_]+)/)?.[1]]: the first place where "OS " is followed
    by a digit or an underscore, and the longest run of them from there. *)
Fixpoint os_version_match (s : string) : option string :=
  match s with
  | EmptyString => None
  | String _ r =>
      if String.prefix "OS " s then
        match take_while version_char (drop_str 3 s) with
        | EmptyString => os_version_match r
        | v => Some v
        end
      else os_version_match r
  end.

(** [initializeAdSystemConfig()]: the value written to
    [window.adSystemConfig].  Of the constant [geo] object the record keeps
    the three names; its coordinates and type are constants too and go to
    the bid request unread. *)
Definition initializeAdSystemConfig (nav : Navigator) : Net.Config :=
  {| Net.geo_country := "IND";
     Net.geo_region := "HR";
     Net.geo_city := "Panipat";
     Net.ipv6 := "2001:0db8:85a3:0000:0000:8a2e:0370:7334";
     Net.deviceType := val (detectDeviceType (userAgent nav));
     Net.deviceMake := or_str (Some (vendor nav)) "Unknown";
     Net.deviceModel := or_str (Some (platform nav)) "Unknown";
     Net.deviceOs := or_str (or_ostr (userAgentData_platform nav) (Some (platform nav))) "Unknown";
     Net.deviceOsVersion := or_str (os_version_match (userAgent nav)) "Unknown";
     Net.deviceCarrier := "unknown" |}.

End Device.

(* ===================================================================== *)
(** ** The markup of an ORTB bid: [extractUrls] *)
(* ===================================================================== *)

Module Markup.
Import JS.

(** What the DOM parser finds in the markup: [anchor?.href], [img?.src]
    and [img?.getAttribute("onload")]. *)
Record Parsed := {
  anchor_href : option string;
  img_src : option string;
  img_onload : option string
}.

Definition not_quote (c : ascii) : bool := negb (Ascii.eqb c "'").

(** [s.match(/sendUrl\('([^']+)'\)/)?.[1]]: the first place where
    [sendUrl('] is followed by at least one character other than a quote
    and then by [')]; the run of characters in between. *)
Fixpoint sendUrl_match (s : string) : option string :=
  match s with
  | EmptyString => None
  | String _ r =>
      if String.prefix "sendUrl('" s then
        let rest := drop_str 9 s in
        let u := Device.take_while not_quote rest in
        if truthy_str u && String.prefix "')" (drop_str (String.length u) rest)
        then Some u
        else sendUrl_match r
      else sendUrl_match r
  end.

(** The impression URL of the [onload] attribute. *)
Definition impressionUrlOf (onload : option string) : option string :=
  match onload with
  | Some a => if truthy_str a then sendUrl_match a else None
  | None => None
  end.

Definition falsy_to_null (v : option string) : option string :=
  if truthy_ostr v then v else None.

(** [extractUrls(adm)], given the DOM parser. *)
Definition extractUrls (parse : option string -> Parsed) (adm : option string) : Render.Urls :=
  let doc := parse adm in
  {| Render.clickUrl := falsy_to_null (anchor_href doc);
     Render.imageUrl := falsy_to_null (img_src doc);
     Render.impressionUrl := impressionUrlOf (img_onload doc) |}.

End Markup.

(* ===================================================================== *)
(** ** Beacons and the listeners of a creative *)
(* ===================================================================== *)

Module Listeners.
Import JS Async Net.

(** The options of a beacon request. *)
Definition beaconInit : RequestInit :=
  {| method := "GET"; headers := []; body := None;
     mode := Some "no-cors"; credentials := Some "omit"; keepalive := true;
     cache := Some "no-store"; signal := None; other_members := [] |}.

(** [sendImpression(url)] called at [t0]: the promise it returns (the
    [catch] turns a failure of [fetch] into a fulfilment) and the request it
    issues. *)
Definition sendImpressionAt (t0 : Z) (url : option string) (ep : Endpoint)
    : Promise unit * list FetchCall :=
  match url with
  | Some u =>
      if truthy_str u then
        (match fetch t0 beaconInit ep with
         | Some (t, _) => Some (t, Fulfilled tt)
         | None => None
         end,
         [ {| fc_url := u; fc_init := beaconInit |} ])
      else (Some (t0, Fulfilled tt), [])
  | None => (Some (t0, Fulfilled tt), [])
  end.

(** [trackImpression] of the brand and testing variants (the [load] or
    [loadeddata] listener of the media element). *)
Definition trackImpression (ad : BidResponse) : list string :=
  match tracking ad with
  | Some tr => sendImpression (impression_url tr)
  | None => []
  end.

(** The callback the brand and testing variants hand to
    [setupViewabilityTracking]. *)
Definition onBillable (ad : BidResponse) : list string :=
  match tracking ad with
  | Some tr => sendImpression (billable_impression_url tr)
  | None => []
  end.

(** What a click does, besides preventing the default navigation. *)
Inductive Click :=
| Throws                                  (* a TypeError ends the listener *)
| Navigates (t : Z) (destination : string) (requested : list FetchCall)
| NeverNavigates (requested : list FetchCall).

(** The requests a click has issued. *)
Definition requests_of (c : Click) : list FetchCall :=
  match c with
  | Throws => []
  | Navigates _ _ requested => requested
  | NeverNavigates requested => requested
  end.

(** [destination_url || landing_page_url || click_url || "#"] *)
Definition brandDestination (ad : BidResponse) (tr : Tracking) : string :=
  or_str (destination_url tr) (or_str (landing_page_url ad) (or_str (ad_click_url ad) "#")).

(** The click listener of the brand variant, run at [t0]; [ep] is what the
    click tracker does.  The listener first logs
    [ad.tracking.destination_url]. *)
Definition brandOnClick (t0 : Z) (ad : BidResponse) (ep : Endpoint) : Click :=
  match tracking ad with
  | None => Throws
  | Some tr =>
      if truthy_ostr (click_url tr) then
        let '(p, calls) := sendImpressionAt t0 (click_url tr) ep in
        match p with
        | Some (t, Fulfilled _) => Navigates (t + 100) (brandDestination ad tr) calls
        | Some (t, Rejected _) => Navigates t (brandDestination ad tr) calls
        | None => NeverNavigates calls
        end
      else Navigates t0 (brandDestination ad tr) []
  end.

(** The click listener of the testing variant. *)
Definition testingOnClick (t0 : Z) (ad : BidResponse) (ep : Endpoint) : Click :=
  match tracking ad with
  | None => Throws
  | Some tr =>
      if truthy_ostr (click_url tr) then
        let '(p, calls) := sendImpressionAt t0 (click_url tr) ep in
        match p with
        | Some (t, Fulfilled _) => Navigates (t + 100) (or_str (destination_url tr) "#") calls
        | Some (t, Rejected _) => Navigates t (or_str (destination_url tr) "#") calls
        | None => NeverNavigates calls
        end
      else Navigates t0 (or_str (destination_url tr) "#") []
  end.

(** The click listener of the ORTB variant: the journey request is not
    awaited; [window.location.href = urls.clickUrl] turns [null] into the
    text "null". *)
Definition ortbOnClick (t0 : Z) (urls : Render.Urls) (r : BidResponse) (ep : Endpoint)
    : Click :=
  Navigates (t0 + 100)
    (match Render.clickUrl urls with Some u => u | None => "null" end)
    (snd (sendImpressionAt t0 (Some (Render.journeyUrl r Render.CLICK)) ep)).

(** The requests sent by the billable callbacks of an element, when each
    run of the callback sends [beacons]. *)
Definition billable_requests (w : Viewability.World) (el : Viewability.Element)
    (beacons : list string) : list string :=
  concat (map (fun _ => beacons)
            (filter (fun f => Viewability.f_element f = el) (Viewability.firings w))).

End Listeners.

(* ===================================================================== *)
(** ** The tracker of one element as a three-state machine *)
(* ===================================================================== *)

Module Dwell.
Import Viewability.
Local Open Scope Z_scope.

Inductive Phase :=
| Idle
| Accumulating (since : Z)
| Fired (when : Z).

(** Time passes to [t]: a dwell that is complete by then has fired. *)
Definition advance (p : Phase) (t : Z) : Phase :=
  match p with
  | Accumulating s => if (s + DURATION <=? t)%Z then Fired (s + DURATION) else p
  | _ => p
  end.

(** A visibility report at [t]. *)
Definition observe (p : Phase) (te : Z * Entry) : Phase :=
  match advance p (fst te) with
  | Idle => if viewable (snd te) then Accumulating (fst te) else Idle
  | Accumulating s => if viewable (snd te) then Accumulating s else Idle
  | Fired a => Fired a
  end.

Definition phase_after (tl : list (Z * Entry)) (horizon : Z) : Phase :=
  advance (fold_left observe tl Idle) horizon.

Definition fired_at (p : Phase) : list Z :=
  match p with
  | Fired a => [a]
  | _ => []
  end.

(** The reports come in the order of their times, none before [from]. *)
Fixpoint ordered (from : Z) (tl : list (Z * Entry)) : bool :=
  match tl with
  | [] => true
  | te :: rest => (from <=? fst te)%Z && ordered (fst te) rest
  end.

(** The world of the page when the tracker of element 0 is in phase [p]
    and the last report came at [t] (times counted from [origin]); timer
    ids are positive. *)
Inductive represents (origin : Z) : Phase -> Z -> World -> Prop :=
| rep_idle F t vs vt nxt :
    truthy_start vs = false -> (0 < nxt)%nat ->
    represents origin Idle t (single F (origin + t) (tracker0 vs vt false true) [] nxt [])
| rep_accumulating F t s id nxt :
    (s <= t < s + DURATION)%Z -> (origin + s <> 0)%Z -> (0 < id)%nat -> (0 < nxt)%nat ->
    represents origin (Accumulating s) t
      (single F (origin + t) (tracker0 (Some (origin + s)) (Some id) false true)
         [ {| timer_id := id; due := origin + s + DURATION; owner := 0%nat |} ] nxt [])
| rep_fired F t t' a vs vt nxt :
    (a <= t)%Z ->
    represents origin (Fired a) t
      (single F t' (tracker0 vs vt true false) [] nxt
         [ {| f_element := 0%nat; f_callback := 0%nat; f_time := origin + a |} ]).

(** The times, counted from [origin] and in chronological order, at which
    the callback of element 0 has run in [w]. *)
Definition fired_times (origin : Z) (w : World) : list Z :=
  rev (map (fun f => f_time f - origin)%Z
         (filter (fun f => f_element f = 0%nat) (firings w))).

(** The world once the page's first [beforeunload] has run: the observer
    is disconnected, the listener is gone and no timer is pending. *)
Definition stopped (w : World) : Prop :=
  exists F t vs vt trig nxt, w = single F t (unloaded0 vs vt trig) [] nxt (firings w).

(** What can follow the unload when no entry queued before it is delivered
    after it: visibility changes, the passing of time, further unloads. *)
Definition after_unload (ev : Event) : bool :=
  match ev with
  | Intersect _ _ | Elapse _ | Unload => true
  | Register _ _ | Notify _ _ => false
  end.

End Dwell.

(* ===================================================================== *)
(** * Properties *)
(* ===================================================================== *)

(** ** Strings *)

Section StringFacts.
Import JS.

Lemma append_empty_r (s : string) : s ++ "" = s.
Proof. induction s as [|c s IH]; simpl; [reflexivity | now rewrite IH]. Qed.

Lemma append_assoc (a b c : string) : (a ++ b) ++ c = a ++ (b ++ c).
Proof. induction a as [|x a IH]; simpl; [reflexivity | now rewrite IH]. Qed.

Lemma prefix_cons (a b : ascii) (p x : string) :
  String.prefix (String a p) (String b x)
  = if ascii_dec a b then String.prefix p x else false.
Proof. reflexivity. Qed.

Lemma prefix_empty (x : string) : String.prefix "" x = true.
Proof. destruct x; reflexivity. Qed.

Lemma prefix_append (p x : string) : String.prefix p (p ++ x) = true.
Proof.
  induction p as [|c p IH]; [apply prefix_empty|].
  change (String c p ++ x) with (String c (p ++ x)).
  rewrite prefix_cons. destruct (ascii_dec c c); [exact IH | congruence].
Qed.

(** A pattern found at the head of [m ++ x] is comparable with [m]. *)
Lemma prefix_append_comparable (p m x : string) :
  String.prefix p (m ++ x) = true ->
  String.prefix p m = true \/ String.prefix m p = true.
Proof.
  revert m. induction p as [|c p IH]; intros m H; [left; apply prefix_empty|].
  destruct m as [|d m]; [right; reflexivity|].
  change (String d m ++ x) with (String d (m ++ x)) in H.
  rewrite !prefix_cons in *.
  destruct (ascii_dec c d) as [->|Hne]; [|discriminate].
  destruct (ascii_dec d d); [|congruence].
  apply IH, H.
Qed.

Lemma ascii_eqb_dollar (c : ascii) :
  Ascii.eqb c "$" = false -> forall p x, String.prefix (String "$" p) (String c x) = false.
Proof.
  intros H p x. rewrite prefix_cons. destruct (ascii_dec "$" c) as [<-|]; [|reflexivity].
  now rewrite Ascii.eqb_refl in H.
Qed.

Lemma dollar_free_tame (avoid : list ascii) (s : string) :
  Macro.dollar_free s = true -> Macro.tame avoid s = true.
Proof.
  induction s as [|c r IH]; [reflexivity|]. cbn [Macro.dollar_free Macro.tame].
  intros H. apply andb_prop in H as [Hc Hr]. apply negb_true_iff in Hc.
  now rewrite Hc, (IH Hr).
Qed.

Lemma literal_value_quiet (v : string) :
  Macro.literal_value v = true -> Macro.quiet v = true.
Proof.
  unfold Macro.literal_value, Macro.quiet.
  induction v as [|c r IH]; [reflexivity|]. cbn [Macro.tame].
  intros H. apply andb_prop in H as [Hc Hr]. rewrite (IH Hr), andb_true_r.
  destruct (Ascii.eqb c "$"); [|reflexivity].
  destruct r as [|d r']; [discriminate|].
  cbn [existsb] in *. apply negb_true_iff in Hc. apply orb_false_elim in Hc as [Hd _].
  now rewrite Hd.
Qed.

(** A value that holds no replacement pattern is inserted as it is. *)
Lemma getSubstitution_literal (matched before after repl : string) :
  Macro.literal_value repl = true -> getSubstitution matched before after repl = repl.
Proof.
  unfold Macro.literal_value.
  induction repl as [|c r IH]; [reflexivity|]. cbn [Macro.tame getSubstitution].
  intros H. apply andb_prop in H as [Hc Hr].
  destruct (Ascii.eqb c "$"); [|now rewrite (IH Hr)].
  destruct r as [|d r']; [discriminate|].
  cbn [existsb] in Hc. apply negb_true_iff in Hc.
  apply orb_false_elim in Hc as [_ Hc]. apply orb_false_elim in Hc as [H1 Hc].
  apply orb_false_elim in Hc as [H2 Hc]. apply orb_false_elim in Hc as [H3 Hc].
  apply orb_false_elim in Hc as [H4 _].
  rewrite H1, H2, H3, H4. now rewrite (IH Hr).
Qed.

(** No token begins at a character of plain text. *)
Lemma no_token_in_text (c : ascii) (r x p : string) :
  Macro.quiet (String c r) = true ->
  String.prefix (String "$" (String "{" p)) (String c (r ++ x)) = false.
Proof.
  unfold Macro.quiet. cbn [Macro.tame]. intros H. apply andb_prop in H as [Hc _].
  rewrite prefix_cons. destruct (ascii_dec "$" c) as [<-|]; [|reflexivity].
  cbn [Ascii.eqb] in Hc. change (Ascii.eqb "$" "$") with true in Hc. cbv iota in Hc.
  destruct r as [|d r']; [discriminate|].
  change (String d r' ++ x) with (String d (r' ++ x)). rewrite prefix_cons.
  destruct (ascii_dec "{" d) as [<-|]; [discriminate | reflexivity].
Qed.

Lemma quiet_tail (c : ascii) (r : string) :
  Macro.quiet (String c r) = true -> Macro.quiet r = true.
Proof. unfold Macro.quiet. cbn [Macro.tame]. intros H. now apply andb_prop in H as [_ H]. Qed.

(** The scan copies plain text. *)
Lemma replace_scan_text (p repl : string) (s : string) :
  Macro.quiet s = true ->
  forall before x,
    replace_scan (String "$" (String "{" p)) repl before 0 (s ++ x)
    = s ++ replace_scan (String "$" (String "{" p)) repl (before ++ s) 0 x.
Proof.
  induction s as [|c s IH]; intros H before x.
  - simpl. now rewrite append_empty_r.
  - change (String c s ++ x) with (String c (s ++ x)).
    cbn [replace_scan]. rewrite (no_token_in_text c s x p H).
    rewrite (IH (quiet_tail c s H)). rewrite append_assoc. reflexivity.
Qed.

(** The characters of a match are passed over. *)
Lemma replace_scan_skip (pat repl : string) (u : string) :
  forall before x,
    replace_scan pat repl before (String.length u) (u ++ x)
    = replace_scan pat repl (before ++ u) 0 x.
Proof.
  induction u as [|c u IH]; intros before x.
  - simpl. rewrite append_empty_r. destruct x; reflexivity.
  - cbn [String.length append replace_scan]. rewrite IH, append_assoc. reflexivity.
Qed.

(** A match at the head, with a replacement that holds no pattern. *)
Lemma replace_scan_match (p repl : string) :
  Macro.literal_value repl = true ->
  forall before x,
    replace_scan (String "$" p) repl before 0 (String "$" p ++ x)
    = repl ++ replace_scan (String "$" p) repl (before ++ String "$" p) 0 x.
Proof.
  intros Hr before x.
  change (String "$" p ++ x) with (String "$" (p ++ x)).
  cbn [replace_scan].
  change (String "$" (p ++ x)) with (String "$" p ++ x).
  rewrite prefix_append, (getSubstitution_literal _ _ _ _ Hr).
  replace (String.length (String "$" p) - 1)%nat with (String.length p)
    by (cbn [String.length]; lia).
  rewrite replace_scan_skip, append_assoc. reflexivity.
Qed.

(** No match at the head: another token is copied. *)
Lemma replace_scan_other (p q repl : string) :
  Macro.dollar_free q = true ->
  forall before x,
    String.prefix (String "$" (String "{" p)) (String "$" (String "{" q) ++ x) = false ->
    replace_scan (String "$" (String "{" p)) repl before 0 (String "$" (String "{" q) ++ x)
    = String "$" (String "{" q)
      ++ replace_scan (String "$" (String "{" p)) repl (before ++ String "$" (String "{" q)) 0 x.
Proof.
  intros Hq before x Hpre.
  change (String "$" (String "{" q) ++ x) with (String "$" (String "{" q ++ x)) in *.
  cbn [replace_scan]. rewrite Hpre.
  assert (Hquiet : Macro.quiet (String "{" q) = true).
  { unfold Macro.quiet. cbn [Macro.tame]. change (Ascii.eqb "{" "$") with false. cbv iota.
    apply (dollar_free_tame ["{"%char] q Hq). }
  rewrite (replace_scan_text p repl (String "{" q) Hquiet), append_assoc. reflexivity.
Qed.

End StringFacts.

(** ** Macro substitution *)

Section MacroFacts.
Import JS Macro.

Lemma macro_names_shape (m : string) : m ∈ macro_names -> token_shape m = true.
Proof.
  intros H. unfold macro_names in H.
  repeat (apply elem_of_cons in H as [->|H]; [reflexivity|]).
  now apply elem_of_nil in H.
Qed.

(** No macro token is the beginning of another. *)
Lemma macro_names_incomparable (m m' : string) :
  m ∈ macro_names -> m' ∈ macro_names -> String.eqb m' m = false ->
  String.prefix m m' = false /\ String.prefix m' m = false.
Proof.
  intros H H' Hne. unfold macro_names in H, H'.
  repeat (apply elem_of_cons in H as [->|H];
          [repeat (apply elem_of_cons in H' as [->|H'];
                   [first [discriminate Hne | split; reflexivity]|]);
           now apply elem_of_nil in H'|]).
  now apply elem_of_nil in H.
Qed.

Lemma pattern_of_macro_name (m : string) :
  m ∈ macro_names -> pattern_literal (escape_dollar m) = m.
Proof.
  intros H. unfold macro_names in H.
  repeat (apply elem_of_cons in H as [->|H]; [reflexivity|]).
  now apply elem_of_nil in H.
Qed.

Lemma token_shape_inv (m : string) :
  token_shape m = true -> exists q, m = String "$" (String "{" q) /\ dollar_free q = true.
Proof.
  destruct m as [|c [|d q]]; [discriminate | discriminate|]. cbn [token_shape]. intros H.
  apply andb_prop in H as [H Hq]. apply andb_prop in H as [Hc Hd].
  apply Ascii.eqb_eq in Hc as ->. apply Ascii.eqb_eq in Hd as ->. eauto.
Qed.

(** One global replacement on a well-formed template. *)
Lemma replace_scan_segments (m v : string) :
  m ∈ macro_names -> literal_value v = true ->
  forall segs, forallb wf_segment segs = true ->
  forall before,
    replace_scan m v before 0 (render segs) = render (map (fill_one m v) segs).
Proof.
  intros Hm Hv.
  destruct (token_shape_inv m (macro_names_shape m Hm)) as (p & -> & _).
  induction segs as [|seg rest IH]; intros Hwf before; [reflexivity|].
  cbn [forallb] in Hwf. apply andb_prop in Hwf as [Hseg Hrest].
  destruct seg as [s|m']; cbn [map fill_one].
  - cbn [wf_segment] in Hseg. cbn [render].
    rewrite (replace_scan_text p v s Hseg). f_equal. now apply IH.
  - cbn [wf_segment] in Hseg. apply bool_decide_eq_true_1 in Hseg.
    destruct (token_shape_inv m' (macro_names_shape m' Hseg)) as (q & Eq & Hq).
    destruct (String.eqb m' (String "$" (String "{" p))) eqn:E; cbn [render].
    + apply String.eqb_eq in E. rewrite E.
      rewrite (replace_scan_match (String "{" p) v Hv). f_equal. now apply IH.
    + destruct (macro_names_incomparable _ m' Hm Hseg E) as [N1 N2].
      assert (Hpre : String.prefix (String "$" (String "{" p)) (m' ++ render rest) = false).
      { destruct (String.prefix (String "$" (String "{" p)) (m' ++ render rest)) eqn:Hp;
          [|reflexivity].
        apply prefix_append_comparable in Hp as [Hp|Hp]; congruence. }
      subst m'.
      rewrite (replace_scan_other p q v Hq before (render rest) Hpre).
      f_equal. now apply IH.
Qed.

Lemma replace_macro_segments (m v : string) (segs : list segment) :
  m ∈ macro_names -> literal_value v = true -> forallb wf_segment segs = true ->
  replace_macro (render segs) (m, v) = render (map (fill_one m v) segs).
Proof.
  intros Hm Hv Hwf. unfold replace_macro. cbn [fst snd].
  rewrite (pattern_of_macro_name m Hm). unfold replace_global.
  destruct (token_shape_inv m (macro_names_shape m Hm)) as (p & Ep & _).
  rewrite Ep at 1. now apply replace_scan_segments.
Qed.

Lemma fill_one_wf (m v : string) (segs : list segment) :
  literal_value v = true -> forallb wf_segment segs = true ->
  forallb wf_segment (map (fill_one m v) segs) = true.
Proof.
  intros Hv. induction segs as [|seg rest IH]; [reflexivity|].
  cbn [forallb map]. intros H. apply andb_prop in H as [Hseg Hrest].
  rewrite (IH Hrest), andb_true_r.
  destruct seg as [s|m']; cbn [fill_one]; [exact Hseg|].
  destruct (String.eqb m' m); [exact (literal_value_quiet v Hv) | exact Hseg].
Qed.

Lemma fold_replace_segments (ms : list (string * string)) :
  forall segs,
    Forall (fun mv => fst mv ∈ macro_names /\ literal_value (snd mv) = true) ms ->
    forallb wf_segment segs = true ->
    fold_left replace_macro ms (render segs) = render (fill_passes ms segs).
Proof.
  induction ms as [|[m v] rest IH]; intros segs Hms Hwf; [reflexivity|].
  apply Forall_cons in Hms as [[Hm Hv] Hrest]. cbn [fst snd] in Hm, Hv.
  cbn [fold_left fill_passes].
  rewrite (replace_macro_segments m v segs Hm Hv Hwf).
  apply IH; [exact Hrest | now apply fill_one_wf].
Qed.

Lemma fill_passes_macros (r : BidResponse) (sb : SeatBid) (b : Bid) (segs : list segment) :
  forallb wf_segment segs = true ->
  fill_passes (macros r sb b) segs = map (fill (macros r sb b)) segs.
Proof.
  intros Hwf. unfold macros at 1. cbn [fill_passes]. rewrite !map_map.
  apply map_ext_in. intros seg Hin.
  pose proof (proj1 (forallb_forall _ _) Hwf seg Hin) as Hseg.
  destruct seg as [s|m]; [reflexivity|].
  cbn [wf_segment] in Hseg. apply bool_decide_eq_true_1 in Hseg.
  unfold macro_names in Hseg.
  repeat (apply elem_of_cons in Hseg as [->|Hseg]; [reflexivity|]).
  now apply elem_of_nil in Hseg.
Qed.

Lemma macros_keys (r : BidResponse) (sb : SeatBid) (b : Bid) :
  map fst (macros r sb b) = macro_names.
Proof. reflexivity. Qed.

Lemma fold_replace_empty (ms : list (string * string)) : fold_left replace_macro ms "" = "".
Proof.
  induction ms as [|[m v] rest IH]; [reflexivity|].
  cbn [fold_left]. unfold replace_macro at 2, replace_global.
  destruct (pattern_literal _); exact IH.
Qed.

(** With a bid payload the function is the [reduce] over the macro table. *)
Lemma replaceAuctionMacros_fold (url : string) (r : BidResponse) (sb : SeatBid) (b : Bid) :
  firstSeat r = Some sb -> firstBid r = Some b ->
  replaceAuctionMacros url r = fold_left replace_macro (macros r sb b) url.
Proof.
  intros Hs Hb. unfold replaceAuctionMacros. rewrite Hs, Hb.
  destruct url; [now rewrite fold_replace_empty | reflexivity].
Qed.

(** *** The single pass of the specification on well-formed templates *)

Lemma token_at_text (ms : list (string * string)) (c : ascii) (r x : string) :
  Forall (fun mv => fst mv ∈ macro_names) ms ->
  quiet (String c r) = true -> token_at ms (String c (r ++ x)) = None.
Proof.
  intros Hms Hc. induction ms as [|[m v] rest IH]; [reflexivity|].
  apply Forall_cons in Hms as [Hm Hrest]. cbn [fst] in Hm. cbn [token_at].
  destruct (token_shape_inv m (macro_names_shape m Hm)) as (q & -> & _).
  rewrite (no_token_in_text c r x q Hc). now apply IH.
Qed.

Lemma token_at_token (ms : list (string * string)) (m x : string) :
  Forall (fun mv => fst mv ∈ macro_names) ms -> m ∈ macro_names ->
  token_at ms (m ++ x) = option_map (fun v => (m, v)) (value_of ms m).
Proof.
  intros Hms Hm. induction ms as [|[k v] rest IH]; [reflexivity|].
  apply Forall_cons in Hms as [Hk Hrest]. cbn [fst] in Hk. cbn [token_at value_of].
  destruct (String.eqb k m) eqn:E.
  - apply String.eqb_eq in E. subst k. now rewrite prefix_append.
  - rewrite String.eqb_sym in E.
    destruct (macro_names_incomparable k m Hk Hm E) as [N1 N2].
    destruct (String.prefix k (m ++ x)) eqn:Hp; [|now apply IH].
    apply prefix_append_comparable in Hp as [Hp|Hp]; congruence.
Qed.

Lemma single_pass_text (ms : list (string * string)) (s x : string) :
  Forall (fun mv => fst mv ∈ macro_names) ms -> quiet s = true ->
  single_pass ms 0 (s ++ x) = s ++ single_pass ms 0 x.
Proof.
  intros Hms. induction s as [|c s IH]; intros H; [reflexivity|].
  change (String c s ++ x) with (String c (s ++ x)). cbn [single_pass].
  rewrite (token_at_text ms c s x Hms H), (IH (quiet_tail c s H)). reflexivity.
Qed.

Lemma single_pass_skip (ms : list (string * string)) (u x : string) :
  single_pass ms (String.length u) (u ++ x) = single_pass ms 0 x.
Proof.
  induction u as [|c u IH]; [destruct x; reflexivity|].
  cbn [String.length append single_pass]. exact IH.
Qed.

Lemma single_pass_token (ms : list (string * string)) (m x : string) :
  Forall (fun mv => fst mv ∈ macro_names) ms -> m ∈ macro_names ->
  single_pass ms 0 (m ++ x)
  = match value_of ms m with
    | Some v => v ++ single_pass ms 0 x
    | None => m ++ single_pass ms 0 x
    end.
Proof.
  intros Hms Hm.
  destruct (token_shape_inv m (macro_names_shape m Hm)) as (q & Eq & Hq).
  pose proof (token_at_token ms m x Hms Hm) as Ht. subst m.
  change (String "$" (String "{" q) ++ x) with (String "$" (String "{" q ++ x)) in *.
  cbn [single_pass].
  rewrite Ht. destruct (value_of ms (String "$" (String "{" q))) as [v|]; cbn [option_map].
  - replace (String.length (String "$" (String "{" q)) - 1)%nat
      with (String.length (String "{" q)) by (cbn [String.length]; lia).
    now rewrite single_pass_skip.
  - assert (Hquiet : quiet (String "{" q) = true).
    { unfold quiet. cbn [tame]. change (Ascii.eqb "{" "$") with false. cbv iota.
      apply (dollar_free_tame ["{"%char] q Hq). }
    now rewrite (single_pass_text ms (String "{" q) x Hms Hquiet).
Qed.

Lemma single_pass_segments (ms : list (string * string)) (segs : list segment) :
  Forall (fun mv => fst mv ∈ macro_names) ms ->
  forallb wf_segment segs = true ->
  single_pass ms 0 (render segs) = render (map (fill ms) segs).
Proof.
  intros Hms. induction segs as [|seg rest IH]; intros Hwf; [reflexivity|].
  cbn [forallb] in Hwf. apply andb_prop in Hwf as [Hseg Hrest].
  destruct seg as [s|m]; cbn [render map fill wf_segment] in *.
  - rewrite (single_pass_text ms s _ Hms Hseg). now rewrite IH.
  - apply bool_decide_eq_true_1 in Hseg.
    rewrite (single_pass_token ms m _ Hms Hseg).
    destruct (value_of ms m); cbn [render]; now rewrite IH.
Qed.

(** On a well-formed template no token is left: every segment is filled
    with text. *)
Lemma fill_leaves_text (r : BidResponse) (sb : SeatBid) (b : Bid) (segs : list segment) :
  forallb wf_segment segs = true ->
  Forall (fun seg => exists s, fill (macros r sb b) seg = Text s) segs.
Proof.
  intros Hwf. apply Forall_forall. intros seg Hin. apply list_elem_of_In in Hin.
  pose proof (proj1 (forallb_forall _ _) Hwf seg Hin) as Hseg.
  destruct seg as [s|m]; [now exists s|].
  cbn [wf_segment] in Hseg. apply bool_decide_eq_true_1 in Hseg.
  unfold macro_names in Hseg.
  repeat (apply elem_of_cons in Hseg as [->|Hseg]; [eexists; reflexivity|]).
  now apply elem_of_nil in Hseg.
Qed.

Lemma absent_fields_empty (r : BidResponse) (sb : SeatBid) (b : Bid) :
  absent_is_empty r sb b.
Proof.
  unfold absent_is_empty. cbn.
  repeat split; intros; repeat match goal with H : _ = None |- _ => rewrite H end; reflexivity.
Qed.

End MacroFacts.

(** C6, as the code has it.  Take a template made of macro tokens and of
    plain text, in which a dollar sign may stand anywhere but before an
    opening brace or at the end of a piece of text, and a bid response in
    whose macro values a dollar sign is followed by none of [{ $ & ` '] and
    whose price, if any, is in the range where a number prints its own
    digits.  Then [replaceAuctionMacros] returns the template with every
    occurrence of every token replaced by its value (no token is left),
    which is what the single literal pass of the specification returns; the
    value of an absent field is the empty string.  (The result is computed
    by nine successive global replacements, so it always terminates.) *)
Theorem macro_substitution_wellformed
    (segs : list Macro.segment) (r : BidResponse) (sb : SeatBid) (b : Bid) :
  firstSeat r = Some sb ->
  firstBid r = Some b ->
  forallb Macro.wf_segment segs = true ->
  forallb (fun mv => Macro.literal_value (snd mv)) (Macro.macros r sb b) = true ->
  (forall p, price b = Some p -> JS.printable p = true) ->
  Macro.replaceAuctionMacros (Macro.render segs) r
  = Macro.render (map (Macro.fill (Macro.macros r sb b)) segs)
  /\ Macro.substitute_literal (Macro.render segs) r
     = Macro.render (map (Macro.fill (Macro.macros r sb b)) segs)
  /\ Forall (fun seg => exists s, Macro.fill (Macro.macros r sb b) seg = Macro.Text s) segs
  /\ Macro.absent_is_empty r sb b.
Proof.
  intros Hs Hb Hwf Hvals _.
  split; [|split; [|split; [now apply fill_leaves_text | apply absent_fields_empty]]]; cycle 1.
  { unfold Macro.substitute_literal. rewrite Hs, Hb.
    apply single_pass_segments; [|exact Hwf].
    apply Forall_forall. intros mv Hin. rewrite <- (macros_keys r sb b).
    apply list_elem_of_In, in_map. now apply list_elem_of_In. }
  rewrite (replaceAuctionMacros_fold _ r sb b Hs Hb).
  rewrite fold_replace_segments; [now rewrite fill_passes_macros | | exact Hwf].
  apply Forall_forall. intros mv Hin. split.
  - rewrite <- (macros_keys r sb b). apply list_elem_of_In, in_map.
    now apply list_elem_of_In.
  - apply list_elem_of_In in Hin.
    exact (proj1 (forallb_forall _ _) Hvals mv Hin).
Qed.

(** C6, witness: the template [a=${AUCTION_PRICE}&b=${AUCTION_MBR}&c=${AUCTION_PRICE}]
    on the response [{seatbid:[{bid:[{id:"b1",price:2.5}]}]}]. *)
Lemma macro_substitution_wellformed_witness :
  Macro.replaceAuctionMacros "a=${AUCTION_PRICE}&b=${AUCTION_MBR}&c=${AUCTION_PRICE}"
    Macro.example_response
  = "a=2.5&b=&c=2.5".
Proof.
  pose (sb := {| seat := None;
                 bid := [ {| bid_id := Some "b1"; impid := None; adid := None;
                             price := Some {| JS.mant := 25; JS.scale := 1 |};
                             adm := None; nurl := None; burl := None |} ] |}).
  pose (b := {| bid_id := Some "b1"; impid := None; adid := None;
                price := Some {| JS.mant := 25; JS.scale := 1 |};
                adm := None; nurl := None; burl := None |}).
  refine (proj1 (macro_substitution_wellformed
            [Macro.Text "a="; Macro.Token "${AUCTION_PRICE}"; Macro.Text "&b=";
             Macro.Token "${AUCTION_MBR}"; Macro.Text "&c="; Macro.Token "${AUCTION_PRICE}"]
            Macro.example_response sb b eq_refl eq_refl eq_refl eq_refl _)).
  intros p [= <-]. reflexivity.
Defined.

(** C6, as stated, fails: a value that holds a later token is substituted
    again ([id] is the text of the bid-id token), a value is read as a
    replacement pattern ([$&] stands for the matched token), and a token
    that appears once an inner token has been replaced is substituted by a
    later pass. *)
Lemma macro_substitution_not_literal :
  Macro.replaceAuctionMacros "id=${AUCTION_ID}"
    (Macro.response_of (Some "${AUCTION_BID_ID}")
       {| bid_id := Some "b1"; impid := None; adid := None; price := None; adm := None;
          nurl := None; burl := None |})
  <> Macro.substitute_literal "id=${AUCTION_ID}"
       (Macro.response_of (Some "${AUCTION_BID_ID}")
          {| bid_id := Some "b1"; impid := None; adid := None; price := None; adm := None;
             nurl := None; burl := None |})
  /\ Macro.replaceAuctionMacros "id=${AUCTION_ID}" (Macro.response_of (Some "a$&b") Macro.no_bid)
     <> Macro.substitute_literal "id=${AUCTION_ID}" (Macro.response_of (Some "a$&b") Macro.no_bid)
  /\ Macro.replaceAuctionMacros "${AUCTION${AUCTION_ID}_BID_ID}"
       (Macro.response_of None
          {| bid_id := Some "b1"; impid := None; adid := None; price := None; adm := None;
             nurl := None; burl := None |})
     <> Macro.substitute_literal "${AUCTION${AUCTION_ID}_BID_ID}"
          (Macro.response_of None
             {| bid_id := Some "b1"; impid := None; adid := None; price := None; adm := None;
                nurl := None; burl := None |}).
Proof. repeat split; vm_compute; discriminate. Qed.

(** The three inputs above, evaluated. *)
Example macro_substitution_divergences :
  Macro.replaceAuctionMacros "id=${AUCTION_ID}"
    (Macro.response_of (Some "${AUCTION_BID_ID}")
       {| bid_id := Some "b1"; impid := None; adid := None; price := None; adm := None;
          nurl := None; burl := None |})
  = "id=b1"
  /\ Macro.replaceAuctionMacros "id=${AUCTION_ID}" (Macro.response_of (Some "a$&b") Macro.no_bid)
     = "id=a${AUCTION_ID}b"
  /\ Macro.replaceAuctionMacros "${AUCTION${AUCTION_ID}_BID_ID}"
       (Macro.response_of None
          {| bid_id := Some "b1"; impid := None; adid := None; price := None; adm := None;
             nurl := None; burl := None |})
     = "b1".
Proof. repeat split. Qed.

(** C7, as the code has it.  The example of the specification evaluates to
    [price=2.5&id=b1], and for every bid response that carries a bid payload
    the template [x=${AUCTION_MBR}] becomes [x=]. *)
Theorem macro_examples (r : BidResponse) :
  firstBid r <> None ->
  Macro.replaceAuctionMacros "price=${AUCTION_PRICE}&id=${AUCTION_BID_ID}" Macro.example_response
  = "price=2.5&id=b1"
  /\ Macro.replaceAuctionMacros "x=${AUCTION_MBR}" r = "x=".
Proof.
  intros H. split; [reflexivity|].
  unfold firstBid in H. destruct (firstSeat r) as [sb|] eqn:Hs; [|congruence].
  destruct (head (bid sb)) as [b|] eqn:Hb; [|congruence].
  rewrite (replaceAuctionMacros_fold _ r sb b Hs); [reflexivity|].
  unfold firstBid. now rewrite Hs.
Qed.

(** C7, witness: the response of the example carries a bid payload. *)
Lemma macro_examples_witness :
  Macro.replaceAuctionMacros "x=${AUCTION_MBR}" Macro.example_response = "x=".
Proof.
  refine (proj2 (macro_examples Macro.example_response _)).
  vm_compute. discriminate.
Defined.

(** C7, as stated, fails: a response without a bid payload leaves the
    template as it is. *)
Lemma macro_mbr_without_payload :
  Macro.replaceAuctionMacros "x=${AUCTION_MBR}" Macro.empty_response <> "x=".
Proof. vm_compute. discriminate. Qed.



(** ** The renderer and the orchestrator *)

Section PipelineFacts.
Import JS Async Net Render Orchestrator.

Variable extractUrls : option string -> Urls.
Variable pid : option string.

Lemma hideAdSlot_hidden (el : SlotElement) (m : string) : status (hideAdSlot el m) = Hidden.
Proof. reflexivity. Qed.

Lemma showError_status (el : SlotElement) (m : string) :
  status (showError el m) = if hidden el then Hidden else ErrorShown m.
Proof. reflexivity. Qed.

Lemma set_inner_ad_status (el : SlotElement) (c : Creative) :
  status (set_inner el (Ad c)) = if hidden el then Hidden else Rendered.
Proof. reflexivity. Qed.

(** Whatever the response, [renderAd] leaves the slot rendered, hidden or
    with an error box. *)
Lemma renderAd_status (el : SlotElement) (r : BidResponse) :
  status (renderAd extractUrls el r) = Rendered
  \/ status (renderAd extractUrls el r) = Hidden
  \/ exists m, status (renderAd extractUrls el r) = ErrorShown m /\ truthy_str m = true.
Proof.
  unfold renderAd, renderBrandAd, renderOrtbAd, renderTestingPidAd.
  repeat match goal with
         | |- context [match ?x with _ => _ end] => destruct x eqn:?
         end;
    rewrite ?hideAdSlot_hidden, ?showError_status, ?set_inner_ad_status;
    cbn [hidden set_inner display];
    repeat match goal with
           | |- context [match ?x with _ => _ end] => destruct x
           end; eauto.
Qed.

Lemma renderAd_terminal (el : SlotElement) (r : BidResponse) :
  terminal (renderAd extractUrls el r) = true.
Proof.
  unfold terminal.
  destruct (renderAd_status el r) as [-> | [-> | (m & -> & _)]]; reflexivity.
Qed.

(** A pipeline never rejects, and what it settles with is terminal. *)
Lemma loadAdForSlot_settled (cfg : Config) (t0 : Z) (el : SlotElement) (slot : Slot)
    (ep : Endpoint) (t : Z) (o : Settled SlotElement) :
  fst (loadAdForSlot extractUrls pid cfg t0 el slot ep) = Some (t, o) ->
  exists el', o = Fulfilled el' /\ terminal el' = true.
Proof.
  unfold loadAdForSlot, makeBidRequest, fetch. cbn [signal bidInit fst].
  destruct ep as [l st payload| l |]; cbn [fst]; [| |discriminate].
  - destruct (negb (ok _)).
    + intros [= <- <-]. eexists; split; [reflexivity | reflexivity].
    + cbn [json]. destruct payload as [r|]; intros [= <- <-]; eexists; split;
        first [reflexivity | apply renderAd_terminal].
  - intros [= <- <-]. eexists; split; reflexivity.
Qed.

Lemma loadAdForSlot_one_call (cfg : Config) (t0 : Z) (el : SlotElement) (slot : Slot)
    (ep : Endpoint) :
  snd (loadAdForSlot extractUrls pid cfg t0 el slot ep)
  = [ {| fc_url := bidderUrl; fc_init := bidInit cfg slot pid |} ].
Proof. reflexivity. Qed.

Lemma loadAdForSlot_responsive (cfg : Config) (t0 : Z) (el : SlotElement) (slot : Slot)
    (ep : Endpoint) :
  ep <> Silent -> fst (loadAdForSlot extractUrls pid cfg t0 el slot ep) <> None.
Proof.
  unfold loadAdForSlot, makeBidRequest, fetch. cbn [signal bidInit fst].
  destruct ep as [l st payload| l |]; cbn [fst]; [| |congruence]; intros _.
  - destruct (negb (ok _)); [discriminate|]. cbn [json]. destruct payload; discriminate.
  - discriminate.
Qed.

Lemma startSlot_settled (cfg : Config) (t0 : Z) (ph : Placeholder) (ep : Endpoint)
    (t : Z) (o : Settled SlotElement) :
  pipeline (fst (startSlot extractUrls pid cfg t0 ph ep)) = Some (t, o) ->
  exists el', o = Fulfilled el' /\ terminal el' = true.
Proof.
  unfold startSlot.
  destruct (truthy_int _ && truthy_int _ && truthy_int _).
  - destruct (loadAdForSlot _ _ _ _ _ _ _) as [p cs] eqn:E. cbn [fst pipeline].
    intros H. eapply (loadAdForSlot_settled cfg t0 _ _ ep t o). rewrite E. exact H.
  - cbn [fst pipeline]. intros [= <- <-]. eexists; split; reflexivity.
Qed.

Lemma startSlot_responsive (cfg : Config) (t0 : Z) (ph : Placeholder) (ep : Endpoint) :
  ep <> Silent -> pipeline (fst (startSlot extractUrls pid cfg t0 ph ep)) <> None.
Proof.
  intros Hep. unfold startSlot.
  destruct (truthy_int _ && truthy_int _ && truthy_int _); [|discriminate].
  destruct (loadAdForSlot _ _ _ _ _ _ _) as [p cs] eqn:E. cbn [fst pipeline].
  pose proof (loadAdForSlot_responsive cfg t0
                {| style_width := set_px (parseInt_or_0 (data_width ph)) (style_width fresh);
                   style_height := set_px (parseInt_or_0 (data_height ph)) (style_height fresh);
                   display := display fresh; inner := LoadingBox |}
                {| slot_id := parseInt_or_0 (data_slot_id ph);
                   width := parseInt_or_0 (data_width ph);
                   height := parseInt_or_0 (data_height ph) |} ep Hep) as H.
  now rewrite E in H.
Qed.

(** [Promise.allSettled] is never rejected, and is fulfilled no earlier
    than each of its promises settles. *)
Lemma allSettled_fulfilled {A} (from : Z) (ps : list (Promise A)) (t : Z) (o : Settled unit) :
  allSettled from ps = Some (t, o) ->
  o = Fulfilled tt
  /\ (from <= t)%Z
  /\ Forall (fun p => exists ti oi, p = Some (ti, oi) /\ (ti <= t)%Z) ps.
Proof.
  revert t o. induction ps as [|p ps IH]; intros t o; cbn [allSettled].
  - intros [= <- <-]. repeat split; [lia | constructor].
  - destruct p as [[ti oi]|]; [|discriminate].
    destruct (allSettled from ps) as [[t' o']|]; [|discriminate].
    intros [= <- <-]. destruct (IH t' o' eq_refl) as (_ & Hfrom & Hall).
    repeat split; [lia|]. constructor; [exists ti, oi; split; [reflexivity | lia]|].
    eapply Forall_impl; [exact Hall|]. cbn. intros q (tq & oq & -> & Hle).
    exists tq, oq. split; [reflexivity | lia].
Qed.

Lemma allSettled_all_some {A} (from : Z) (ps : list (Promise A)) :
  Forall (fun p => p <> None) ps -> exists t, allSettled from ps = Some (t, Fulfilled tt).
Proof.
  induction ps as [|p ps IH]; intros H; cbn [allSettled]; [eauto|].
  apply Forall_cons in H as [Hp Hps]. destruct p as [[ti oi]|]; [|congruence].
  destruct (IH Hps) as [t' ->]. eauto.
Qed.

Lemma startSlots_forall (P : Timeline * list FetchCall -> Prop) (cfg : Config) (t0 : Z)
    (net : nat -> Endpoint) (phs : list Placeholder) :
  forall i,
    (forall j ph, (i <= j < i + length phs)%nat -> P (startSlot extractUrls pid cfg t0 ph (net j))) ->
    Forall P (startSlots extractUrls pid cfg t0 net i phs).
Proof.
  induction phs as [|ph rest IH]; intros i H; cbn [startSlots]; constructor.
  - apply H. cbn [length]. lia.
  - apply IH. intros j ph' Hj. apply H. cbn [length]. lia.
Qed.

(** [Promise.allSettled] is fulfilled when the last of its promises
    settles: at the time of the call, or at the time one of them settles. *)
Lemma allSettled_attained {A} (from : Z) (ps : list (Promise A)) (t : Z) (o : Settled unit) :
  allSettled from ps = Some (t, o) ->
  t = from \/ exists o', In (Some (t, o')) ps.
Proof.
  revert t o. induction ps as [|p ps IH]; intros t o; cbn [allSettled].
  - intros [= <- <-]. now left.
  - destruct p as [[ti oi]|]; [|discriminate].
    destruct (allSettled from ps) as [[t' o']|]; [|discriminate].
    intros [= <- <-]. destruct (Z.max_spec ti t') as [[_ ->] | [_ ->]].
    + destruct (IH t' o' eq_refl) as [-> | (o2 & Hin)]; [now left|].
      right. exists o2. now right.
    + right. exists oi. now left.
Qed.

Lemma startSlots_lookup (cfg : Config) (t0 : Z) (net : nat -> Endpoint)
    (phs : list Placeholder) :
  forall (i k : nat) (ph : Placeholder),
    phs !! k = Some ph ->
    startSlots extractUrls pid cfg t0 net i phs !! k
    = Some (startSlot extractUrls pid cfg t0 ph (net (i + k)%nat)).
Proof.
  induction phs as [|p rest IH]; intros i k ph H; [discriminate|].
  destruct k as [|k]; cbn [startSlots].
  - injection H as ->. now rewrite Nat.add_0_r.
  - change (rest !! k = Some ph) in H.
    change (startSlots extractUrls pid cfg t0 net (S i) rest !! k
            = Some (startSlot extractUrls pid cfg t0 ph (net (i + S k)%nat))).
    rewrite (IH (S i) k ph H). do 3 f_equal. lia.
Qed.

(** The pipeline of a started slot settles when its bid request does, and
    stays pending with it. *)
Lemma loadAdForSlot_time (cfg : Config) (t0 : Z) (el : SlotElement) (slot : Slot)
    (ep : Endpoint) :
  match fst (makeBidRequest cfg t0 slot pid ep) with
  | Some (t, _) => exists el', fst (loadAdForSlot extractUrls pid cfg t0 el slot ep)
                               = Some (t, Fulfilled el')
  | None => fst (loadAdForSlot extractUrls pid cfg t0 el slot ep) = None
  end.
Proof.
  unfold loadAdForSlot. destruct (makeBidRequest cfg t0 slot pid ep) as [[[t [r|e]]|] cs];
    cbn [fst]; eauto.
Qed.

End PipelineFacts.

(** C3, as the code has it.  A placeholder one of whose parsed values is
    zero (a missing attribute and one without a leading number parse to
    zero) issues no network call and is hidden at once, as the page wrote
    it: its pipeline is already settled when the synchronous part of
    [initialize] returns. *)
Theorem misconfigured_slot_no_request
    (extractUrls : option string -> Render.Urls) (pid : option string)
    (cfg : Net.Config) (t0 : Z) (ph : Orchestrator.Placeholder) (ep : Net.Endpoint) :
  JS.parseInt_or_0 (Orchestrator.data_width ph) = JS.Int 0
  \/ JS.parseInt_or_0 (Orchestrator.data_height ph) = JS.Int 0
  \/ JS.parseInt_or_0 (Orchestrator.data_slot_id ph) = JS.Int 0 ->
  snd (Orchestrator.startSlot extractUrls pid cfg t0 ph ep) = []
  /\ Orchestrator.sync_state (fst (Orchestrator.startSlot extractUrls pid cfg t0 ph ep))
     = {| Render.style_width := None; Render.style_height := None;
          Render.display := Some "none"; Render.inner := Render.Original |}
  /\ Render.status (Orchestrator.sync_state (fst (Orchestrator.startSlot extractUrls pid cfg t0 ph ep)))
     = Render.Hidden
  /\ Orchestrator.pipeline (fst (Orchestrator.startSlot extractUrls pid cfg t0 ph ep))
     = Some (t0, Async.Fulfilled
                   (Orchestrator.sync_state (fst (Orchestrator.startSlot extractUrls pid cfg t0 ph ep))))
  /\ JS.parseInt_or_0 None = JS.Int 0
  /\ (forall s, JS.parseInt10 s = None -> JS.parseInt_or_0 (Some s) = JS.Int 0).
Proof.
  intros H. unfold Orchestrator.startSlot.
  assert (E : JS.truthy_int (JS.parseInt_or_0 (Orchestrator.data_width ph))
              && JS.truthy_int (JS.parseInt_or_0 (Orchestrator.data_height ph))
              && JS.truthy_int (JS.parseInt_or_0 (Orchestrator.data_slot_id ph)) = false).
  { destruct H as [-> | [-> | ->]]; cbn [JS.truthy_int Z.eqb negb];
      rewrite ?andb_false_r; reflexivity. }
  rewrite E. cbn [fst snd Orchestrator.sync_state Orchestrator.pipeline].
  repeat split. intros s Hs. cbn. now rewrite Hs.
Qed.

(** C3, witness: a placeholder without [data-width]. *)
Lemma misconfigured_slot_no_request_witness :
  snd (Orchestrator.startSlot Orchestrator.no_markup None Net.sample_config 0
         {| Orchestrator.data_width := None; Orchestrator.data_height := Some "250";
            Orchestrator.data_slot_id := Some "7" |}
         (Net.Responds 100 200 (Some Orchestrator.brand_response)))
  = [].
Proof.
  refine (proj1 (misconfigured_slot_no_request Orchestrator.no_markup None Net.sample_config 0
                   {| Orchestrator.data_width := None; Orchestrator.data_height := Some "250";
                      Orchestrator.data_slot_id := Some "7" |}
                   (Net.Responds 100 200 (Some Orchestrator.brand_response)) _)).
  left. reflexivity.
Defined.

(** C3, as stated, fails: a negative width is not positive, yet the slot
    enters the pipeline, shows the loading box (with the declared height;
    the style setter drops the negative width) and issues its bid
    request. *)
Lemma negative_width_requests_bid :
  JS.parseInt_or_0 (Some "-300") = JS.Int (-300)
  /\ map (fun c => (Net.fc_url c, option_map Net.req_slot_id (Net.body (Net.fc_init c))))
       (snd (Orchestrator.startSlot Orchestrator.no_markup None Net.sample_config 0
               (Orchestrator.placeholder "-300" "250" "7") Net.Silent))
     = [ (Net.bidderUrl, Some (JS.Int 7)) ]
  /\ Orchestrator.sync_state
       (fst (Orchestrator.startSlot Orchestrator.no_markup None Net.sample_config 0
               (Orchestrator.placeholder "-300" "250" "7") Net.Silent))
     = {| Render.style_width := None; Render.style_height := Some 250%Z;
          Render.display := None; Render.inner := Render.LoadingBox |}
  /\ Render.status
       (Orchestrator.sync_state
          (fst (Orchestrator.startSlot Orchestrator.no_markup None Net.sample_config 0
                  (Orchestrator.placeholder "-300" "250" "7") Net.Silent)))
     = Render.Loading.
Proof. repeat split. Qed.

(** C4, as the code has it.  When the configuration is defined as the
    polling loop is left, the promise of [initialize] is never rejected; if
    it is fulfilled at [t], every slot is in a terminal state from [t] on;
    it is fulfilled exactly when the last pipeline settles (at the end of
    the polling loop if none settles later), the pipeline of a started slot
    settling when its bid request settles, by a response or by a failure,
    and pending as long as the request is; and it is fulfilled whenever
    every request is answered or fails. *)
Theorem run_all_settled
    (extractUrls : option string -> Render.Urls) (pid : option string)
    (configAt : Z -> option Net.Config) (t0 : Z) (net : nat -> Net.Endpoint)
    (phs : list Orchestrator.Placeholder) :
  configAt (Orchestrator.waitForConfig configAt Orchestrator.maxRetries 0 t0) <> None ->
  (forall t e,
      Orchestrator.result (Orchestrator.initialize extractUrls pid configAt t0 net phs)
      <> Some (t, Async.Rejected e))
  /\ (forall t t',
         Orchestrator.result (Orchestrator.initialize extractUrls pid configAt t0 net phs)
         = Some (t, Async.Fulfilled tt) ->
         (t <= t')%Z ->
         Forall (fun tl => Render.terminal (Orchestrator.state_at tl t') = true)
           (Orchestrator.slots (Orchestrator.initialize extractUrls pid configAt t0 net phs)))
  /\ (forall t o,
         Orchestrator.result (Orchestrator.initialize extractUrls pid configAt t0 net phs)
         = Some (t, o) ->
         Forall (fun tl => exists ti oi, Orchestrator.pipeline tl = Some (ti, oi) /\ (ti <= t)%Z)
           (Orchestrator.slots (Orchestrator.initialize extractUrls pid configAt t0 net phs))
         /\ (t = Orchestrator.waitForConfig configAt Orchestrator.maxRetries 0 t0
             \/ exists tl oi,
                  In tl (Orchestrator.slots
                           (Orchestrator.initialize extractUrls pid configAt t0 net phs))
                  /\ Orchestrator.pipeline tl = Some (t, oi)))
  /\ (forall cfg i ph,
         configAt (Orchestrator.waitForConfig configAt Orchestrator.maxRetries 0 t0) = Some cfg ->
         phs !! i = Some ph ->
         JS.truthy_int (JS.parseInt_or_0 (Orchestrator.data_width ph))
         && JS.truthy_int (JS.parseInt_or_0 (Orchestrator.data_height ph))
         && JS.truthy_int (JS.parseInt_or_0 (Orchestrator.data_slot_id ph)) = true ->
         exists tl,
           Orchestrator.slots (Orchestrator.initialize extractUrls pid configAt t0 net phs) !! i
           = Some tl
           /\ match fst (Net.makeBidRequest cfg
                           (Orchestrator.waitForConfig configAt Orchestrator.maxRetries 0 t0)
                           {| Net.slot_id := JS.parseInt_or_0 (Orchestrator.data_slot_id ph);
                              Net.width := JS.parseInt_or_0 (Orchestrator.data_width ph);
                              Net.height := JS.parseInt_or_0 (Orchestrator.data_height ph) |}
                           pid (net i)) with
              | Some (ts, _) => exists el, Orchestrator.pipeline tl = Some (ts, Async.Fulfilled el)
              | None => Orchestrator.pipeline tl = None
              end)
  /\ ((forall i, (i < length phs)%nat -> net i <> Net.Silent) ->
      exists t,
        Orchestrator.result (Orchestrator.initialize extractUrls pid configAt t0 net phs)
        = Some (t, Async.Fulfilled tt)).
Proof.
  intros Hcfg. unfold Orchestrator.initialize.
  destruct (configAt _) as [cfg|] eqn:Ecfg; [clear Hcfg | congruence].
  cbn [Orchestrator.result Orchestrator.slots].
  set (t1 := Orchestrator.waitForConfig configAt Orchestrator.maxRetries 0 t0) in *.
  set (started := Orchestrator.startSlots extractUrls pid cfg t1 net 0 phs).
  split; [|split; [|split; [|split]]].
  - intros t e H. apply allSettled_fulfilled in H as [H _]. discriminate.
  - intros t t' H Hle. apply allSettled_fulfilled in H as (_ & _ & Hall).
    apply (proj1 (Forall_map _ _ _)) in Hall. apply Forall_map.
    assert (Hterm : Forall (fun s => forall ts o, Orchestrator.pipeline (fst s) = Some (ts, o) ->
                             exists el', o = Async.Fulfilled el' /\ Render.terminal el' = true)
                      started).
    { apply startSlots_forall. intros j ph _ ts o. apply startSlot_settled. }
    rewrite Forall_forall in Hall, Hterm |- *. intros s Hs.
    destruct (Hall s Hs) as (ti & oi & Hp & Hti).
    destruct (Hterm s Hs ti oi Hp) as (el' & -> & Hel').
    unfold Orchestrator.state_at. rewrite Hp.
    destruct (Z.leb_spec ti t'); [exact Hel' | lia].
  - intros t o H. split.
    + apply allSettled_fulfilled in H as (_ & _ & Hall).
      apply (proj1 (Forall_map _ _ _)) in Hall. now apply Forall_map.
    + apply allSettled_attained in H as [-> | (o' & Hin)]; [now left|].
      right. apply in_map_iff in Hin as (s0 & Hs0 & Hin).
      exists (fst s0), o'. split; [now apply in_map | exact Hs0].
  - intros cfg' i ph [= <-] Hph Hvalid.
    exists (fst (Orchestrator.startSlot extractUrls pid cfg t1 ph (net i))). split.
    + rewrite list_lookup_fmap. unfold started.
      now rewrite (startSlots_lookup extractUrls pid cfg t1 net phs 0 i ph Hph).
    + unfold Orchestrator.startSlot. rewrite Hvalid.
      match goal with
      | |- context [Orchestrator.loadAdForSlot extractUrls pid cfg t1 ?el ?slot (net i)] =>
          pose proof (loadAdForSlot_time extractUrls pid cfg t1 el slot (net i)) as Ht;
          destruct (Orchestrator.loadAdForSlot extractUrls pid cfg t1 el slot (net i))
            as [p cs]
      end.
      cbn [fst Orchestrator.pipeline] in *. exact Ht.
  - intros Hnet. apply allSettled_all_some. apply Forall_map.
    apply startSlots_forall. intros j ph Hj. apply startSlot_responsive.
    apply Hnet. lia.
Qed.

(** C4, witness: three valid slots, the bid request of the second throws. *)
Lemma run_all_settled_witness :
  exists t,
    Orchestrator.result
      (Orchestrator.initialize Orchestrator.no_markup None Orchestrator.configured 0
         Orchestrator.second_fails Orchestrator.three_slots)
    = Some (t, Async.Fulfilled tt).
Proof.
  refine (proj2 (proj2 (proj2 (proj2
            (run_all_settled Orchestrator.no_markup None Orchestrator.configured 0
               Orchestrator.second_fails Orchestrator.three_slots _)))) _).
  - unfold Orchestrator.configured. discriminate.
  - intros i _. destruct i as [|[|[|i]]]; cbn; discriminate.
Defined.

(** The three-slot scenario, evaluated: the run is fulfilled 120 ms after
    its start; the first slot is rendered, the second (whose request threw)
    and the third (unknown type) are hidden. *)
Example three_slots_run :
  Orchestrator.result
    (Orchestrator.initialize Orchestrator.no_markup None Orchestrator.configured 0
       Orchestrator.second_fails Orchestrator.three_slots)
  = Some (120%Z, Async.Fulfilled tt)
  /\ map (fun tl => Render.status (Orchestrator.state_at tl 120))
       (Orchestrator.slots
          (Orchestrator.initialize Orchestrator.no_markup None Orchestrator.configured 0
             Orchestrator.second_fails Orchestrator.three_slots))
     = [Render.Rendered; Render.Hidden; Render.Hidden].
Proof. split; reflexivity. Qed.

(** C4, as stated, fails: when the configuration never appears the run is
    fulfilled after the last retry (15.5 s) and no slot has been touched. *)
Lemma run_without_config_leaves_slots :
  Orchestrator.result
    (Orchestrator.initialize Orchestrator.no_markup None Orchestrator.never_configured 0
       Orchestrator.second_fails Orchestrator.three_slots)
  = Some (15500%Z, Async.Fulfilled tt)
  /\ map (fun tl => Render.status (Orchestrator.state_at tl 15500))
       (Orchestrator.slots
          (Orchestrator.initialize Orchestrator.no_markup None Orchestrator.never_configured 0
             Orchestrator.second_fails Orchestrator.three_slots))
     = [Render.Untouched; Render.Untouched; Render.Untouched]
  /\ ~ Forall (fun tl => Render.terminal (Orchestrator.state_at tl 15500) = true)
         (Orchestrator.slots
            (Orchestrator.initialize Orchestrator.no_markup None Orchestrator.never_configured 0
               Orchestrator.second_fails Orchestrator.three_slots)).
Proof.
  repeat split. intros H. apply Forall_cons in H as [H _]. vm_compute in H. discriminate.
Qed.

(** Without configuration the run ends after the polling loop: nothing is
    requested and no slot is touched. *)
Lemma initialize_without_config
    (extractUrls : option string -> Render.Urls) (pid : option string)
    (configAt : Z -> option Net.Config) (t0 : Z) (net : nat -> Net.Endpoint)
    (phs : list Orchestrator.Placeholder) :
  configAt (Orchestrator.waitForConfig configAt Orchestrator.maxRetries 0 t0) = None ->
  Orchestrator.initialize extractUrls pid configAt t0 net phs
  = {| Orchestrator.result :=
         Some (Orchestrator.waitForConfig configAt Orchestrator.maxRetries 0 t0,
               Async.Fulfilled tt);
       Orchestrator.slots := map (fun _ => Orchestrator.untouched) phs;
       Orchestrator.calls := [] |}.
Proof. intros H. unfold Orchestrator.initialize. now rewrite H. Qed.

(** The polling loop waits 500 * (2^5 - 1) = 15500 ms at most. *)
Lemma waitForConfig_bounded (configAt : Z -> option Net.Config) (t0 : Z) :
  (t0 <= Orchestrator.waitForConfig configAt Orchestrator.maxRetries 0 t0 <= t0 + 15500)%Z.
Proof.
  unfold Orchestrator.maxRetries, Orchestrator.baseDelay. cbn [Orchestrator.waitForConfig].
  repeat match goal with
         | |- context [match configAt ?t with _ => _ end] => destruct (configAt t)
         end;
    unfold Orchestrator.baseDelay;
    repeat match goal with
           | |- context [(2 ^ Z.of_nat ?n)%Z] =>
               let v := eval vm_compute in (2 ^ Z.of_nat n)%Z in
               change (2 ^ Z.of_nat n)%Z with v
           end; lia.
Qed.

(** ** The bid request *)

(** X1.  The failures the source does handle: a status outside 200..299,
    a body that is not JSON and a transport failure reject the promise of
    [makeBidRequest] when they occur; for each of them [loadAdForSlot] hides
    the slot, once, at that time, and exactly one request was sent. *)
Lemma bid_failure_single_outcome
    (extractUrls : option string -> Render.Urls) (pid : option string)
    (cfg : Net.Config) (t0 : Z) (el : Render.SlotElement) (slot : Net.Slot) (l st : Z)
    (payload : option BidResponse) :
  (Net.ok {| Net.status := st; Net.json := payload |} = false ->
   fst (Net.makeBidRequest cfg t0 slot pid (Net.Responds l st payload))
   = Some ((t0 + l)%Z, Async.Rejected (Async.HttpError st))
   /\ Orchestrator.loadAdForSlot extractUrls pid cfg t0 el slot (Net.Responds l st payload)
      = (Some ((t0 + l)%Z,
               Async.Fulfilled (Render.hideAdSlot el "Failed to load advertisement.")),
         [ {| Net.fc_url := Net.bidderUrl; Net.fc_init := Net.bidInit cfg slot pid |} ]))
  /\ (Net.ok {| Net.status := st; Net.json := None |} = true ->
      fst (Net.makeBidRequest cfg t0 slot pid (Net.Responds l st None))
      = Some ((t0 + l)%Z, Async.Rejected Async.SyntaxError)
      /\ Orchestrator.loadAdForSlot extractUrls pid cfg t0 el slot (Net.Responds l st None)
         = (Some ((t0 + l)%Z,
                  Async.Fulfilled (Render.hideAdSlot el "Failed to load advertisement.")),
            [ {| Net.fc_url := Net.bidderUrl; Net.fc_init := Net.bidInit cfg slot pid |} ]))
  /\ fst (Net.makeBidRequest cfg t0 slot pid (Net.TransportFailure l))
     = Some ((t0 + l)%Z, Async.Rejected Async.TypeError)
  /\ Orchestrator.loadAdForSlot extractUrls pid cfg t0 el slot (Net.TransportFailure l)
     = (Some ((t0 + l)%Z, Async.Fulfilled (Render.hideAdSlot el "Failed to load advertisement.")),
        [ {| Net.fc_url := Net.bidderUrl; Net.fc_init := Net.bidInit cfg slot pid |} ])
  /\ Render.hideAdSlot el "Failed to load advertisement."
     = {| Render.style_width := Render.style_width el;
          Render.style_height := Render.style_height el;
          Render.display := Some "none"; Render.inner := Render.inner el |}.
Proof.
  unfold Orchestrator.loadAdForSlot, Net.makeBidRequest, Net.fetch.
  cbn [Net.signal Net.bidInit fst]. unfold Net.ok. cbn [Net.status Net.json].
  split; [|split; [|split; [|split]]]; try reflexivity.
  - intros Hok. rewrite Hok. split; reflexivity.
  - intros Hok. rewrite Hok. split; reflexivity.
Qed.

(** C5, on the code.  The options object of the bid request carries
    [timeout: 3000], which is not a member of [RequestInit]: no abort signal
    is set.  Against an endpoint that never answers the promise of
    [makeBidRequest] stays pending for ever (no TimeoutError at 3000 ms, or
    at any time), and the slot keeps its loading box; an answer that comes
    after ten seconds is still accepted. *)
Theorem bid_request_has_no_timeout
    (extractUrls : option string -> Render.Urls) (pid : option string)
    (cfg : Net.Config) (t0 : Z) (slot : Net.Slot) (r : BidResponse) :
  Net.signal (Net.bidInit cfg slot pid) = None
  /\ fst (Net.makeBidRequest cfg t0 slot pid Net.Silent) = None
  /\ fst (Net.makeBidRequest cfg t0 slot pid (Net.Responds 10000 200 (Some r)))
     = Some ((t0 + 10000)%Z, Async.Fulfilled r)
  /\ (forall t,
        Render.status
          (Orchestrator.state_at
             (fst (Orchestrator.startSlot extractUrls pid cfg t0
                     (Orchestrator.placeholder "300" "250" "1") Net.Silent)) t)
        = Render.Loading).
Proof. repeat split. Qed.

(** With an abort signal of 3000 ms in the options, [fetch] would reject
    with a TimeoutError at that time. *)
Lemma fetch_with_signal_times_out (cfg : Net.Config) (t0 : Z) (slot : Net.Slot) :
  Net.fetch t0
    {| Net.method := "POST"; Net.headers := []; Net.body := None; Net.mode := None;
       Net.credentials := None; Net.keepalive := false; Net.cache := None;
       Net.signal := Some 3000%Z; Net.other_members := [] |} Net.Silent
  = Some ((t0 + 3000)%Z, Async.Rejected Async.TimeoutError).
Proof. reflexivity. Qed.

(** ** The ORTB load listener *)

(** X2.  With an embedded impression URL the listener requests it, then
    the journey event, then the rewritten win notice. *)
Lemma ortb_load_with_pixel (click img : option string) (pixel : string) (b : Bid) (r : BidResponse) :
  JS.truthy_str pixel = true ->
  Render.ortbOnLoad
    {| Render.clickUrl := click; Render.imageUrl := img; Render.impressionUrl := Some pixel |} b r
  = pixel :: Render.journeyUrl r Render.IMPRESSION
      :: (if JS.truthy_ostr (nurl b)
          then Net.sendImpression (Some (Macro.replaceAuctionMacros (JS.or_str (nurl b) "") r))
          else []).
Proof.
  intros H. unfold Render.ortbOnLoad. cbn [Render.impressionUrl JS.truthy_ostr Net.sendImpression].
  rewrite H. reflexivity.
Qed.

(** The end-to-end example of the specification: markup with anchor
    [https://x], image [https://y] and on-load URL [https://z]. *)
Lemma ortb_load_with_pixel_witness :
  Render.ortbOnLoad
    {| Render.clickUrl := Some "https://x"; Render.imageUrl := Some "https://y";
       Render.impressionUrl := Some "https://z" |}
    Macro.no_bid (Macro.response_of (Some "r1") Macro.no_bid)
  = [ "https://z";
      "https://dev.ssp.verismart.ai/api/update-adjourney?bid_id=r1&event=impression_at" ].
Proof.
  exact (ortb_load_with_pixel (Some "https://x") (Some "https://y") "https://z"
           Macro.no_bid (Macro.response_of (Some "r1") Macro.no_bid) eq_refl).
Defined.

(** The sibling listeners send their journey event whatever the markup. *)
Lemma ortb_billable_and_click_journey (b : Bid) (r : BidResponse) :
  In (Render.journeyUrl r Render.BILLED_IMPRESSION) (Render.ortbOnBillable b r)
  /\ Render.ortbOnClick r = [Render.journeyUrl r Render.CLICK].
Proof. split; [left|]; reflexivity. Qed.

(** C9, on the code.  When the markup of the creative embeds no on-load
    impression URL, the load listener sends no journey event: it requests
    the rewritten win notice, if the bid has one, and nothing else; for the
    response [{id:"r1", seatbid:[{bid:[{}]}]}] it requests nothing. *)
Theorem ortb_load_without_pixel (click img : option string) (b : Bid) (r : BidResponse) :
  Render.ortbOnLoad
    {| Render.clickUrl := click; Render.imageUrl := img; Render.impressionUrl := None |} b r
  = (if JS.truthy_ostr (nurl b)
     then Net.sendImpression (Some (Macro.replaceAuctionMacros (JS.or_str (nurl b) "") r))
     else [])
  /\ Render.ortbOnLoad
       {| Render.clickUrl := Some "https://x"; Render.imageUrl := Some "https://y";
          Render.impressionUrl := None |}
       Macro.no_bid (Macro.response_of (Some "r1") Macro.no_bid)
     = []
  /\ Render.status
       (Render.renderOrtbAd
          (fun _ => {| Render.clickUrl := Some "https://x"; Render.imageUrl := Some "https://y";
                       Render.impressionUrl := None |})
          {| Render.style_width := Some 300%Z; Render.style_height := Some 250%Z; Render.display := None;
             Render.inner := Render.Blank |}
          (Macro.response_of (Some "r1") Macro.no_bid))
     = Render.Rendered.
Proof. repeat split. Qed.

(** ** Failed slots *)

(** X3.  The failure sites of the renderer, one by one: the testing
    variant and an unknown type hide the slot; the brand and ORTB variants
    write the error box. *)
Lemma render_failure_sites
    (extractUrls : option string -> Render.Urls) (el : Render.SlotElement) (r : BidResponse) :
  Render.hidden el = false ->
  (ad_type r = None -> Render.status (Render.renderAd extractUrls el r) = Render.Hidden)
  /\ (full_file_path r = None ->
      Render.status (Render.renderTestingPidAd el r) = Render.Hidden
      /\ Render.status (Render.renderBrandAd el r) = Render.ErrorShown "Invalid brand ad creative.")
  /\ (firstBid r = None ->
      Render.status (Render.renderOrtbAd extractUrls el r) = Render.ErrorShown "No valid bid received.")
  /\ (forall b, firstBid r = Some b -> Render.imageUrl (extractUrls (adm b)) = None ->
      Render.status (Render.renderOrtbAd extractUrls el r) = Render.ErrorShown "Invalid ad creative.")
  /\ (forall c, Render.variant c = Render.TestingPid ->
      Render.status (Render.onMediaError c el) = Render.Hidden)
  /\ (forall c, Render.variant c = Render.Ortb ->
      Render.status (Render.onMediaError c el) = Render.ErrorShown "Ad image failed to load.").
Proof.
  intros Hvis. repeat split.
  - intros H. unfold Render.renderAd. now rewrite H.
  - unfold Render.renderTestingPidAd. now rewrite H.
  - unfold Render.renderBrandAd. rewrite H. cbn [JS.truthy_ostr negb].
    now rewrite showError_status, Hvis.
  - intros H. unfold Render.renderOrtbAd. rewrite H.
    now rewrite showError_status, Hvis.
  - intros b Hb Himg. unfold Render.renderOrtbAd. rewrite Hb, Himg.
    cbn [JS.truthy_ostr negb]. now rewrite showError_status, Hvis.
  - intros c Hc. unfold Render.onMediaError. now rewrite Hc.
  - intros c Hc. unfold Render.onMediaError. rewrite Hc.
    now rewrite showError_status, Hvis.
Qed.

(** A brand response without a file path, in a visible slot. *)
Lemma render_failure_sites_witness :
  Render.status (Render.renderBrandAd
                   {| Render.style_width := Some 300%Z; Render.style_height := Some 250%Z; Render.display := None;
                      Render.inner := Render.Blank |}
                   Macro.empty_response)
  = Render.ErrorShown "Invalid brand ad creative.".
Proof.
  exact (proj2 (proj1 (proj2 (render_failure_sites Orchestrator.no_markup
                  {| Render.style_width := Some 300%Z; Render.style_height := Some 250%Z; Render.display := None;
                     Render.inner := Render.Blank |}
                  Macro.empty_response eq_refl)) eq_refl)).
Defined.

(** C10, as the code has it.  What a failed slot shows depends on where
    it failed.  A misconfigured slot is hidden ([display: none]) as the page
    wrote it.  A started slot whose bid request fails (in transport, by a
    status outside 200..299, by a body that is not JSON) is hidden with the
    loading box still inside.  A response of unknown type and a testing
    creative without media hide the slot, emptied.  A brand creative without
    media, an ORTB response without bid and an ORTB bid without image put
    the neutral box with its explanatory text into the slot, which stays
    visible; so does a media element that fails to load in a brand or ORTB
    creative, while the testing variant hides the slot. *)
Theorem failed_slot_presentation
    (extractUrls : option string -> Render.Urls) (pid : option string)
    (cfg : Net.Config) (t0 : Z) (ph : Orchestrator.Placeholder) (ep : Net.Endpoint)
    (l st : Z) (r : BidResponse) (el : Render.SlotElement) (c : Render.Creative) :
  let valid :=
    JS.truthy_int (JS.parseInt_or_0 (Orchestrator.data_width ph))
    && JS.truthy_int (JS.parseInt_or_0 (Orchestrator.data_height ph))
    && JS.truthy_int (JS.parseInt_or_0 (Orchestrator.data_slot_id ph)) in
  let settled := fun ep =>
    Orchestrator.pipeline (fst (Orchestrator.startSlot extractUrls pid cfg t0 ph ep)) in
  let loading :=
    {| Render.style_width := Orchestrator.set_px (JS.parseInt_or_0 (Orchestrator.data_width ph)) None;
       Render.style_height :=
         Orchestrator.set_px (JS.parseInt_or_0 (Orchestrator.data_height ph)) None;
       Render.display := None; Render.inner := Render.LoadingBox |} in
  let with_display := fun (e : Render.SlotElement) d i =>
    {| Render.style_width := Render.style_width e; Render.style_height := Render.style_height e;
       Render.display := d; Render.inner := i |} in
  (valid = false ->
   Orchestrator.startSlot extractUrls pid cfg t0 ph ep
   = ({| Orchestrator.sync_state := with_display Render.fresh (Some "none") Render.Original;
         Orchestrator.pipeline :=
           Some (t0, Async.Fulfilled (with_display Render.fresh (Some "none") Render.Original)) |},
      []))
  /\ (valid = true ->
      settled (Net.TransportFailure l)
      = Some ((t0 + l)%Z, Async.Fulfilled (with_display loading (Some "none") Render.LoadingBox))
      /\ (Net.ok {| Net.status := st; Net.json := Some r |} = false ->
          forall payload,
            settled (Net.Responds l st payload)
            = Some ((t0 + l)%Z,
                    Async.Fulfilled (with_display loading (Some "none") Render.LoadingBox)))
      /\ settled (Net.Responds l st None)
         = Some ((t0 + l)%Z, Async.Fulfilled (with_display loading (Some "none") Render.LoadingBox))
      /\ (Net.ok {| Net.status := st; Net.json := Some r |} = true ->
          settled (Net.Responds l st (Some r))
          = Some ((t0 + l)%Z, Async.Fulfilled (Render.renderAd extractUrls loading r))))
  /\ ((forall ty, ad_type r = Some ty -> ty <> "brand" /\ ty <> "ortb" /\ ty <> "testing_pid") ->
      Render.renderAd extractUrls el r = with_display el (Some "none") Render.Blank)
  /\ (ad_type r = Some "testing_pid" -> JS.truthy_ostr (full_file_path r) = false ->
      Render.renderAd extractUrls el r = with_display el (Some "none") Render.Blank)
  /\ (ad_type r = Some "brand" -> JS.truthy_ostr (full_file_path r) = false ->
      Render.renderAd extractUrls el r
      = with_display el (Render.display el) (Render.ErrorBox "Invalid brand ad creative."))
  /\ (ad_type r = Some "ortb" -> firstBid r = None ->
      Render.renderAd extractUrls el r
      = with_display el (Render.display el) (Render.ErrorBox "No valid bid received."))
  /\ (ad_type r = Some "ortb" ->
      forall b, firstBid r = Some b ->
                JS.truthy_ostr (Render.imageUrl (extractUrls (adm b))) = false ->
                Render.renderAd extractUrls el r
                = with_display el (Render.display el) (Render.ErrorBox "Invalid ad creative."))
  /\ Render.onMediaError c el
     = match Render.variant c with
       | Render.Brand =>
           with_display el (Render.display el)
             (Render.ErrorBox (if Render.is_video c then "Video failed to load."
                               else "Image failed to load."))
       | Render.Ortb =>
           with_display el (Render.display el) (Render.ErrorBox "Ad image failed to load.")
       | Render.TestingPid => with_display el (Some "none") (Render.inner el)
       end
  /\ (forall m, JS.truthy_str m = true -> Render.hidden el = false ->
      Render.shows_placeholder (with_display el (Render.display el) (Render.ErrorBox m)) = true)
  /\ (forall i, Render.shows_placeholder (with_display el (Some "none") i) = false
                /\ Render.status (with_display el (Some "none") i) = Render.Hidden).
Proof.
  intros valid settled loading with_display.
  assert (Hfail : valid = true ->
                  forall ep' t e,
                    fst (Net.makeBidRequest cfg t0
                           {| Net.slot_id := JS.parseInt_or_0 (Orchestrator.data_slot_id ph);
                              Net.width := JS.parseInt_or_0 (Orchestrator.data_width ph);
                              Net.height := JS.parseInt_or_0 (Orchestrator.data_height ph) |}
                           pid ep') = Some (t, Async.Rejected e) ->
                    settled ep'
                    = Some (t, Async.Fulfilled
                                 (with_display loading (Some "none") Render.LoadingBox))).
  { intros Hv ep' t e Hreq. subst settled. cbv beta. unfold Orchestrator.startSlot.
    fold valid. rewrite Hv. unfold Orchestrator.loadAdForSlot.
    destruct (Net.makeBidRequest cfg t0 _ pid ep') as [p cs]. cbn [fst] in Hreq. subst p.
    reflexivity. }
  split; [|split; [|split; [|split; [|split; [|split; [|split; [|split; [|split]]]]]]]].
  - intros Hv. unfold Orchestrator.startSlot. fold valid. now rewrite Hv.
  - intros Hv. split; [|split; [|split]].
    + apply (Hfail Hv _ _ Async.TypeError). reflexivity.
    + intros Hok payload. apply (Hfail Hv _ _ (Async.HttpError st)).
      unfold Net.makeBidRequest, Net.fetch. cbn [Net.signal Net.bidInit fst].
      unfold Net.ok in *. cbn [Net.status] in *. now rewrite Hok.
    + destruct (Net.ok {| Net.status := st; Net.json := None |}) eqn:Hok.
      * apply (Hfail Hv _ _ Async.SyntaxError).
        unfold Net.makeBidRequest, Net.fetch. cbn [Net.signal Net.bidInit fst].
        now rewrite Hok.
      * apply (Hfail Hv _ _ (Async.HttpError st)).
        unfold Net.makeBidRequest, Net.fetch. cbn [Net.signal Net.bidInit fst].
        now rewrite Hok.
    + intros Hok. subst settled. cbv beta. unfold Orchestrator.startSlot.
      fold valid. rewrite Hv. unfold Orchestrator.loadAdForSlot, Net.makeBidRequest, Net.fetch.
      cbn [Net.signal Net.bidInit fst]. unfold Net.ok in *. cbn [Net.status] in *.
      now rewrite Hok.
  - intros Hty. unfold Render.renderAd. destruct (ad_type r) as [ty|]; [|reflexivity].
    destruct (Hty ty eq_refl) as (N1 & N2 & N3).
    destruct (String.eqb_spec ty "brand"); [contradiction|].
    destruct (String.eqb_spec ty "ortb"); [contradiction|].
    destruct (String.eqb_spec ty "testing_pid"); [contradiction|]. reflexivity.
  - intros Hty Hff. unfold Render.renderAd, Render.renderTestingPidAd.
    rewrite Hty, Hff. reflexivity.
  - intros Hty Hff. unfold Render.renderAd, Render.renderBrandAd. rewrite Hty, Hff. reflexivity.
  - intros Hty Hb. unfold Render.renderAd, Render.renderOrtbAd. rewrite Hty, Hb. reflexivity.
  - intros Hty b Hb Himg. unfold Render.renderAd, Render.renderOrtbAd.
    rewrite Hty, Hb. cbn [String.eqb Ascii.eqb Bool.eqb]. cbv iota.
    cbn [Render.set_inner Render.style_width Render.style_height Render.display] in *.
    rewrite Himg. reflexivity.
  - unfold Render.onMediaError. destruct (Render.variant c); [|reflexivity|reflexivity].
    destruct (Render.is_video c); reflexivity.
  - intros m Hm Hvis. unfold Render.shows_placeholder, Render.status.
    unfold Render.hidden in *. cbn [Render.display Render.inner with_display].
    subst with_display. cbn [Render.display Render.inner]. now rewrite Hvis.
  - intros i. split; reflexivity.
Qed.

(** C10, witness: a brand creative without media, in a slot that loads. *)
Lemma failed_slot_presentation_witness :
  Render.renderAd Orchestrator.no_markup
    {| Render.style_width := Some 300%Z; Render.style_height := Some 250%Z;
       Render.display := None; Render.inner := Render.LoadingBox |}
    {| ad_type := Some "brand"; resp_id := None; bidid := None; cur := None; seatbid := [];
       full_file_path := None; creative_type := None; brand_name := None; tracking := None;
       landing_page_url := None; ad_click_url := None |}
  = {| Render.style_width := Some 300%Z; Render.style_height := Some 250%Z;
       Render.display := None; Render.inner := Render.ErrorBox "Invalid brand ad creative." |}.
Proof.
  exact (proj1 (proj2 (proj2 (proj2 (proj2
           (failed_slot_presentation Orchestrator.no_markup None Net.sample_config 0
              (Orchestrator.placeholder "300" "250" "1") Net.Silent 40 500
              {| ad_type := Some "brand"; resp_id := None; bidid := None; cur := None;
                 seatbid := []; full_file_path := None; creative_type := None;
                 brand_name := None; tracking := None; landing_page_url := None;
                 ad_click_url := None |}
              {| Render.style_width := Some 300%Z; Render.style_height := Some 250%Z;
                 Render.display := None; Render.inner := Render.LoadingBox |}
              {| Render.variant := Render.Brand; Render.is_video := false; Render.src := "x";
                 Render.alt := None; Render.href := "#" |}))))) eq_refl eq_refl).
Defined.

(** C10, as stated, fails: the misconfigured slot and the slot whose bid
    request failed are hidden, not shown as a placeholder box. *)
Lemma failed_slots_are_hidden :
  Render.shows_placeholder
    (Orchestrator.sync_state
       (fst (Orchestrator.startSlot Orchestrator.no_markup None Net.sample_config 0
               (Orchestrator.placeholder "0" "250" "1") Net.Silent)))
  = false
  /\ Render.hidden
       (Orchestrator.sync_state
          (fst (Orchestrator.startSlot Orchestrator.no_markup None Net.sample_config 0
                  (Orchestrator.placeholder "0" "250" "1") Net.Silent)))
     = true
  /\ map (fun tl => Render.shows_placeholder (Orchestrator.state_at tl 120))
       (Orchestrator.slots
          (Orchestrator.initialize Orchestrator.no_markup None Orchestrator.configured 0
             Orchestrator.second_fails Orchestrator.three_slots))
     = [false; false; false].
Proof. repeat split. Qed.

(** ** The viewability tracker *)

Section ViewabilityFacts.
Import Viewability.

Lemma same_view_refl (w : World) : same_view w w.
Proof. repeat split. Qed.

Lemma same_view_trans (w1 w2 w3 : World) :
  same_view w1 w2 -> same_view w2 w3 -> same_view w1 w3.
Proof. intros (a & b & c) (d & e & f). repeat split; congruence. Qed.

Lemma same_view_consistent (w w' : World) : same_view w w' -> consistent w -> consistent w'.
Proof.
  intros (Hf & Hm & Hl) [N F C]. split.
  - now rewrite Hm.
  - now rewrite Hm, Hf.
  - intros el. unfold fired_count. rewrite Hl, Hm. apply C.
Qed.

(** Replacing a tracker by one with the same element and the same fired
    flag leaves the marks as they are. *)
Lemma marks_insert_same (ts : list Tracker) (k : nat) (tr tr' : Tracker) :
  ts !! k = Some tr ->
  element tr' = element tr -> hasTriggeredBillable tr' = hasTriggeredBillable tr ->
  ((fun t => (element t, hasTriggeredBillable t)) <$> <[k := tr']> ts)
  = ((fun t => (element t, hasTriggeredBillable t)) <$> ts).
Proof.
  intros Hk He Hh. rewrite list_fmap_insert. apply list_insert_id.
  rewrite list_lookup_fmap, Hk. cbn. now rewrite He, Hh.
Qed.

Lemma clearTimeout_view (w : World) (id : option nat) : same_view w (clearTimeout w id).
Proof. destruct id; repeat split. Qed.

Lemma set_now_view (w : World) (t : Z) : same_view w (set_now w t).
Proof. repeat split. Qed.

Lemma onIntersect_view (w : World) (k : nat) (e : Entry) : same_view w (onIntersect w k e).
Proof.
  unfold onIntersect. destruct (trackers w !! k) as [tr|] eqn:Hk; [|apply same_view_refl].
  destruct (isIntersecting e && Qle_bool THRESHOLD (intersectionRatio e)).
  - destruct (negb (truthy_start (visibilityStart tr))); [|apply same_view_refl].
    repeat split. unfold marks. cbn [trackers]. now apply (marks_insert_same _ k tr).
  - destruct (truthy_start (visibilityStart tr)); [|apply same_view_refl].
    destruct (visibilityTimeout tr); repeat split; unfold marks; cbn [trackers set_trackers
      clearTimeout set_timers]; now apply (marks_insert_same _ k tr).
Qed.

Lemma onUnload_view (w : World) (k : nat) : same_view w (onUnload w k).
Proof.
  unfold onUnload. destruct (trackers w !! k) as [tr|] eqn:Hk; [|apply same_view_refl].
  destruct (negb (unloadListener tr)); [apply same_view_refl|].
  assert (H : same_view w
                (set_trackers w
                   (<[k := {| element := element tr; callback := callback tr;
                              visibilityStart := visibilityStart tr;
                              visibilityTimeout := visibilityTimeout tr;
                              hasTriggeredBillable := hasTriggeredBillable tr;
                              observing := false;
                              unloadListener := false |}]> (trackers w)))).
  { repeat split. unfold marks. cbn [trackers set_trackers].
    now apply (marks_insert_same _ k tr). }
  destruct (truthy_timeout (visibilityTimeout tr)); [|exact H].
  eapply same_view_trans; [exact H | apply clearTimeout_view].
Qed.

Lemma fold_view {A} (f : World -> A -> World) (l : list A) :
  (forall w a, same_view w (f w a)) -> forall w, same_view w (fold_left f l w).
Proof.
  intros Hf. induction l as [|a l IH]; intros w; [apply same_view_refl|].
  cbn [fold_left]. eapply same_view_trans; [apply Hf | apply IH].
Qed.

Lemma fired_count_cons (w : World) (f : Firing) (fs : list Firing) (el : Element) :
  firings w = f :: fs ->
  fired_count w el
  = ((if decide (f_element f = el) then 1 else 0) + length (filter (fun g => f_element g = el) fs))%nat.
Proof.
  intros H. unfold fired_count. rewrite H, filter_cons.
  destruct (decide (f_element f = el)); reflexivity.
Qed.

(** The timer callback keeps the world consistent: it runs the billable
    callback only for a tracker that has not fired, and marks it. *)
Lemma onTimeout_consistent (w : World) (k : nat) : consistent w -> consistent (onTimeout w k).
Proof.
  intros Hc. unfold onTimeout.
  destruct (trackers w !! k) as [tr|] eqn:Hk; [|exact Hc].
  destruct (hasTriggeredBillable tr) eqn:Htrig; [exact Hc|]. cbn [negb].
  set (tr' := {| element := element tr; callback := callback tr;
                 visibilityStart := visibilityStart tr;
                 visibilityTimeout := visibilityTimeout tr;
                 hasTriggeredBillable := true; observing := false;
                 unloadListener := unloadListener tr |}).
  set (w' := {| now := now w; flagged := flagged w; trackers := <[k := tr']> (trackers w);
                timers := timers w; next_timer := next_timer w;
                firings := {| f_element := element tr; f_callback := callback tr;
                              f_time := now w |} :: firings w |}).
  destruct Hc as [N F C].
  assert (Hmk : marks w !! k = Some (element tr, false)).
  { unfold marks. rewrite list_lookup_fmap, Hk. cbn. now rewrite Htrig. }
  assert (Hm' : marks w' = <[k := (element tr, true)]> (marks w)).
  { unfold marks, w'. cbn [trackers]. now rewrite list_fmap_insert. }
  assert (Hfst : fst <$> marks w' = fst <$> marks w).
  { rewrite Hm', list_fmap_insert. apply list_insert_id.
    now rewrite list_lookup_fmap, Hmk. }
  assert (Hk' : marks w' !! k = Some (element tr, true)).
  { rewrite Hm'. apply list_lookup_insert_eq. now apply lookup_lt_Some in Hmk. }
  split.
  - now rewrite Hfst.
  - intros el. rewrite Hfst. apply F.
  - intros el.
    rewrite (fired_count_cons w' _ (firings w) el eq_refl). cbn [f_element].
    change (length (filter (fun g => f_element g = el) (firings w))) with (fired_count w el).
    destruct (decide (element tr = el)) as [<-|Hne].
    + right. split.
      * destruct (C (element tr)) as [-> | [_ Hin]]; [reflexivity|].
        apply list_elem_of_lookup in Hin as [j Hj].
        assert (j = k).
        { eapply (NoDup_lookup _ j k (element tr) N);
            rewrite list_lookup_fmap; [rewrite Hj | rewrite Hmk]; reflexivity. }
        subst j. congruence.
      * apply list_elem_of_lookup. eauto.
    + destruct (C el) as [H0 | [H1 Hin]]; [now left | right]. split; [exact H1|].
      apply list_elem_of_lookup in Hin as [j Hj]. apply list_elem_of_lookup. exists j.
      rewrite Hm', list_lookup_insert_ne; [exact Hj|]. intros <-. congruence.
Qed.

Lemma setup_consistent (w : World) (el : Element) (cb : Callback) :
  consistent w -> consistent (setupViewabilityTracking w el cb).
Proof.
  intros Hc. unfold setupViewabilityTracking. case_bool_decide as Hfl; [exact Hc|].
  destruct Hc as [N F C].
  split; unfold marks, fired_count in *; cbn [trackers flagged firings].
  - rewrite !fmap_app. cbn. apply NoDup_app. split; [exact N|]. split.
    + intros x Hx Hx'. apply list_elem_of_singleton in Hx'. subst x. apply Hfl, F, Hx.
    + apply NoDup_singleton.
  - intros x. rewrite !fmap_app. cbn. intros Hx. apply elem_of_app in Hx as [Hx|Hx].
    + apply elem_of_union_r, F, Hx.
    + apply list_elem_of_singleton in Hx. subst x. apply elem_of_union_l.
      now apply elem_of_singleton.
  - intros x. destruct (C x) as [H0 | [H1 Hin]]; [now left | right].
    split; [exact H1|]. rewrite fmap_app. apply elem_of_app. now left.
Qed.

Lemma runTimers_consistent (fuel : nat) (t : Z) :
  forall w, consistent w -> consistent (runTimers fuel t w).
Proof.
  induction fuel as [|f IH]; intros w Hc; [exact Hc|]. cbn [runTimers].
  destruct (earliest (timers w)) as [tm|]; [|exact Hc].
  destruct (due tm <=? t)%Z; [|exact Hc].
  apply IH, onTimeout_consistent.
  eapply same_view_consistent; [|exact Hc].
  eapply same_view_trans; [apply clearTimeout_view | apply set_now_view].
Qed.

Lemma step_consistent (w : World) (ev : Event) : consistent w -> consistent (step w ev).
Proof.
  intros Hc. destruct ev as [el cb | el e | k e | t |]; cbn [step].
  - now apply setup_consistent.
  - eapply same_view_consistent; [|exact Hc].
    apply fold_view. intros w' k. apply onIntersect_view.
  - eapply same_view_consistent; [apply onIntersect_view | exact Hc].
  - unfold elapse. eapply same_view_consistent; [apply set_now_view|].
    now apply runTimers_consistent.
  - eapply same_view_consistent; [|exact Hc].
    apply fold_view. intros w' k. apply onUnload_view.
Qed.

Lemma init_consistent (origin : Z) : consistent (init origin).
Proof.
  split; unfold marks, fired_count; cbn.
  - constructor.
  - intros el H. now apply elem_of_nil in H.
  - now left.
Qed.

Lemma run_consistent (evs : list Event) : forall w, consistent w -> consistent (run w evs).
Proof.
  induction evs as [|ev evs IH]; intros w Hc; [exact Hc|].
  cbn [run fold_left]. apply IH, step_consistent, Hc.
Qed.

End ViewabilityFacts.

Section ViewabilityTheorems.
Import Viewability.

Lemma same_view_count (w w' : World) (el : Element) :
  same_view w w' -> fired_count w' el = fired_count w el.
Proof. intros (_ & _ & Hl). unfold fired_count. now rewrite Hl. Qed.

Lemma same_view_flagged (w w' : World) : same_view w w' -> flagged w' = flagged w.
Proof. now intros (Hf & _). Qed.

Lemma onTimeout_grows (w : World) (k : nat) (el : Element) :
  (fired_count w el <= fired_count (onTimeout w k) el)%nat
  /\ flagged (onTimeout w k) = flagged w.
Proof.
  unfold onTimeout. destruct (trackers w !! k) as [tr|]; [|split; reflexivity].
  destruct (negb (hasTriggeredBillable tr)); [|split; reflexivity].
  split; [|reflexivity].
  unfold fired_count. cbn [firings]. rewrite filter_cons.
  destruct (decide _); cbn [length]; lia.
Qed.

Lemma runTimers_grows (fuel : nat) (t : Z) (el : Element) :
  forall w,
    (fired_count w el <= fired_count (runTimers fuel t w) el)%nat
    /\ flagged (runTimers fuel t w) = flagged w.
Proof.
  induction fuel as [|f IH]; intros w; [split; reflexivity|]. cbn [runTimers].
  destruct (earliest (timers w)) as [tm|]; [|split; reflexivity].
  destruct (due tm <=? t)%Z; [|split; reflexivity].
  set (w1 := set_now (clearTimeout w (Some (timer_id tm))) (Z.max (now w) (due tm))).
  assert (Hv : same_view w w1).
  { eapply same_view_trans; [apply clearTimeout_view | apply set_now_view]. }
  destruct (IH (onTimeout w1 (owner tm))) as [Hc Hf].
  destruct (onTimeout_grows w1 (owner tm) el) as [Hc' Hf'].
  rewrite (same_view_count _ _ el Hv) in Hc'. rewrite (same_view_flagged _ _ Hv) in Hf'.
  split; [lia | congruence].
Qed.

(** A step never forgets a firing nor a flag. *)
Lemma step_grows (w : World) (ev : Event) (el : Element) :
  (fired_count w el <= fired_count (step w ev) el)%nat
  /\ (el ∈ flagged w -> el ∈ flagged (step w ev)).
Proof.
  destruct ev as [el' cb | el' e | k e | t |]; cbn [step].
  - unfold setupViewabilityTracking. case_bool_decide; [split; [reflexivity | tauto]|].
    split; [reflexivity|]. cbn [flagged]. intros Hin. now apply elem_of_union_r.
  - assert (Hv : same_view w (fold_left (fun w k => onIntersect w k e)
                                (watchers (trackers w) 0 el') w)).
    { apply fold_view. intros w' k. apply onIntersect_view. }
    rewrite (same_view_count _ _ el Hv), (same_view_flagged _ _ Hv). split; [lia | tauto].
  - pose proof (onIntersect_view w k e) as Hv.
    rewrite (same_view_count _ _ el Hv), (same_view_flagged _ _ Hv). split; [lia | tauto].
  - unfold elapse.
    destruct (runTimers_grows (length (timers w)) t el w) as [Hc Hf].
    split; [exact Hc|]. cbn [set_now flagged]. now rewrite Hf.
  - assert (Hv : same_view w (fold_left onUnload (seq 0 (length (trackers w))) w)).
    { apply fold_view. intros w' k. apply onUnload_view. }
    rewrite (same_view_count _ _ el Hv), (same_view_flagged _ _ Hv). split; [lia | tauto].
Qed.

Lemma run_grows (evs : list Event) (el : Element) :
  forall w,
    (fired_count w el <= fired_count (run w evs) el)%nat
    /\ (el ∈ flagged w -> el ∈ flagged (run w evs)).
Proof.
  induction evs as [|ev evs IH]; intros w; [split; [reflexivity | tauto]|].
  change (run w (ev :: evs)) with (run (step w ev) evs).
  destruct (step_grows w ev el) as [Hc Hf].
  destruct (IH (step w ev)) as [Hc' Hf']. split; [lia | tauto].
Qed.

Lemma consistent_at_most_once (w : World) (el : Element) :
  consistent w -> (fired_count w el <= 1)%nat.
Proof. intros [_ _ C]. destruct (C el) as [-> | [-> _]]; lia. Qed.

Lemma setup_flags (w : World) (el : Element) (cb : Callback) :
  el ∈ flagged (setupViewabilityTracking w el cb).
Proof.
  unfold setupViewabilityTracking. case_bool_decide; [assumption|].
  cbn [flagged]. apply elem_of_union_l. now apply elem_of_singleton.
Qed.

Lemma setup_flagged_noop (w : World) (el : Element) (cb : Callback) :
  el ∈ flagged w -> setupViewabilityTracking w el cb = w.
Proof. intros H. unfold setupViewabilityTracking. now rewrite bool_decide_eq_true_2. Qed.

(** *** Every due timer runs *)

Lemma earliest_spec (tms : list Timer) :
  match earliest tms with
  | None => tms = []
  | Some tm => tm ∈ tms /\ forall x, x ∈ tms -> (due tm <= due x)%Z
  end.
Proof.
  induction tms as [|tm rest IH]; [reflexivity|]. cbn [earliest].
  destruct (earliest rest) as [tm'|].
  - destruct IH as [Hin Hmin]. destruct (Z.ltb_spec (due tm') (due tm)) as [Hlt|Hge]; split.
    + now apply list_elem_of_further.
    + intros x Hx. apply elem_of_cons in Hx as [->|Hx]; [lia | now apply Hmin].
    + apply list_elem_of_here.
    + intros x Hx. apply elem_of_cons in Hx as [->|Hx]; [lia|].
      specialize (Hmin x Hx). lia.
  - subst rest. split; [apply list_elem_of_here|].
    intros x Hx. apply list_elem_of_singleton in Hx. subst x. lia.
Qed.

Lemma onTimeout_timers (w : World) (k : nat) : timers (onTimeout w k) = timers w.
Proof.
  unfold onTimeout. destruct (trackers w !! k) as [tr|]; [|reflexivity].
  now destruct (negb (hasTriggeredBillable tr)).
Qed.

(** The fuel of [elapse] is enough: when the clock has advanced to [t], no
    pending timer is due at [t] or before. *)
Lemma runTimers_all_due (fuel : nat) (t : Z) :
  forall w, (length (timers w) <= fuel)%nat ->
            Forall (fun tm => (t < due tm)%Z) (timers (runTimers fuel t w)).
Proof.
  induction fuel as [|f IH]; intros w Hlen; cbn [runTimers].
  - destruct (timers w); [constructor | cbn in Hlen; lia].
  - pose proof (earliest_spec (timers w)) as Hspec.
    destruct (earliest (timers w)) as [tm|]; [|rewrite Hspec; constructor].
    destruct Hspec as [Hin Hmin].
    destruct (Z.leb_spec (due tm) t) as [Hdue|Hnot].
    + apply IH. rewrite onTimeout_timers. cbn [timers set_now clearTimeout set_timers].
      pose proof (length_filter_lt (fun x => timer_id x <> timer_id tm) (timers w) tm Hin) as Hlt.
      assert (length (filter (fun x => timer_id x <> timer_id tm) (timers w))
              < length (timers w))%nat by (apply Hlt; tauto).
      lia.
    + apply Forall_forall. intros x Hx. specialize (Hmin x Hx). lia.
Qed.

Lemma elapse_all_due (w : World) (t : Z) :
  Forall (fun tm => (t < due tm)%Z) (timers (elapse w t)).
Proof. unfold elapse. cbn [timers set_now]. now apply runTimers_all_due. Qed.

End ViewabilityTheorems.

(** C1.  Whatever the sequence of registrations, visibility changes,
    deliveries of queued entries, clock advances and unloads, the billable
    callback of an element runs at most once; registering an element that was registered before, with any events
    in between, changes nothing; and once the callback has run, no later
    event makes it run again. *)
Theorem viewability_at_most_once
    (origin : Z) (evs before between later : list Viewability.Event)
    (el : Viewability.Element) (cb cb' : Viewability.Callback) :
  (Viewability.fired_count (Viewability.run (Viewability.init origin) evs) el <= 1)%nat
  /\ Viewability.setupViewabilityTracking
       (Viewability.run
          (Viewability.setupViewabilityTracking
             (Viewability.run (Viewability.init origin) before) el cb)
          between) el cb'
     = Viewability.run
         (Viewability.setupViewabilityTracking
            (Viewability.run (Viewability.init origin) before) el cb)
         between
  /\ (Viewability.fired_count (Viewability.run (Viewability.init origin) evs) el = 1%nat ->
      Viewability.fired_count
        (Viewability.run (Viewability.run (Viewability.init origin) evs) later) el = 1%nat).
Proof.
  pose proof (run_consistent evs _ (init_consistent origin)) as Hc.
  split; [now apply consistent_at_most_once|]. split.
  - apply setup_flagged_noop. apply run_grows, setup_flags.
  - intros H1.
    pose proof (consistent_at_most_once _ el (run_consistent later _ Hc)) as Hle.
    destruct (run_grows later el (Viewability.run (Viewability.init origin) evs)) as [Hge _].
    lia.
Qed.

(** ** The transitions of one tracker *)

Section TrackerTransitions.
Import Viewability.
Local Open Scope Z_scope.

Local Ltac vcbn :=
  cbn -[Z.add Z.sub Z.max Z.leb Z.ltb Z.eqb Z.mul Qle_bool truthy_start truthy_timeout
        clearTimeout].

Lemma register_first (origin : Z) :
  step (init origin) (Register 0%nat 0%nat)
  = single ({[0%nat]} ∪ ∅) origin (tracker0 None None false true) [] 1 [].
Proof.
  unfold step, setupViewabilityTracking.
  rewrite bool_decide_eq_false_2 by apply not_elem_of_empty. reflexivity.
Qed.

Lemma elapse_no_timer (F : gset Element) (t : Z) (tr : Tracker) (nxt : nat)
    (fs : list Firing) (t' : Z) :
  step (single F t tr [] nxt fs) (Elapse t') = single F (Z.max t t') tr [] nxt fs.
Proof. reflexivity. Qed.

(** Idle to Accumulating: the start is recorded and the dwell timer set. *)
Lemma intersect_enter (F : gset Element) (t : Z) (vs : option Z) (vt : option nat)
    (trig : bool) (tms : list Timer) (nxt : nat) (fs : list Firing) (e : Entry) :
  viewable e = true -> truthy_start vs = false ->
  step (single F t (tracker0 vs vt trig true) tms nxt fs) (Intersect 0%nat e)
  = single F t (tracker0 (Some t) (Some nxt) trig true)
      (tms ++ [ {| timer_id := nxt; due := t + DURATION; owner := 0%nat |} ]) (S nxt) fs.
Proof.
  unfold viewable. intros He Hs. unfold step. vcbn.
  rewrite bool_decide_eq_true_2 by reflexivity. vcbn.
  unfold onIntersect. vcbn. rewrite He, Hs. reflexivity.
Qed.

(** Accumulating to Idle: the timer is cleared and the start discarded. *)
Lemma intersect_leave (F : gset Element) (t : Z) (vs : option Z) (id : nat) (d : Z)
    (trig : bool) (nxt : nat) (fs : list Firing) (e : Entry) :
  viewable e = false -> truthy_start vs = true ->
  step (single F t (tracker0 vs (Some id) trig true)
          [ {| timer_id := id; due := d; owner := 0%nat |} ] nxt fs) (Intersect 0%nat e)
  = single F t (tracker0 None (Some id) trig true) [] nxt fs.
Proof.
  unfold viewable. intros He Hs. unfold step. vcbn.
  rewrite bool_decide_eq_true_2 by reflexivity. vcbn.
  unfold onIntersect. vcbn. rewrite He, Hs. unfold clearTimeout. vcbn.
  destruct (decide (id <> id)) as [H|_]; [congruence | reflexivity].
Qed.

(** A drop while the recorded start is falsy changes nothing: the pending
    timer stays. *)
Lemma intersect_leave_falsy (F : gset Element) (t : Z) (vs : option Z) (vt : option nat)
    (trig : bool) (tms : list Timer) (nxt : nat) (fs : list Firing) (e : Entry) :
  viewable e = false -> truthy_start vs = false ->
  step (single F t (tracker0 vs vt trig true) tms nxt fs) (Intersect 0%nat e)
  = single F t (tracker0 vs vt trig true) tms nxt fs.
Proof.
  unfold viewable. intros He Hs. unfold step. vcbn.
  rewrite bool_decide_eq_true_2 by reflexivity. vcbn.
  unfold onIntersect. vcbn. rewrite He, Hs. reflexivity.
Qed.

(** The clock advances with one pending timer: it runs if it is due. *)
Lemma elapse_one_timer (F : gset Element) (t : Z) (vs : option Z) (vt : option nat)
    (obs : bool) (id : nat) (d : Z) (nxt : nat) (fs : list Firing) (t' : Z) :
  step (single F t (tracker0 vs vt false obs)
          [ {| timer_id := id; due := d; owner := 0%nat |} ] nxt fs) (Elapse t')
  = if d <=? t'
    then single F (Z.max (Z.max t d) t') (tracker0 vs vt true false) [] nxt
           ({| f_element := 0%nat; f_callback := 0%nat; f_time := Z.max t d |} :: fs)
    else single F (Z.max t t') (tracker0 vs vt false obs)
           [ {| timer_id := id; due := d; owner := 0%nat |} ] nxt fs.
Proof.
  unfold step, elapse. vcbn. destruct (d <=? t'); [|reflexivity].
  unfold clearTimeout. vcbn.
  destruct (decide (id <> id)) as [H|_]; [congruence | reflexivity].
Qed.

(** X4.  Accumulating to Fired, in full: a tracker that became viewable
    at [t] and stays so fires when the clock reaches [t + DURATION]. *)
Lemma dwell_completes (F : gset Element) (t : Z) (vs : option Z) (vt : option nat)
    (nxt : nat) (e : Entry) (t' : Z) :
  viewable e = true -> truthy_start vs = false -> t + DURATION <= t' ->
  firings (run (single F t (tracker0 vs vt false true) [] nxt [])
             [Intersect 0%nat e; Elapse t'])
  = [ {| f_element := 0%nat; f_callback := 0%nat; f_time := t + DURATION |} ].
Proof.
  intros He Hs Hle. unfold run. cbn [fold_left].
  rewrite (intersect_enter F t vs vt false [] nxt [] e He Hs). cbn [app].
  rewrite elapse_one_timer.
  destruct (Z.leb_spec (t + DURATION) t'); [|lia].
  cbn [firings single]. unfold DURATION. do 3 f_equal. lia.
Qed.

End TrackerTransitions.

Section ExampleTimeline.
Import Viewability.
Local Open Scope Z_scope.

Lemma viewable_06 : viewable {| isIntersecting := true; intersectionRatio := 6 # 10 |} = true.
Proof. reflexivity. Qed.

Lemma viewable_04 : viewable {| isIntersecting := true; intersectionRatio := 4 # 10 |} = false.
Proof. reflexivity. Qed.

(** C2.  With threshold 0.5 and dwell 1000 ms, on a page whose clock is
    positive when the observation starts (the tracker is set up after
    [DOMContentLoaded], the wait for the configuration and the bid round
    trip), the timeline visible(0, 0.6), visible(400, 0.4), visible(500, 0.6)
    makes the callback run exactly once, 1500 ms after its start: whatever
    the time up to which one looks, nothing has run before 1500 and the one
    run of 1500 is all there is from then on. *)
Lemma example_timeline_nonzero_origin (origin horizon : Z) :
  0 < origin ->
  firing_times origin example_timeline horizon = if horizon <? 1500 then [] else [1500].
Proof.
  intros Hpos. unfold firing_times, example_timeline, visible, timeline_events.
  cbn [flat_map app]. unfold run. cbn [fold_left].
  rewrite register_first, elapse_no_timer.
  rewrite (intersect_enter _ _ None None false [] 1 [] _ viewable_06 eq_refl). cbn [app].
  rewrite elapse_one_timer.
  destruct (Z.leb_spec (Z.max origin (origin + 0) + DURATION) (origin + 400)) as [Hle|_];
    [unfold DURATION in Hle; lia|].
  rewrite (intersect_leave _ _ _ 1 _ false 2 [] _ viewable_04)
    by (unfold truthy_start; apply negb_true_iff, Z.eqb_neq; lia).
  rewrite elapse_no_timer.
  rewrite (intersect_enter _ _ None (Some 1%nat) false [] 2 [] _ viewable_06 eq_refl).
  cbn [app]. rewrite elapse_one_timer. unfold DURATION.
  destruct (Z.leb_spec
              (Z.max (Z.max (Z.max origin (origin + 0)) (origin + 400)) (origin + 500) + 1000)
              (origin + horizon)) as [Hle|Hgt];
    destruct (Z.ltb_spec horizon 1500) as [Hlt|Hge]; try lia; cbn [firings single].
  - rewrite filter_cons. destruct (decide _) as [_|Hne]; [|now destruct Hne].
    cbn [f_time map rev app]. rewrite filter_nil. cbn [map rev app]. f_equal. lia.
  - reflexivity.
Qed.

End ExampleTimeline.

(** C2, witness: the timeline of the example on a page whose clock reads
    7 ms at the start of the observation. *)
Lemma example_timeline_nonzero_origin_witness :
  Viewability.firing_times 7 Viewability.example_timeline 1499 = []
  /\ Viewability.firing_times 7 Viewability.example_timeline 1500 = [1500%Z].
Proof.
  split.
  - exact (example_timeline_nonzero_origin 7 1499 eq_refl).
  - exact (example_timeline_nonzero_origin 7 1500 eq_refl).
Defined.

(** A tracker that becomes viewable at 250 ms fires at 1250 ms. *)
Lemma dwell_completes_witness :
  Viewability.firings
    (Viewability.run
       (Viewability.single ∅ 250 (Viewability.tracker0 None None false true) [] 1 [])
       [ Viewability.Intersect 0%nat
           {| Viewability.isIntersecting := true; Viewability.intersectionRatio := 1 |};
         Viewability.Elapse 2000 ])
  = [ {| Viewability.f_element := 0%nat; Viewability.f_callback := 0%nat;
         Viewability.f_time := 1250 |} ].
Proof.
  refine (dwell_completes ∅ 250 None None 1
            {| Viewability.isIntersecting := true; Viewability.intersectionRatio := 1 |}
            2000 eq_refl eq_refl _).
  unfold Viewability.DURATION. lia.
Defined.

(** Why the clock has to be positive: were it to read zero at the first
    report (which no page does), the start recorded would be the number 0,
    which the tracker takes for "no start"; the drop at 400 would clear
    nothing, and the callback would run at 1000. *)
Remark example_timeline_at_origin_zero :
  Viewability.firing_times 0 Viewability.example_timeline 999 = []
  /\ Viewability.firing_times 0 Viewability.example_timeline 1000 = [1000%Z]
  /\ Viewability.firing_times 0 Viewability.example_timeline 1499 = [1000%Z]
  /\ Viewability.firing_times 0 Viewability.example_timeline 1500 = [1000%Z]
  /\ Viewability.firing_times 0 Viewability.example_timeline 60000 = [1000%Z].
Proof. repeat split; vm_compute; reflexivity. Qed.

(* ===================================================================== *)
(** * Further properties of the code *)
(* ===================================================================== *)

(** ** The tracker of one element is the three-state machine *)

Section DwellRefinement.
Import Viewability Dwell.
Local Open Scope Z_scope.

Local Ltac wcbn :=
  cbn -[Z.add Z.sub Z.max Z.leb Z.ltb Z.eqb Z.mul Qle_bool truthy_start truthy_timeout
        clearTimeout].

(** A report of "still viewable" while a start is recorded changes nothing. *)
Lemma intersect_stay (F : gset Element) (t : Z) (vs : option Z) (vt : option nat)
    (trig : bool) (tms : list Timer) (nxt : nat) (fs : list Firing) (e : Entry) :
  viewable e = true -> truthy_start vs = true ->
  step (single F t (tracker0 vs vt trig true) tms nxt fs) (Intersect 0%nat e)
  = single F t (tracker0 vs vt trig true) tms nxt fs.
Proof.
  unfold viewable. intros He Hs. unfold step. wcbn.
  rewrite bool_decide_eq_true_2 by reflexivity. wcbn.
  unfold onIntersect. wcbn. rewrite He, Hs. reflexivity.
Qed.

(** After [observer.disconnect()] a change of visibility reaches nobody. *)
Lemma intersect_unobserved (F : gset Element) (t : Z) (vs : option Z) (vt : option nat)
    (trig : bool) (tms : list Timer) (nxt : nat) (fs : list Firing) (e : Entry) :
  step (single F t (tracker0 vs vt trig false) tms nxt fs) (Intersect 0%nat e)
  = single F t (tracker0 vs vt trig false) tms nxt fs.
Proof.
  unfold step. wcbn. rewrite bool_decide_eq_true_2 by reflexivity. reflexivity.
Qed.

Lemma represents_start (origin : Z) :
  represents origin Idle 0 (step (init origin) (Register 0%nat 0%nat)).
Proof.
  rewrite register_first.
  pose proof (rep_idle origin ({[0%nat]} ∪ ∅) 0 None None 1 eq_refl Nat.lt_0_1) as H.
  now rewrite Z.add_0_r in H.
Qed.

(** One report keeps the world in step with the machine. *)
Lemma represents_observe (origin : Z) (p : Phase) (t : Z) (w : World) (t' : Z) (e : Entry) :
  0 < origin -> 0 <= t' -> t <= t' ->
  represents origin p t w ->
  represents origin (observe p (t', e)) t'
    (step (step w (Elapse (origin + t'))) (Intersect 0%nat e)).
Proof.
  intros Ho Ht' Hle Hrep. unfold observe. cbn [fst snd].
  destruct Hrep as [F t vs vt nxt Hvs Hn | F t s id nxt Hs Hne Hid Hn | F t tc a vs vt nxt Ha].
  - rewrite elapse_no_timer. replace (Z.max (origin + t) (origin + t')) with (origin + t') by lia.
    cbn [advance]. destruct (viewable e) eqn:He.
    + rewrite (intersect_enter _ _ _ _ _ _ _ _ _ He Hvs). cbn [app].
      apply rep_accumulating; unfold DURATION; lia.
    + rewrite (intersect_leave_falsy _ _ _ _ _ _ _ _ _ He Hvs). now apply rep_idle.
  - rewrite elapse_one_timer. cbn [advance].
    assert (Hts : truthy_start (Some (origin + s)) = true).
    { unfold truthy_start. now apply negb_true_iff, Z.eqb_neq. }
    destruct (Z.leb_spec (origin + s + DURATION) (origin + t')) as [Hdue|Hnot];
      destruct (Z.leb_spec (s + DURATION) t') as [Hdue'|Hnot']; try lia.
    + rewrite intersect_unobserved.
      replace (Z.max (origin + t) (origin + s + DURATION)) with (origin + (s + DURATION)) by lia.
      now apply rep_fired.
    + replace (Z.max (origin + t) (origin + t')) with (origin + t') by lia.
      destruct (viewable e) eqn:He.
      * rewrite (intersect_stay _ _ _ _ _ _ _ _ _ He Hts). apply rep_accumulating; lia.
      * rewrite (intersect_leave _ _ _ _ _ _ _ _ _ He Hts). now apply rep_idle.
  - rewrite elapse_no_timer, intersect_unobserved. cbn [advance].
    apply rep_fired. lia.
Qed.

(** A whole timeline keeps it so. *)
Lemma represents_timeline (origin : Z) (tl : list (Z * Entry)) :
  0 < origin ->
  forall p t w,
    0 <= t -> ordered t tl = true -> represents origin p t w ->
    exists t', represents origin (fold_left observe tl p) t'
                 (run w (timeline_events origin 0%nat tl)).
Proof.
  intros Ho. induction tl as [|[t1 e] rest IH]; intros p t w Ht Hord Hrep.
  - exists t. exact Hrep.
  - cbn [ordered fst] in Hord. apply andb_prop in Hord as [Hle Hrest].
    apply Z.leb_le in Hle.
    cbn [timeline_events flat_map app fold_left]. unfold run. cbn [fold_left].
    apply (IH (observe p (t1, e)) t1); [lia | exact Hrest|].
    apply (represents_observe origin p t); [exact Ho | lia | exact Hle | exact Hrep].
Qed.

(** What has fired when the clock reaches the horizon. *)
Lemma represents_horizon (origin : Z) (p : Phase) (t : Z) (w : World) (horizon : Z) :
  represents origin p t w ->
  rev (map (fun f => f_time f - origin)
         (filter (fun f => f_element f = 0%nat)
            (firings (step w (Elapse (origin + horizon))))))
  = fired_at (advance p horizon).
Proof.
  intros Hrep.
  destruct Hrep as [F t vs vt nxt Hvs Hn | F t s id nxt Hs Hne Hid Hn | F t tc a vs vt nxt Ha].
  - rewrite elapse_no_timer. reflexivity.
  - rewrite elapse_one_timer. cbn [advance].
    destruct (Z.leb_spec (origin + s + DURATION) (origin + horizon)) as [Hdue|Hnot];
      destruct (Z.leb_spec (s + DURATION) horizon) as [Hdue'|Hnot']; try lia.
    + cbn [firings single]. rewrite filter_cons.
      destruct (decide _) as [_|Hno]; [|now destruct Hno].
      rewrite filter_nil. cbn [map rev app f_time fired_at]. f_equal. lia.
    + reflexivity.
  - rewrite elapse_no_timer. cbn [firings single advance fired_at]. rewrite filter_cons.
    destruct (decide _) as [_|Hno]; [|now destruct Hno].
    rewrite filter_nil. cbn [map rev app f_time]. f_equal. lia.
Qed.

End DwellRefinement.

(** X5.  On a page whose clock is positive, for reports that come in the
    order of their times, the billable callback of an element has run, when
    the clock reaches the horizon, exactly as the three-state machine says:
    once, [DURATION] after the first change from not viewable to viewable
    that no report of not viewable followed within [DURATION]; not at all
    when there is no such change before the horizon. *)
Theorem tracker_is_dwell_machine
    (origin : Z) (tl : list (Z * Viewability.Entry)) (horizon : Z) :
  (0 < origin)%Z -> Dwell.ordered 0 tl = true ->
  Viewability.firing_times origin tl horizon = Dwell.fired_at (Dwell.phase_after tl horizon).
Proof.
  intros Ho Hord. unfold Viewability.firing_times, Dwell.phase_after.
  change (Viewability.run (Viewability.init origin)
            (Viewability.Register 0%nat 0%nat
             :: Viewability.timeline_events origin 0%nat tl
                ++ [Viewability.Elapse (origin + horizon)]))
    with (Viewability.run
            (Viewability.step (Viewability.init origin) (Viewability.Register 0%nat 0%nat))
            (Viewability.timeline_events origin 0%nat tl
             ++ [Viewability.Elapse (origin + horizon)])).
  unfold Viewability.run at 1. rewrite fold_left_app. cbn [fold_left].
  destruct (represents_timeline origin tl Ho Dwell.Idle 0 _ (Z.le_refl 0) Hord
              (represents_start origin)) as [t' Hrep].
  exact (represents_horizon origin _ t' _ horizon Hrep).
Qed.

(** X5, witness: viewable at 0, dropped at 400, viewable again at 500 and
    still viewable at 900, on a page whose clock reads 7 ms. *)
Lemma tracker_is_dwell_machine_witness :
  Viewability.firing_times 7
    [ Viewability.visible 0 (6 # 10); Viewability.visible 400 (4 # 10);
      Viewability.visible 500 (6 # 10); Viewability.visible 900 1 ] 2000
  = [1500%Z].
Proof.
  exact (tracker_is_dwell_machine 7
           [ Viewability.visible 0 (6 # 10); Viewability.visible 400 (4 # 10);
             Viewability.visible 500 (6 # 10); Viewability.visible 900 1 ] 2000
           eq_refl eq_refl).
Defined.

(** ** Leaving the page *)

Section DwellUnload.
Import Viewability Dwell.
Local Open Scope Z_scope.

Lemma stopped_step (w : World) (ev : Event) :
  after_unload ev = true -> stopped w ->
  stopped (step w ev) /\ firings (step w ev) = firings w.
Proof.
  intros Hev (F & t0 & vs & vt & trig & nxt & ->). cbn [firings single].
  destruct ev as [el cb | el e | k e | t | ]; try discriminate.
  - assert (E : step (single F t0 (unloaded0 vs vt trig) [] nxt (firings w)) (Intersect el e)
               = single F t0 (unloaded0 vs vt trig) [] nxt (firings w)).
    { unfold step, single, unloaded0. cbn [trackers watchers observing element].
      now rewrite andb_false_r. }
    rewrite E. split; [|reflexivity]. now exists F, t0, vs, vt, trig, nxt.
  - rewrite elapse_no_timer. split; [|reflexivity].
    now exists F, (Z.max t0 t), vs, vt, trig, nxt.
  - assert (E : step (single F t0 (unloaded0 vs vt trig) [] nxt (firings w)) Unload
               = single F t0 (unloaded0 vs vt trig) [] nxt (firings w)) by reflexivity.
    rewrite E. split; [|reflexivity]. now exists F, t0, vs, vt, trig, nxt.
Qed.

Lemma stopped_run (evs : list Event) :
  forallb after_unload evs = true ->
  forall w, stopped w -> firings (run w evs) = firings w.
Proof.
  induction evs as [|ev evs IH]; intros Hevs w Hw; [reflexivity|].
  cbn [forallb] in Hevs. apply andb_prop in Hevs as [Hev Hevs].
  change (run w (ev :: evs)) with (run (step w ev) evs).
  destruct (stopped_step w ev Hev Hw) as [Hst E]. now rewrite (IH Hevs _ Hst), E.
Qed.

Lemma unload_single (F : gset Element) (t : Z) (vs : option Z) (vt : option nat)
    (trig obs : bool) (tms : list Timer) (nxt : nat) (fs : list Firing) :
  step (single F t (tracker0 vs vt trig obs) tms nxt fs) Unload
  = single F t (unloaded0 vs vt trig)
      (match vt with
       | Some i => if truthy_timeout vt then filter (fun tm => timer_id tm ≠ i) tms else tms
       | None => tms
       end) nxt fs.
Proof.
  unfold step, onUnload, single, tracker0, unloaded0.
  cbn -[truthy_timeout]. destruct vt as [i|]; [|reflexivity].
  destruct (truthy_timeout (Some i)); reflexivity.
Qed.

(** [beforeunload] stops the tracker, whatever its phase, and runs no
    callback. *)
Lemma represents_unload (origin : Z) (p : Phase) (t : Z) (w : World) :
  represents origin p t w ->
  stopped (step w Unload) /\ fired_times origin (step w Unload) = fired_at p.
Proof.
  intros Hrep.
  destruct Hrep as [F t vs vt nxt Hvs Hn | F t s id nxt Hs Hne Hid Hn | F t tc a vs vt nxt Ha];
    rewrite unload_single.
  - assert (E : match vt with
                | Some i => if truthy_timeout vt
                            then filter (fun tm : Timer => timer_id tm ≠ i) [] else []
                | None => []
                end = []).
    { destruct vt; [destruct (truthy_timeout _)|]; reflexivity. }
    rewrite E. split; [|reflexivity].
    now exists F, (origin + t), vs, vt, false, nxt.
  - assert (Ht : truthy_timeout (Some id) = true).
    { unfold truthy_timeout. apply negb_true_iff, Nat.eqb_neq. lia. }
    rewrite Ht, filter_cons. cbn [timer_id].
    destruct (decide (id <> id)) as [H|_]; [congruence|]. rewrite filter_nil.
    split; [|reflexivity].
    now exists F, (origin + t), (Some (origin + s)), (Some id), false, nxt.
  - assert (E : match vt with
                | Some i => if truthy_timeout vt
                            then filter (fun tm : Timer => timer_id tm ≠ i) [] else []
                | None => []
                end = []).
    { destruct vt; [destruct (truthy_timeout _)|]; reflexivity. }
    rewrite E. split.
    + now exists F, tc, vs, vt, true, nxt.
    + unfold fired_times. cbn [firings single]. rewrite filter_cons.
      destruct (decide _) as [_|Hno]; [|now destruct Hno].
      rewrite filter_nil. cbn [map rev app f_time fired_at]. f_equal. lia.
Qed.

End DwellUnload.

(** X6.  On a page whose clock is positive, [beforeunload] cancels the
    dwell in progress: as long as no entry that was queued for the observer
    before the unload is delivered after it, no visibility change, no
    passing of time and no further unload makes the callback run, so that
    what has run is what had run by the last report.  The delivery of such
    an entry is the exception: the observer's callback sets a new timer,
    which the listener, bound once, is no longer there to clear. *)
Theorem unload_cancels_dwell
    (origin : Z) (tl : list (Z * Viewability.Entry)) (later : list Viewability.Event) :
  (0 < origin)%Z -> Dwell.ordered 0 tl = true ->
  forallb Dwell.after_unload later = true ->
  Dwell.fired_times origin
    (Viewability.run (Viewability.init origin)
       (Viewability.Register 0%nat 0%nat
        :: Viewability.timeline_events origin 0%nat tl ++ Viewability.Unload :: later))
  = Dwell.fired_at (fold_left Dwell.observe tl Dwell.Idle)
  /\ Dwell.fired_times 7
       (Viewability.run (Viewability.init 7)
          [ Viewability.Register 0%nat 0%nat; Viewability.Unload;
            Viewability.Notify 0%nat (snd (Viewability.visible 0 1));
            Viewability.Elapse 5000 ])
     = [1000%Z].
Proof.
  intros Ho Hord Hlater. split; [|vm_compute; reflexivity].
  change (Viewability.run (Viewability.init origin)
            (Viewability.Register 0%nat 0%nat :: ?l))
    with (Viewability.run
            (Viewability.step (Viewability.init origin) (Viewability.Register 0%nat 0%nat)) l).
  unfold Viewability.run at 1. rewrite fold_left_app.
  destruct (represents_timeline origin tl Ho Dwell.Idle 0 _ (Z.le_refl 0) Hord
              (represents_start origin)) as [t' Hrep].
  unfold Viewability.run in Hrep.
  set (w := fold_left Viewability.step (Viewability.timeline_events origin 0%nat tl)
              (Viewability.step (Viewability.init origin) (Viewability.Register 0%nat 0%nat)))
    in *.
  destruct (represents_unload origin _ t' w Hrep) as [Hst Hfired].
  cbn [fold_left].
  pose proof (stopped_run later Hlater _ Hst) as E. unfold Viewability.run in E.
  unfold Dwell.fired_times in *. now rewrite E.
Qed.

(** X6, witness: viewable at 0, the page is left at 600 ms; the element
    is reported viewable again and ten seconds pass. *)
Lemma unload_cancels_dwell_witness :
  Dwell.fired_times 7
    (Viewability.run (Viewability.init 7)
       (Viewability.Register 0%nat 0%nat
        :: Viewability.timeline_events 7 0%nat
             [ Viewability.visible 0 1; Viewability.visible 600 1 ]
           ++ Viewability.Unload
              :: [ Viewability.Intersect 0%nat (snd (Viewability.visible 700 1));
                   Viewability.Unload; Viewability.Elapse 10000 ]))
  = [].
Proof.
  exact (proj1 (unload_cancels_dwell 7 [ Viewability.visible 0 1; Viewability.visible 600 1 ]
                  [ Viewability.Intersect 0%nat (snd (Viewability.visible 700 1));
                    Viewability.Unload; Viewability.Elapse 10000 ]
                  eq_refl eq_refl eq_refl)).
Defined.

(** ** Beacons and clicks *)

Section BeaconFacts.
Import JS Async Net Listeners.
Local Open Scope Z_scope.

Lemma sendImpression_length (url : option string) : (length (sendImpression url) <= 1)%nat.
Proof.
  unfold sendImpression. destruct url as [u|]; [destruct (truthy_str u)|]; cbn; lia.
Qed.

Lemma billable_requests_cases (w : Viewability.World) (el : Viewability.Element)
    (beacons : list string) :
  (Viewability.fired_count w el <= 1)%nat ->
  billable_requests w el beacons = [] \/ billable_requests w el beacons = beacons.
Proof.
  unfold Viewability.fired_count, billable_requests.
  destruct (filter _ _) as [|f [|g rest]]; cbn [length map concat]; intros H.
  - now left.
  - right. apply app_nil_r.
  - lia.
Qed.

(** The journey URL is never empty. *)
Lemma journeyUrl_truthy (r : BidResponse) (event : string) :
  truthy_str (Render.journeyUrl r event) = true.
Proof. reflexivity. Qed.

End BeaconFacts.

(** X7.  [sendImpression] never rejects: a beacon that fails in transport
    fulfils its promise like one that was answered, at the time of the
    failure, and one that is never answered leaves it pending.  It issues
    one GET without credentials for a URL that is present and not empty, and
    for any other URL nothing: the promise is then fulfilled at once. *)
Theorem beacon_never_rejects (t0 : Z) (url : option string) (ep : Net.Endpoint) :
  (forall t e, fst (Listeners.sendImpressionAt t0 url ep) <> Some (t, Async.Rejected e))
  /\ map Net.fc_url (snd (Listeners.sendImpressionAt t0 url ep)) = Net.sendImpression url
  /\ Forall (fun c => Net.fc_init c = Listeners.beaconInit
                      /\ Net.method (Net.fc_init c) = "GET"
                      /\ Net.credentials (Net.fc_init c) = Some "omit")
       (snd (Listeners.sendImpressionAt t0 url ep))
  /\ fst (Listeners.sendImpressionAt t0 url ep)
     = match Net.sendImpression url, ep with
       | [], _ => Some (t0, Async.Fulfilled tt)
       | _, Net.Responds l _ _ => Some ((t0 + l)%Z, Async.Fulfilled tt)
       | _, Net.TransportFailure l => Some ((t0 + l)%Z, Async.Fulfilled tt)
       | _, Net.Silent => None
       end.
Proof.
  unfold Listeners.sendImpressionAt, Net.sendImpression.
  destruct url as [u|]; [destruct (JS.truthy_str u)|];
    cbn [fst snd map Net.fc_url]; repeat split; try discriminate; try (now constructor).
  - intros t e. destruct ep; cbn; discriminate.
  - destruct ep; reflexivity.
Qed.

(** X8.  Whatever happens on the page (registrations, visibility reports,
    clock advances, unloads), the requests sent by the billable callback of
    an element are none or those of one run: the brand and testing
    variants request the billable impression URL once at most, the ORTB
    variant its journey event and billing URL once each at most. *)
Theorem billable_beacons_at_most_once
    (origin : Z) (evs : list Viewability.Event) (el : Viewability.Element)
    (beacons : list string) (ad : BidResponse) (b : Bid) (r : BidResponse) :
  let w := Viewability.run (Viewability.init origin) evs in
  (Listeners.billable_requests w el beacons = []
   \/ Listeners.billable_requests w el beacons = beacons)
  /\ (length (Listeners.billable_requests w el (Listeners.onBillable ad)) <= 1)%nat
  /\ (length (Listeners.billable_requests w el (Render.ortbOnBillable b r)) <= 2)%nat.
Proof.
  intros w.
  assert (Hone : (Viewability.fired_count w el <= 1)%nat).
  { apply consistent_at_most_once, run_consistent, init_consistent. }
  split; [now apply billable_requests_cases|]. split.
  - destruct (billable_requests_cases w el (Listeners.onBillable ad) Hone) as [-> | ->];
      [cbn; lia|].
    unfold Listeners.onBillable. destruct (tracking ad); [apply sendImpression_length | cbn; lia].
  - destruct (billable_requests_cases w el (Render.ortbOnBillable b r) Hone) as [-> | ->];
      [cbn; lia|].
    unfold Render.ortbOnBillable. rewrite length_app.
    pose proof (sendImpression_length (Some (Render.journeyUrl r Render.BILLED_IMPRESSION))).
    destruct (JS.truthy_ostr (burl b)).
    + pose proof (sendImpression_length
                    (Some (Macro.replaceAuctionMacros (JS.or_str (burl b) "") r))). lia.
    + cbn [length]. lia.
Qed.

(** X9.  A click on a brand or testing creative whose click tracker is
    configured sends one GET to the tracker and navigates 100 ms after the
    tracker's answer or failure: the fallback that redirects at once "in
    case tracking fails" never runs, and while the tracker does not answer
    the visitor is not taken to the destination.  The brand variant goes to
    the first non-empty of the tracking destination, the landing page and
    the click URL of the creative, the testing variant to the tracking
    destination, and both to "#" when there is none. *)
Theorem tracked_click_waits_for_beacon
    (t0 : Z) (ad : BidResponse) (tr : Tracking) (u : string) (ep : Net.Endpoint) :
  tracking ad = Some tr -> click_url tr = Some u -> JS.truthy_str u = true ->
  let get := [ {| Net.fc_url := u; Net.fc_init := Listeners.beaconInit |} ] in
  Listeners.brandOnClick t0 ad ep
  = match ep with
    | Net.Responds l _ _ | Net.TransportFailure l =>
        Listeners.Navigates (t0 + l + 100) (Listeners.brandDestination ad tr) get
    | Net.Silent => Listeners.NeverNavigates get
    end
  /\ Listeners.testingOnClick t0 ad ep
     = match ep with
       | Net.Responds l _ _ | Net.TransportFailure l =>
           Listeners.Navigates (t0 + l + 100) (JS.or_str (destination_url tr) "#") get
       | Net.Silent => Listeners.NeverNavigates get
       end.
Proof.
  intros Htr Hu Ht get.
  unfold Listeners.brandOnClick, Listeners.testingOnClick, Listeners.sendImpressionAt.
  rewrite Htr, Hu. cbn [JS.truthy_ostr]. rewrite Ht.
  destruct ep; split; reflexivity.
Qed.

(** X9, witness: a tracker that fails in transport after 30 ms. *)
Lemma tracked_click_waits_for_beacon_witness :
  Listeners.brandOnClick 1000
    {| ad_type := Some "brand"; resp_id := None; bidid := None; cur := None; seatbid := [];
       full_file_path := Some "https://cdn.example/banner.png"; creative_type := Some "image";
       brand_name := None;
       tracking := Some {| impression_url := None; billable_impression_url := None;
                           click_url := Some "https://t.example/c";
                           destination_url := None |};
       landing_page_url := Some "https://shop.example/"; ad_click_url := None |}
    (Net.TransportFailure 30)
  = Listeners.Navigates 1130 "https://shop.example/"
      [ {| Net.fc_url := "https://t.example/c"; Net.fc_init := Listeners.beaconInit |} ].
Proof.
  exact (proj1 (tracked_click_waits_for_beacon 1000
                  {| ad_type := Some "brand"; resp_id := None; bidid := None; cur := None;
                     seatbid := [];
                     full_file_path := Some "https://cdn.example/banner.png";
                     creative_type := Some "image"; brand_name := None;
                     tracking := Some {| impression_url := None;
                                         billable_impression_url := None;
                                         click_url := Some "https://t.example/c";
                                         destination_url := None |};
                     landing_page_url := Some "https://shop.example/";
                     ad_click_url := None |}
                  {| impression_url := None; billable_impression_url := None;
                     click_url := Some "https://t.example/c"; destination_url := None |}
                  "https://t.example/c"
                  (Net.TransportFailure 30) eq_refl eq_refl eq_refl)).
Defined.

(** X10.  An ORTB creative whose markup has an image but no link (or a
    link without address) is rendered with the anchor pointing to "#", yet a
    click on it navigates, 100 ms later and whatever becomes of the journey
    request, to the address "null": the listener assigns [urls.clickUrl]
    itself, without the fallback the anchor got. *)
Theorem ortb_click_without_link
    (parse : option string -> Markup.Parsed) (el : Render.SlotElement)
    (r : BidResponse) (b : Bid) (t0 : Z) (ep : Net.Endpoint) :
  firstBid r = Some b ->
  JS.truthy_ostr (Markup.anchor_href (parse (adm b))) = false ->
  JS.truthy_ostr (Markup.img_src (parse (adm b))) = true ->
  (exists c, Render.inner (Render.renderOrtbAd (Markup.extractUrls parse) el r) = Render.Ad c
             /\ Render.href c = "#")
  /\ Listeners.ortbOnClick t0 (Markup.extractUrls parse (adm b)) r ep
     = Listeners.Navigates (t0 + 100) "null"
         [ {| Net.fc_url := Render.journeyUrl r Render.CLICK;
              Net.fc_init := Listeners.beaconInit |} ].
Proof.
  intros Hb Ha Hi. split.
  - unfold Render.renderOrtbAd. rewrite Hb. unfold Markup.extractUrls.
    cbn [Render.imageUrl Render.clickUrl]. unfold Markup.falsy_to_null. rewrite Ha, Hi.
    rewrite Hi. cbn [negb Render.set_inner Render.inner]. eexists. split; reflexivity.
  - unfold Listeners.ortbOnClick, Markup.extractUrls, Markup.falsy_to_null.
    cbn [Render.clickUrl]. rewrite Ha. unfold Listeners.sendImpressionAt.
    rewrite journeyUrl_truthy. reflexivity.
Qed.

(** X10, witness: the markup is a bare image. *)
Lemma ortb_click_without_link_witness :
  Listeners.ortbOnClick 0
    (Markup.extractUrls
       (fun _ => {| Markup.anchor_href := None;
                    Markup.img_src := Some "https://cdn.example/a.png";
                    Markup.img_onload := None |}) None)
    (Macro.response_of (Some "r1") Macro.no_bid) Net.Silent
  = Listeners.Navigates 100 "null"
      [ {| Net.fc_url := Render.journeyUrl (Macro.response_of (Some "r1") Macro.no_bid) Render.CLICK;
           Net.fc_init := Listeners.beaconInit |} ].
Proof.
  exact (proj2 (ortb_click_without_link
                  (fun _ => {| Markup.anchor_href := None;
                               Markup.img_src := Some "https://cdn.example/a.png";
                               Markup.img_onload := None |})
                  Render.fresh (Macro.response_of (Some "r1") Macro.no_bid) Macro.no_bid 0 Net.Silent
                  eq_refl eq_refl eq_refl)).
Defined.

(** ** The impression URL of the markup *)

Section MarkupFacts.
Import JS Device Markup.

Lemma prefix_drop (p s : string) :
  String.prefix p s = true -> s = p ++ drop_str (String.length p) s.
Proof.
  revert s. induction p as [|a p IH]; intros s H; [now destruct s|].
  destruct s as [|b s]; [discriminate|].
  rewrite prefix_cons in H. destruct (ascii_dec a b) as [->|]; [|discriminate].
  cbn [String.length drop_str]. change (String b p ++ drop_str (String.length p) s)
    with (String b (p ++ drop_str (String.length p) s)).
  f_equal. now apply IH.
Qed.

Lemma drop_append (u x : string) : drop_str (String.length u) (u ++ x) = x.
Proof. induction u as [|c u IH]; [now destruct x | exact IH]. Qed.

Lemma take_while_all (f : ascii -> bool) (s : string) :
  all_chars f (take_while f s) = true.
Proof.
  induction s as [|c s IH]; [reflexivity|]. cbn [take_while].
  destruct (f c) eqn:E; [|reflexivity]. cbn [all_chars]. now rewrite E, IH.
Qed.

Lemma take_while_split (f : ascii -> bool) (s : string) :
  s = take_while f s ++ drop_str (String.length (take_while f s)) s.
Proof.
  induction s as [|c s IH]; [reflexivity|]. cbn [take_while].
  destruct (f c); [|reflexivity]. cbn [String.length drop_str].
  change (String c (take_while f s) ++ ?x) with (String c (take_while f s ++ x)).
  now f_equal.
Qed.

(** A run of characters of the class, ended by one that is not. *)
Lemma take_while_stop (f : ascii -> bool) (u : string) (c : ascii) (x : string) :
  all_chars f u = true -> f c = false -> take_while f (u ++ String c x) = u.
Proof.
  intros Hu Hc. induction u as [|d u IH]; cbn [all_chars] in Hu.
  - change ("" ++ String c x) with (String c x). cbn [take_while]. now rewrite Hc.
  - apply andb_prop in Hu as [Hd Hu].
    change (String d u ++ String c x) with (String d (u ++ String c x)).
    cbn [take_while]. rewrite Hd. f_equal. now apply IH.
Qed.

Lemma sendUrl_match_head (u post : string) :
  u <> "" -> all_chars not_quote u = true ->
  sendUrl_match ("sendUrl('" ++ u ++ "')" ++ post) = Some u.
Proof.
  intros Hne Hu.
  change ("sendUrl('" ++ u ++ "')" ++ post)
    with (String "s" ("endUrl('" ++ u ++ "')" ++ post)).
  cbn [sendUrl_match].
  change (String "s" ("endUrl('" ++ u ++ "')" ++ post))
    with ("sendUrl('" ++ (u ++ "')" ++ post)).
  rewrite prefix_append.
  change (drop_str 9 ("sendUrl('" ++ (u ++ "')" ++ post))) with (u ++ "')" ++ post).
  cbv zeta.
  change (u ++ "')" ++ post) with (u ++ String "'" (String ")" post)).
  rewrite (take_while_stop not_quote u "'" _ Hu eq_refl), drop_append.
  change (String "'" (String ")" post)) with ("')" ++ post). rewrite prefix_append.
  destruct u as [|c u]; [congruence | reflexivity].
Qed.

End MarkupFacts.

(** X11.  The impression URL read off an [onload] attribute: whatever is
    returned is not empty, holds no quote, and stands in the attribute
    between [sendUrl('] and [')]; an attribute that holds such a call
    anywhere yields a URL, and one that begins with the call yields the URL
    of that call. *)
Theorem sendUrl_match_spec (s : string) :
  (forall u, Markup.sendUrl_match s = Some u ->
     u <> "" /\ Device.all_chars Markup.not_quote u = true
     /\ exists pre post, s = pre ++ "sendUrl('" ++ u ++ "')" ++ post)
  /\ (forall pre u post,
        u <> "" -> Device.all_chars Markup.not_quote u = true ->
        s = pre ++ "sendUrl('" ++ u ++ "')" ++ post ->
        exists v, Markup.sendUrl_match s = Some v
                  /\ (pre = "" -> v = u)).
Proof.
  split.
  - induction s as [|c r IH]; intros u; [discriminate|].
    cbn [Markup.sendUrl_match].
    destruct (String.prefix "sendUrl('" (String c r)) eqn:Hp.
    + cbv zeta.
      set (rest := JS.drop_str 9 (String c r)).
      set (v := Device.take_while Markup.not_quote rest).
      destruct (JS.truthy_str v && String.prefix "')" (JS.drop_str (String.length v) rest))
        eqn:Hok.
      * intros [= <-]. apply andb_prop in Hok as [Hv Hq]. repeat split.
        -- intros E. rewrite E in Hv. discriminate.
        -- apply take_while_all.
        -- exists "", (JS.drop_str 2 (JS.drop_str (String.length v) rest)).
           change ("" ++ ?x) with x.
           rewrite (prefix_drop _ _ Hp) at 1. f_equal.
           change (JS.drop_str (String.length "sendUrl('") (String c r)) with rest.
           rewrite (take_while_split Markup.not_quote rest) at 1. fold v. f_equal.
           exact (prefix_drop _ _ Hq).
      * intros H. destruct (IH u H) as (Hne & Hall & pre & post & ->).
        repeat split; [exact Hne | exact Hall|]. now exists (String c pre), post.
    + intros H. destruct (IH u H) as (Hne & Hall & pre & post & ->).
      repeat split; [exact Hne | exact Hall|]. now exists (String c pre), post.
  - intros pre. revert s. induction pre as [|c pre IH]; intros s u post Hne Hu ->.
    + change ("" ++ ?x) with x. exists u. split; [now apply sendUrl_match_head | reflexivity].
    + change (String c pre ++ ?x) with (String c (pre ++ x)).
      destruct (IH _ u post Hne Hu eq_refl) as (v & Hv & _).
      cbn [Markup.sendUrl_match]. cbv zeta.
      destruct (String.prefix "sendUrl('" _).
      * destruct (_ && _); eexists; (split; [first [reflexivity | exact Hv] | discriminate]).
      * exists v. split; [exact Hv | discriminate].
Qed.

(** ** Device detection and the configuration *)

Section DeviceFacts.
Import JS Device.

Lemma lower_idem (c : ascii) : lower (lower c) = lower c.
Proof. destruct c as [[] [] [] [] [] [] [] []]; reflexivity. Qed.

Lemma prefix_ci_lower (p s : string) : prefix_ci p (lower_str s) = prefix_ci p s.
Proof.
  revert s. induction p as [|a p IH]; intros s; [reflexivity|].
  destruct s as [|b s]; [reflexivity|]. cbn [lower_str prefix_ci].
  now rewrite lower_idem, IH.
Qed.

Lemma contains_ci_unfold (p : string) (c : ascii) (s : string) :
  contains_ci p (String c s) = prefix_ci p (String c s) || contains_ci p s.
Proof. reflexivity. Qed.

Lemma contains_ci_lower (p s : string) : contains_ci p (lower_str s) = contains_ci p s.
Proof.
  induction s as [|b s IH].
  - reflexivity.
  - change (lower_str (String b s)) with (String (lower b) (lower_str s)).
    rewrite !contains_ci_unfold, IH.
    change (String (lower b) (lower_str s)) with (lower_str (String b s)).
    now rewrite prefix_ci_lower.
Qed.

Lemma test_any_lower (ps : list string) (s : string) :
  test_any ps (lower_str s) = test_any ps s.
Proof.
  unfold test_any. induction ps as [|p ps IH]; [reflexivity|].
  cbn [existsb]. now rewrite contains_ci_lower, IH.
Qed.

Lemma detectDeviceType_lower (ua : string) :
  detectDeviceType (lower_str ua) = detectDeviceType ua.
Proof. unfold detectDeviceType. now rewrite !test_any_lower. Qed.

Lemma prefix_ci_app (p s post : string) :
  prefix_ci p s = true -> prefix_ci p (s ++ post) = true.
Proof.
  revert s. induction p as [|a p IH]; intros s H; [reflexivity|].
  destruct s as [|b s]; [discriminate|].
  change (String b s ++ post) with (String b (s ++ post)). cbn [prefix_ci] in *.
  apply andb_prop in H as [-> H]. now rewrite (IH _ H).
Qed.

Lemma contains_ci_app_r (p s post : string) :
  contains_ci p s = true -> contains_ci p (s ++ post) = true.
Proof.
  induction s as [|b s IH].
  - cbn [contains_ci]. rewrite orb_false_r. intros H.
    destruct p; [|discriminate]. destruct post; reflexivity.
  - change (String b s ++ post) with (String b (s ++ post)).
    rewrite !contains_ci_unfold. intros H. apply orb_prop in H as [H|H].
    + change (String b (s ++ post)) with (String b s ++ post).
      now rewrite (prefix_ci_app _ _ post H).
    + rewrite (IH H). apply orb_true_r.
Qed.

Lemma contains_ci_app_l (p pre s : string) :
  contains_ci p s = true -> contains_ci p (pre ++ s) = true.
Proof.
  intros H. induction pre as [|c pre IH]; [exact H|].
  change (String c pre ++ s) with (String c (pre ++ s)).
  rewrite contains_ci_unfold, IH. apply orb_true_r.
Qed.

Lemma test_any_embed (ps : list string) (pre s post : string) :
  test_any ps s = true -> test_any ps (pre ++ s ++ post) = true.
Proof.
  unfold test_any. rewrite !existsb_exists. intros (p & Hin & Hp).
  exists p. split; [exact Hin|]. now apply contains_ci_app_l, contains_ci_app_r.
Qed.

(** What [os_version_match] returns stands in the text after "OS ". *)
Lemma os_version_match_sound (s v : string) :
  os_version_match s = Some v ->
  v <> "" /\ all_chars version_char v = true
  /\ exists pre post, s = pre ++ "OS " ++ v ++ post.
Proof.
  induction s as [|c r IH]; [discriminate|]. cbn [os_version_match].
  destruct (String.prefix "OS " (String c r)) eqn:Hp.
  - set (rest := drop_str 3 (String c r)).
    destruct (take_while version_char rest) as [|d w] eqn:Hw.
    + intros H. destruct (IH H) as (Hne & Hall & pre & post & ->).
      repeat split; [exact Hne | exact Hall|]. now exists (String c pre), post.
    + intros [= <-]. repeat split; [discriminate | |].
      * rewrite <- Hw. apply take_while_all.
      * exists "", (drop_str (String.length (String d w)) rest).
        change ("" ++ ?x) with x. rewrite (prefix_drop _ _ Hp) at 1. f_equal.
        change (drop_str (String.length "OS ") (String c r)) with rest.
        rewrite <- Hw. apply take_while_split.
  - intros H. destruct (IH H) as (Hne & Hall & pre & post & ->).
    repeat split; [exact Hne | exact Hall|]. now exists (String c pre), post.
Qed.

Lemma or_str_truthy (a : option string) (b : string) :
  truthy_str b = true -> truthy_str (or_str a b) = true.
Proof.
  intros Hb. unfold or_str. destruct a as [s|]; [|exact Hb].
  destruct (truthy_str s) eqn:E; [exact E | exact Hb].
Qed.

End DeviceFacts.

(** X12.  Device detection looks at the user agent letter case apart: two
    user agents that differ in the case of ASCII letters only are given the
    same device type. *)
Theorem device_type_ignores_case (ua ua' : string) :
  Device.lower_str ua = Device.lower_str ua' ->
  Device.detectDeviceType ua = Device.detectDeviceType ua'.
Proof.
  intros H. rewrite <- (detectDeviceType_lower ua), <- (detectDeviceType_lower ua').
  now rewrite H.
Qed.

(** X12, witness. *)
Lemma device_type_ignores_case_witness :
  Device.detectDeviceType "Mozilla/5.0 (IPAD; CPU OS 17_4)"
  = Device.detectDeviceType "mozilla/5.0 (iPad; cpu os 17_4)".
Proof.
  exact (device_type_ignores_case "Mozilla/5.0 (IPAD; CPU OS 17_4)"
           "mozilla/5.0 (iPad; cpu os 17_4)" eq_refl).
Defined.

(** X13.  The mobile words win over everything else: a user agent that
    holds a user agent classified as phone or tablet is itself classified as
    phone or tablet, never as TV, computer or other device, and one that
    holds a user agent classified as tablet is a tablet. *)
Theorem device_type_mobile_first (pre ua post : string) :
  (Device.val (Device.detectDeviceType ua) = 5%Z ->
   Device.detectDeviceType (pre ++ ua ++ post) = {| Device.name := "Tablet"; Device.val := 5 |})
  /\ (Device.val (Device.detectDeviceType ua) = 4%Z ->
      Device.detectDeviceType (pre ++ ua ++ post) = {| Device.name := "Tablet"; Device.val := 5 |}
      \/ Device.detectDeviceType (pre ++ ua ++ post)
         = {| Device.name := "Phone"; Device.val := 4 |}).
Proof.
  unfold Device.detectDeviceType.
  destruct (Device.test_any Device.mobile_words ua) eqn:Hm.
  - rewrite (test_any_embed _ pre ua post Hm).
    destruct (Device.test_any Device.tablet_words ua) eqn:Ht.
    + rewrite (test_any_embed _ pre ua post Ht). split; [reflexivity | discriminate].
    + split; [discriminate|]. intros _.
      destruct (Device.test_any Device.tablet_words (pre ++ ua ++ post)); auto.
  - destruct (Device.test_any Device.tv_words ua);
      [|destruct (Device.test_any Device.desktop_words ua)]; split; discriminate.
Qed.

(** X14.  The configuration written at [DOMContentLoaded] is complete
    whatever the browser reports: the device type is one of the five codes
    2 to 6, make, model and operating system are never empty (an empty or
    missing property reads "Unknown"), and the operating system version is
    "Unknown" or the run of digits and underscores that follows "OS " at
    some place of the user agent. *)
Theorem config_is_complete (nav : Device.Navigator) :
  let cfg := Device.initializeAdSystemConfig nav in
  (2 <= Net.deviceType cfg <= 6)%Z
  /\ JS.truthy_str (Net.deviceMake cfg) = true
  /\ JS.truthy_str (Net.deviceModel cfg) = true
  /\ JS.truthy_str (Net.deviceOs cfg) = true
  /\ (Net.deviceOsVersion cfg = "Unknown"
      \/ (Net.deviceOsVersion cfg <> ""
          /\ Device.all_chars Device.version_char (Net.deviceOsVersion cfg) = true
          /\ exists pre post,
               Device.userAgent nav = pre ++ "OS " ++ Net.deviceOsVersion cfg ++ post)).
Proof.
  intros cfg. subst cfg. unfold Device.initializeAdSystemConfig.
  cbn [Net.deviceType Net.deviceMake Net.deviceModel Net.deviceOs Net.deviceOsVersion].
  repeat split; try (apply or_str_truthy; reflexivity).
  - unfold Device.detectDeviceType.
    repeat match goal with |- context [if ?b then _ else _] => destruct b end; cbn; lia.
  - unfold Device.detectDeviceType.
    repeat match goal with |- context [if ?b then _ else _] => destruct b end; cbn; lia.
  - destruct (Device.os_version_match (Device.userAgent nav)) as [v|] eqn:E; [|now left].
    destruct (os_version_match_sound _ _ E) as (Hne & Hall & pre & post & Hua).
    right. unfold JS.or_str.
    assert (Ht : JS.truthy_str v = true) by (destruct v; [congruence | reflexivity]).
    rewrite Ht. repeat split; [exact Hne | exact Hall|]. now exists pre, post.
Qed.

(** ** The run of [initialize] *)

Section RunFacts.
Import JS Async Net Render Orchestrator.
Local Open Scope Z_scope.

Variable extractUrls : option string -> Urls.
Variable pid : option string.

(** The test [width && height && slot_id] of a placeholder. *)
Lemma startSlot_calls (cfg : Config) (t0 : Z) (ph : Placeholder) (ep : Endpoint) :
  snd (startSlot extractUrls pid cfg t0 ph ep)
  = if truthy_int (parseInt_or_0 (data_width ph))
       && truthy_int (parseInt_or_0 (data_height ph))
       && truthy_int (parseInt_or_0 (data_slot_id ph))
    then [ {| fc_url := bidderUrl;
              fc_init := bidInit cfg
                           {| slot_id := parseInt_or_0 (data_slot_id ph);
                              width := parseInt_or_0 (data_width ph);
                              height := parseInt_or_0 (data_height ph) |} pid |} ]
    else [].
Proof.
  unfold startSlot. destruct (_ && _); [|reflexivity].
  destruct (loadAdForSlot _ _ _ _ _ _ _) as [p cs] eqn:E. cbn [snd].
  apply (f_equal snd) in E. rewrite loadAdForSlot_one_call in E. cbn [snd] in E.
  now rewrite <- E.
Qed.

(** When a pipeline settles: at once for a placeholder that is not
    started, with the answer or the failure of the bid request otherwise. *)
Lemma startSlot_time (cfg : Config) (t0 : Z) (ph : Placeholder) (ep : Endpoint) (L : Z) :
  0 <= L ->
  match ep with
  | Responds l _ _ | TransportFailure l => 0 <= l <= L
  | Silent => False
  end ->
  exists t o, pipeline (fst (startSlot extractUrls pid cfg t0 ph ep)) = Some (t, o)
              /\ t0 <= t <= t0 + L.
Proof.
  intros HL Hep. unfold startSlot.
  destruct (_ && _); [|cbn [fst pipeline]; eexists _, _; split; [reflexivity | lia]].
  unfold loadAdForSlot, makeBidRequest, fetch. cbn [signal bidInit fst pipeline].
  destruct ep as [l st payload| l |]; [| |contradiction].
  - destruct (negb (ok _)); [eexists _, _; split; [reflexivity | lia]|].
    cbn [json]. destruct payload; eexists _, _; (split; [reflexivity | lia]).
  - eexists _, _; split; [reflexivity | lia].
Qed.

Lemma allSettled_within {A} (from B : Z) (ps : list (Promise A)) :
  from <= B ->
  Forall (fun p => exists t o, p = Some (t, o) /\ t <= B) ps ->
  exists t, allSettled from ps = Some (t, Fulfilled tt) /\ from <= t <= B.
Proof.
  intros HB. induction ps as [|p ps IH]; intros H; cbn [allSettled].
  - exists from. split; [reflexivity | lia].
  - apply Forall_cons in H as [(ti & oi & -> & Hti) Hps].
    destruct (IH Hps) as (t' & -> & Ht'). exists (Z.max ti t'). split; [reflexivity | lia].
Qed.

(** The five polls of the configuration and the time the loop is left. *)
Lemma waitForConfig_cases (configAt : Z -> option Config) (t0 : Z) :
  let t1 := waitForConfig configAt maxRetries 0 t0 in
  (t1 = t0 /\ configAt t0 <> None)
  \/ (t1 = t0 + 500 /\ configAt t0 = None /\ configAt (t0 + 500) <> None)
  \/ (t1 = t0 + 1500 /\ configAt (t0 + 500) = None /\ configAt (t0 + 1500) <> None)
  \/ (t1 = t0 + 3500 /\ configAt (t0 + 1500) = None /\ configAt (t0 + 3500) <> None)
  \/ (t1 = t0 + 7500 /\ configAt (t0 + 3500) = None /\ configAt (t0 + 7500) <> None)
  \/ (t1 = t0 + 15500 /\ configAt (t0 + 7500) = None).
Proof.
  unfold maxRetries. cbn [waitForConfig]. unfold baseDelay.
  repeat match goal with
         | |- context [(2 ^ Z.of_nat ?n)%Z] =>
             let v := eval vm_compute in (2 ^ Z.of_nat n)%Z in
             change (2 ^ Z.of_nat n)%Z with v
         end.
  replace (t0 + 500 * 1) with (t0 + 500) by lia.
  replace (t0 + 500 + 500 * 2) with (t0 + 1500) by lia.
  replace (t0 + 1500 + 500 * 4) with (t0 + 3500) by lia.
  replace (t0 + 3500 + 500 * 8) with (t0 + 7500) by lia.
  replace (t0 + 7500 + 500 * 16) with (t0 + 15500) by lia.
  destruct (configAt t0) eqn:E0; [left; split; [reflexivity | discriminate]|].
  destruct (configAt (t0 + 500)) eqn:E1; [right; left; repeat split; discriminate|].
  destruct (configAt (t0 + 1500)) eqn:E2; [do 2 right; left; repeat split; discriminate|].
  destruct (configAt (t0 + 3500)) eqn:E3; [do 3 right; left; repeat split; discriminate|].
  destruct (configAt (t0 + 7500)) eqn:E4; [do 4 right; left; repeat split; discriminate|].
  do 5 right. split; reflexivity.
Qed.

End RunFacts.

(** X15.  Exponential backoff: when the configuration is there from some
    time [T] on and [T] is no later than 15.5 s after the call, the polling
    loop is left with the configuration defined, at once if it was there at
    the call and otherwise no later than 500 ms plus twice the time the
    configuration took to appear. *)
Theorem config_found_by_backoff
    (configAt : Z -> option Net.Config) (t0 T : Z) :
  (forall t, (T <= t)%Z -> configAt t <> None) -> (T <= t0 + 15500)%Z ->
  let t1 := Orchestrator.waitForConfig configAt Orchestrator.maxRetries 0 t0 in
  configAt t1 <> None
  /\ (t0 <= t1)%Z
  /\ (t1 - t0 <= Z.max 0 (2 * (T - t0) + 500))%Z.
Proof.
  intros Hav HT t1. subst t1.
  assert (Hlate : forall t, configAt t = None -> (t < T)%Z).
  { intros t E. destruct (Z.lt_ge_cases t T) as [|Hge]; [assumption|].
    exfalso. apply (Hav t); [lia | exact E]. }
  destruct (waitForConfig_cases configAt t0)
    as [[-> H] | [(-> & N & H) | [(-> & N & H) | [(-> & N & H) | [(-> & N & H) | [-> N]]]]]];
    try (apply Hlate in N); repeat split; try exact H; try lia.
  apply Hav. lia.
Qed.

(** X15, witness: the configuration appears 2 s after the call. *)
Lemma config_found_by_backoff_witness :
  (if (2000 <=?
       Orchestrator.waitForConfig
         (fun t => if (2000 <=? t)%Z then Some Net.sample_config else None)
         Orchestrator.maxRetries 0 0)%Z
   then Some Net.sample_config else None) <> None
  /\ (0 <= Orchestrator.waitForConfig
             (fun t => if (2000 <=? t)%Z then Some Net.sample_config else None)
             Orchestrator.maxRetries 0 0)%Z
  /\ (Orchestrator.waitForConfig
        (fun t => if (2000 <=? t)%Z then Some Net.sample_config else None)
        Orchestrator.maxRetries 0 0 - 0
      <= Z.max 0 (2 * (2000 - 0) + 500))%Z.
Proof.
  apply (config_found_by_backoff
           (fun t => if (2000 <=? t)%Z then Some Net.sample_config else None) 0 2000).
  - intros t Ht. destruct (Z.leb_spec 2000 t); [discriminate | lia].
  - lia.
Defined.

(** X16.  The run ends in bounded time when every bid request is answered
    or fails within [L] ms: the promise of [initialize] is fulfilled no
    later than 15.5 s plus [L] after the call, with or without
    configuration. *)
Theorem initialize_deadline
    (extractUrls : option string -> Render.Urls) (pid : option string)
    (configAt : Z -> option Net.Config) (t0 : Z) (net : nat -> Net.Endpoint)
    (phs : list Orchestrator.Placeholder) (L : Z) :
  (0 <= L)%Z ->
  (forall i, (i < length phs)%nat ->
     match net i with
     | Net.Responds l _ _ | Net.TransportFailure l => (0 <= l <= L)%Z
     | Net.Silent => False
     end) ->
  exists t,
    Orchestrator.result (Orchestrator.initialize extractUrls pid configAt t0 net phs)
    = Some (t, Async.Fulfilled tt)
    /\ (t0 <= t <= t0 + 15500 + L)%Z.
Proof.
  intros HL Hnet. pose proof (waitForConfig_bounded configAt t0) as Hw.
  unfold Orchestrator.initialize.
  set (t1 := Orchestrator.waitForConfig configAt Orchestrator.maxRetries 0 t0) in *.
  destruct (configAt t1) as [cfg|]; cbn [Orchestrator.result].
  - destruct (allSettled_within t1 (t1 + L)
                (map (fun s => Orchestrator.pipeline (fst s))
                   (Orchestrator.startSlots extractUrls pid cfg t1 net 0 phs)))
      as (t & Ht & Hb); [lia | |exists t; split; [exact Ht | lia]].
    apply Forall_map. apply startSlots_forall. intros j ph Hj.
    destruct (startSlot_time extractUrls pid cfg t1 ph (net j) L HL) as (t & o & E & Ht).
    { apply Hnet. lia. }
    exists t, o. split; [exact E | lia].
  - exists t1. split; [reflexivity | lia].
Qed.

(** X16, witness: the page of three slots, every request settled within
    120 ms. *)
Lemma initialize_deadline_witness :
  exists t,
    Orchestrator.result
      (Orchestrator.initialize Orchestrator.no_markup None Orchestrator.configured 0
         Orchestrator.second_fails Orchestrator.three_slots)
    = Some (t, Async.Fulfilled tt)
    /\ (0 <= t <= 0 + 15500 + 120)%Z.
Proof.
  apply (initialize_deadline Orchestrator.no_markup None Orchestrator.configured 0
           Orchestrator.second_fails Orchestrator.three_slots 120).
  - lia.
  - intros [|[|i]] _; cbn; lia.
Defined.

(** X17.  The requests of a run are one POST to the bidder per placeholder
    that passes the size test, in the order of the page.  The body of each
    carries the slot id of its placeholder, the configuration and the
    page's pid (if it is not empty), and neither width nor height; the
    options carry [timeout: 3000] and no abort signal.  What the bidder
    answers to one request changes neither the others nor their number. *)
Theorem requests_follow_placeholders
    (extractUrls : option string -> Render.Urls) (pid : option string)
    (configAt : Z -> option Net.Config) (t0 : Z) (net : nat -> Net.Endpoint)
    (phs : list Orchestrator.Placeholder) (cfg : Net.Config) :
  configAt (Orchestrator.waitForConfig configAt Orchestrator.maxRetries 0 t0) = Some cfg ->
  Orchestrator.calls (Orchestrator.initialize extractUrls pid configAt t0 net phs)
  = map (fun ph =>
           {| Net.fc_url := "https://dev.ssp.verismart.ai/api/ssp-load-ads";
              Net.fc_init :=
                {| Net.method := "POST";
                   Net.headers := [("Content-Type", "application/json")];
                   Net.body :=
                     Some {| Net.req_slot_id := JS.parseInt_or_0 (Orchestrator.data_slot_id ph);
                             Net.req_device := cfg;
                             Net.req_js := 1;
                             Net.req_pid := if JS.truthy_ostr pid then pid else None |};
                   Net.mode := None; Net.credentials := None; Net.keepalive := false;
                   Net.cache := None; Net.signal := None;
                   Net.other_members := [("timeout", 3000%Z)] |} |})
      (List.filter
         (fun ph => JS.truthy_int (JS.parseInt_or_0 (Orchestrator.data_width ph))
                    && JS.truthy_int (JS.parseInt_or_0 (Orchestrator.data_height ph))
                    && JS.truthy_int (JS.parseInt_or_0 (Orchestrator.data_slot_id ph)))
         phs).
Proof.
  intros Hcfg. unfold Orchestrator.initialize. rewrite Hcfg. cbn [Orchestrator.calls].
  clear Hcfg.
  generalize (Orchestrator.waitForConfig configAt Orchestrator.maxRetries 0 t0) as t1.
  intros t1. generalize 0%nat as i.
  induction phs as [|ph rest IH]; intros i; [reflexivity|].
  cbn [Orchestrator.startSlots map concat List.filter].
  rewrite startSlot_calls, IH.
  destruct (_ && _); reflexivity.
Qed.

(** X17, witness: of four placeholders the second has no width. *)
Lemma requests_follow_placeholders_witness :
  map (fun c => option_map Net.req_slot_id (Net.body (Net.fc_init c)))
    (Orchestrator.calls
       (Orchestrator.initialize Orchestrator.no_markup None Orchestrator.configured 0
          Orchestrator.second_fails
          (Orchestrator.placeholder "300" "250" "1"
           :: Orchestrator.placeholder "" "90" "2" :: Orchestrator.three_slots)))
  = [Some (JS.Int 1); Some (JS.Int 1); Some (JS.Int 2); Some (JS.Int 3)].
Proof.
  rewrite (requests_follow_placeholders Orchestrator.no_markup None Orchestrator.configured 0
             Orchestrator.second_fails _ Net.sample_config eq_refl).
  reflexivity.
Defined.

(** ** The numbers of a placeholder *)

Section ParseFacts.
Import JS.
Local Open Scope Z_scope.

(** The text after the digits does not go on with a digit. *)
Variable sfx : string.
Hypothesis sfx_stops : forall c r, sfx = String c r -> digit_val c = None.

Local Ltac digit_step :=
  match goal with
  | |- context [String ?c ?x ++ sfx] =>
      change (String c x ++ sfx) with (String c (x ++ sfx)); cbn [read_digits];
      let v := eval vm_compute in (digit_val c) in
      change (digit_val c) with v; cbv iota
  end.

Lemma read_digits_stop (acc : option Z) : read_digits acc sfx = acc.
Proof.
  destruct sfx as [|c r] eqn:E; [reflexivity|]. cbn [read_digits].
  now rewrite (sfx_stops c r eq_refl).
Qed.

Lemma read_digits_acc (d : Decimal.uint) :
  forall acc : positive,
    read_digits (Some (Zpos acc)) (NilEmpty.string_of_uint d ++ sfx)
    = Some (Zpos (Pos.of_uint_acc d acc)).
Proof.
  induction d as [|d IH|d IH|d IH|d IH|d IH|d IH|d IH|d IH|d IH|d IH]; intros acc;
    cbn [NilEmpty.string_of_uint Pos.of_uint_acc];
    [apply read_digits_stop| ..]; digit_step; rewrite <- IH; do 2 f_equal; lia.
Qed.

Lemma read_digits_zero (d : Decimal.uint) :
  read_digits (Some 0) (NilEmpty.string_of_uint d ++ sfx) = Some (Z.of_N (Pos.of_uint d)).
Proof.
  induction d as [|d IH|d IH|d IH|d IH|d IH|d IH|d IH|d IH|d IH|d IH];
    cbn [NilEmpty.string_of_uint Pos.of_uint];
    [apply read_digits_stop| digit_step; exact IH | ..];
    digit_step; cbn [Z.of_N]; rewrite <- read_digits_acc; reflexivity.
Qed.

Lemma read_digits_uint (d : Decimal.uint) :
  read_digits None (NilZero.string_of_uint d ++ sfx) = Some (Z.of_N (N.of_uint d)).
Proof.
  unfold N.of_uint.
  destruct d; cbn [NilZero.string_of_uint];
    [digit_step; apply read_digits_stop | rewrite <- read_digits_zero ..];
    cbn [NilEmpty.string_of_uint]; digit_step; reflexivity.
Qed.

Lemma parseInt10_uint (d : Decimal.uint) :
  parseInt10 (NilZero.string_of_uint d ++ sfx)
  = option_map to_double (read_digits None (NilZero.string_of_uint d ++ sfx)).
Proof. destruct d; reflexivity. Qed.

(** A safe integer is its own double. *)
Lemma to_double_safe (n : Z) : 0 <= n < 2 ^ 53 -> to_double n = Int n.
Proof.
  intros [H0 H1]. unfold to_double.
  assert (Hlog : Z.log2 n <= 52).
  { destruct (Z.eq_dec n 0) as [->|Hn]; [cbn; lia|].
    assert (Z.log2 n < 53) by (apply Z.log2_lt_pow2; lia). lia. }
  destruct (Z.leb_spec (Z.log2 n) 52); [reflexivity | lia].
Qed.

Lemma parseInt_digits (n : Z) :
  0 <= n < 2 ^ 53 -> parseInt_or_0 (Some (digits_of n ++ sfx)) = Int n.
Proof.
  intros Hn. unfold parseInt_or_0, digits_of.
  rewrite parseInt10_uint, read_digits_uint, DecimalN.Unsigned.of_to. cbn [option_map].
  rewrite Z2N.id by lia. rewrite (to_double_safe n Hn). cbn [truthy_int].
  destruct (Z.eqb_spec n 0) as [->|_]; reflexivity.
Qed.

End ParseFacts.

(** X19.  A placeholder that declares positive numbers gets what it
    declares: when [data-width], [data-height] and [data-slot_id] are the
    decimal digits of the safe integers [w], [h] and [id] (below 2^53),
    followed or not by text that does not begin with a digit (a unit, say),
    the slot is given [w] by [h] pixels and the loading box, and the one bid
    request that is sent names slot [id] in its body.  (Width and height are
    not sent.) *)
Theorem declared_size_is_requested
    (extractUrls : option string -> Render.Urls) (pid : option string)
    (cfg : Net.Config) (t0 : Z) (ep : Net.Endpoint)
    (w h id : Z) (sw sh sid : string) :
  (0 < w < 2 ^ 53)%Z -> (0 < h < 2 ^ 53)%Z -> (0 < id < 2 ^ 53)%Z ->
  (forall s c r, In s [sw; sh; sid] -> s = String c r -> JS.digit_val c = None) ->
  let ph := {| Orchestrator.data_width := Some (JS.digits_of w ++ sw);
               Orchestrator.data_height := Some (JS.digits_of h ++ sh);
               Orchestrator.data_slot_id := Some (JS.digits_of id ++ sid) |} in
  Orchestrator.sync_state (fst (Orchestrator.startSlot extractUrls pid cfg t0 ph ep))
  = {| Render.style_width := Some w; Render.style_height := Some h;
       Render.display := None; Render.inner := Render.LoadingBox |}
  /\ map (fun c => (Net.fc_url c, Net.body (Net.fc_init c)))
       (snd (Orchestrator.startSlot extractUrls pid cfg t0 ph ep))
     = [ ("https://dev.ssp.verismart.ai/api/ssp-load-ads",
          Some {| Net.req_slot_id := JS.Int id; Net.req_device := cfg; Net.req_js := 1;
                  Net.req_pid := if JS.truthy_ostr pid then pid else None |}) ].
Proof.
  intros Hw Hh Hid Hs ph.
  assert (Ew : JS.parseInt_or_0 (Orchestrator.data_width ph) = JS.Int w).
  { apply parseInt_digits; [|lia]. intros c r. apply Hs. cbn. auto. }
  assert (Eh : JS.parseInt_or_0 (Orchestrator.data_height ph) = JS.Int h).
  { apply parseInt_digits; [|lia]. intros c r. apply Hs. cbn. auto. }
  assert (Ei : JS.parseInt_or_0 (Orchestrator.data_slot_id ph) = JS.Int id).
  { apply parseInt_digits; [|lia]. intros c r. apply Hs. cbn. auto. }
  split.
  - unfold Orchestrator.startSlot. rewrite Ew, Eh, Ei.
    unfold JS.truthy_int, Orchestrator.set_px.
    destruct (Z.eqb_spec w 0); [lia|]. destruct (Z.eqb_spec h 0); [lia|].
    destruct (Z.eqb_spec id 0); [lia|]. cbn [negb andb].
    destruct (Z.leb_spec 0 w); [|lia]. destruct (Z.leb_spec 0 h); [|lia].
    destruct (Orchestrator.loadAdForSlot _ _ _ _ _ _ _). reflexivity.
  - rewrite startSlot_calls, Ew, Eh, Ei. unfold JS.truthy_int.
    destruct (Z.eqb_spec w 0); [lia|]. destruct (Z.eqb_spec h 0); [lia|].
    destruct (Z.eqb_spec id 0); [lia|]. reflexivity.
Qed.

(** X19, witness: 300px by 250px, slot 7. *)
Lemma declared_size_is_requested_witness :
  Orchestrator.sync_state
    (fst (Orchestrator.startSlot Orchestrator.no_markup None Net.sample_config 0
            (Orchestrator.placeholder "300px" "250px" "7") Net.Silent))
  = {| Render.style_width := Some 300%Z; Render.style_height := Some 250%Z;
       Render.display := None; Render.inner := Render.LoadingBox |}.
Proof.
  refine (proj1 (declared_size_is_requested Orchestrator.no_markup None Net.sample_config 0
                   Net.Silent 300 250 7 "px" "px" "" _ _ _ _)); try (cbn; lia).
  intros s c r [<- | [<- | [<- | []]]] [= <- _]; reflexivity.
Defined.

(** ** What rendering leaves alone *)

Section RenderFrame.
Import JS Net Render.

Variable extractUrls : option string -> Urls.

Lemma renderAd_style (el : SlotElement) (r : BidResponse) :
  style_width (renderAd extractUrls el r) = style_width el
  /\ style_height (renderAd extractUrls el r) = style_height el.
Proof.
  unfold renderAd, renderBrandAd, renderOrtbAd, renderTestingPidAd, showError, hideAdSlot,
    set_inner.
  repeat match goal with
         | |- context [match ?x with _ => _ end] => destruct x
         end; split; reflexivity.
Qed.

End RenderFrame.

(** X20.  A creative that is put into a slot is complete and of the
    announced kind: its media source is not empty, its link is not empty
    ("#" at least), and it is the brand, ORTB or testing creative according
    to the [ad_type] of the response. *)
Theorem rendered_creative_is_complete
    (extractUrls : option string -> Render.Urls) (el : Render.SlotElement)
    (r : BidResponse) (c : Render.Creative) :
  Render.inner (Render.renderAd extractUrls el r) = Render.Ad c ->
  JS.truthy_str (Render.src c) = true
  /\ JS.truthy_str (Render.href c) = true
  /\ ad_type r = Some (match Render.variant c with
                       | Render.Brand => "brand"
                       | Render.Ortb => "ortb"
                       | Render.TestingPid => "testing_pid"
                       end).
Proof.
  unfold Render.renderAd.
  destruct (ad_type r) as [ty|]; [|discriminate].
  destruct (String.eqb_spec ty "brand") as [->|_].
  { unfold Render.renderBrandAd. destruct (full_file_path r) as [p|]; [|discriminate].
    cbn [JS.truthy_ostr JS.or_str]. destruct (JS.truthy_str p) eqn:E; [|discriminate].
    cbn [negb Render.set_inner Render.inner]. intros [= <-]. now cbn. }
  destruct (String.eqb_spec ty "ortb") as [->|_].
  { unfold Render.renderOrtbAd. destruct (firstBid r) as [b|]; [|discriminate].
    destruct (Render.imageUrl (extractUrls (adm b))) as [p|]; [|discriminate].
    cbn [JS.truthy_ostr JS.or_str]. destruct (JS.truthy_str p) eqn:E; [|discriminate].
    cbn [negb Render.set_inner Render.inner]. intros [= <-]. cbn.
    repeat split; [exact E|]. apply or_str_truthy. reflexivity. }
  destruct (String.eqb_spec ty "testing_pid") as [->|_]; [|discriminate].
  unfold Render.renderTestingPidAd. destruct (full_file_path r) as [p|]; [|discriminate].
  cbn [JS.truthy_ostr JS.or_str]. destruct (JS.truthy_str p) eqn:E; [|discriminate].
  cbn [negb Render.set_inner Render.inner]. intros [= <-]. now cbn.
Qed.

(** X20, witness: the brand response of the sample page. *)
Lemma rendered_creative_is_complete_witness :
  JS.truthy_str "https://cdn.example/banner.png" = true
  /\ JS.truthy_str "#" = true
  /\ ad_type Orchestrator.brand_response = Some "brand".
Proof.
  exact (rendered_creative_is_complete Orchestrator.no_markup Render.fresh
           Orchestrator.brand_response
           {| Render.variant := Render.Brand; Render.is_video := false;
              Render.src := "https://cdn.example/banner.png"; Render.alt := Some "Acme";
              Render.href := "#" |} eq_refl).
Defined.

(** X21.  The inline size of a started slot is set once: from the time
    [initialize] starts a slot that passes the size test, its
    [style.width] and [style.height] are what the setter made of the
    declared numbers (the number of pixels, when it is not negative and not
    infinite) and no later step changes them, neither the creative, nor the
    error box, nor the hiding of the slot.  (A hidden slot keeps the style
    and takes up no space.) *)
Theorem slot_keeps_declared_size
    (extractUrls : option string -> Render.Urls) (pid : option string)
    (cfg : Net.Config) (t0 : Z) (ph : Orchestrator.Placeholder) (ep : Net.Endpoint) (t : Z) :
  JS.truthy_int (JS.parseInt_or_0 (Orchestrator.data_width ph))
  && JS.truthy_int (JS.parseInt_or_0 (Orchestrator.data_height ph))
  && JS.truthy_int (JS.parseInt_or_0 (Orchestrator.data_slot_id ph)) = true ->
  (t0 <= t)%Z ->
  Render.style_width
    (Orchestrator.state_at (fst (Orchestrator.startSlot extractUrls pid cfg t0 ph ep)) t)
  = match JS.parseInt_or_0 (Orchestrator.data_width ph) with
    | JS.Int w => if (0 <=? w)%Z then Some w else None
    | JS.Infinity _ => None
    end
  /\ Render.style_height
       (Orchestrator.state_at (fst (Orchestrator.startSlot extractUrls pid cfg t0 ph ep)) t)
     = match JS.parseInt_or_0 (Orchestrator.data_height ph) with
       | JS.Int h => if (0 <=? h)%Z then Some h else None
       | JS.Infinity _ => None
       end.
Proof.
  intros Hv _. unfold Orchestrator.startSlot. rewrite Hv.
  unfold Orchestrator.loadAdForSlot, Net.makeBidRequest, Net.fetch.
  cbn [Net.signal Net.bidInit fst]. unfold Orchestrator.state_at.
  cbn [Orchestrator.pipeline Orchestrator.sync_state].
  destruct ep as [l st payload| l |]; [| |split; reflexivity].
  - destruct (negb (Net.ok _)).
    + destruct (_ <=? _)%Z; split; reflexivity.
    + cbn [Net.json]. destruct payload as [r|]; destruct (_ <=? _)%Z;
        try (split; reflexivity).
      match goal with
      | |- context [Render.renderAd extractUrls ?el r] =>
          destruct (renderAd_style extractUrls el r) as [-> ->]
      end. split; reflexivity.
  - destruct (_ <=? _)%Z; split; reflexivity.
Qed.

(** X21, witness: a 300 by 250 slot whose bid request fails, seen one
    second later. *)
Lemma slot_keeps_declared_size_witness :
  Render.style_width
    (Orchestrator.state_at
       (fst (Orchestrator.startSlot Orchestrator.no_markup None Net.sample_config 0
               (Orchestrator.placeholder "300" "250" "1") (Net.TransportFailure 40))) 1000)
  = Some 300%Z.
Proof.
  refine (proj1 (slot_keeps_declared_size Orchestrator.no_markup None Net.sample_config 0
                   (Orchestrator.placeholder "300" "250" "1") (Net.TransportFailure 40) 1000
                   eq_refl _)).
  lia.
Defined.

(** ** URLs without macros, and the URLs of beacons *)

Section PlainUrls.
Import JS Macro.

Lemma replace_macro_plain (url m v : string) :
  m ∈ macro_names -> dollar_free url = true -> replace_macro url (m, v) = url.
Proof.
  intros Hm Hurl. unfold replace_macro. cbn [fst snd].
  rewrite (pattern_of_macro_name m Hm).
  destruct (token_shape_inv m (macro_names_shape m Hm)) as (p & -> & _).
  unfold replace_global.
  rewrite <- (append_empty_r url) at 1.
  rewrite (replace_scan_text p v url (dollar_free_tame _ url Hurl) "" "").
  cbn [replace_scan]. apply append_empty_r.
Qed.

Lemma fold_replace_plain (url : string) (ms : list (string * string)) :
  Forall (fun mv => fst mv ∈ macro_names) ms -> dollar_free url = true ->
  fold_left replace_macro ms url = url.
Proof.
  intros Hms Hurl. induction ms as [|[m v] rest IH]; [reflexivity|].
  apply Forall_cons in Hms as [Hm Hrest]. cbn [fold_left].
  rewrite (replace_macro_plain url m v Hm Hurl). now apply IH.
Qed.

Lemma sendImpression_truthy (url : option string) :
  Forall (fun u => truthy_str u = true) (Net.sendImpression url).
Proof.
  unfold Net.sendImpression. destruct url as [u|]; [|constructor].
  destruct (truthy_str u) eqn:E; repeat constructor. exact E.
Qed.

Lemma beacon_urls (t0 : Z) (url : option string) (ep : Net.Endpoint) :
  map Net.fc_url (snd (Listeners.sendImpressionAt t0 url ep)) = Net.sendImpression url.
Proof.
  unfold Listeners.sendImpressionAt, Net.sendImpression.
  destruct url as [u|]; [destruct (truthy_str u)|]; reflexivity.
Qed.

End PlainUrls.

(** X22.  A URL that holds no dollar sign passes [replaceAuctionMacros]
    unchanged, whatever the bid response and whatever its values: a win
    notice or billing URL without macros is requested as the bidder wrote
    it. *)
Theorem url_without_macros_unchanged (url : string) (r : BidResponse) :
  Macro.dollar_free url = true -> Macro.replaceAuctionMacros url r = url.
Proof.
  intros Hurl. unfold Macro.replaceAuctionMacros.
  destruct (negb (JS.truthy_str url)); [reflexivity|].
  destruct (firstSeat r) as [sb|]; [|reflexivity].
  destruct (firstBid r) as [b|]; [|reflexivity].
  apply fold_replace_plain; [|exact Hurl].
  apply Forall_forall. intros mv Hin. rewrite <- (macros_keys r sb b).
  apply list_elem_of_In, in_map. now apply list_elem_of_In.
Qed.

(** X22, witness. *)
Lemma url_without_macros_unchanged_witness :
  Macro.replaceAuctionMacros "https://win.example/n?p=1" Macro.example_response
  = "https://win.example/n?p=1".
Proof.
  exact (url_without_macros_unchanged "https://win.example/n?p=1" Macro.example_response
           eq_refl).
Defined.

(** X23.  No listener requests an empty URL: the requests of the load
    listeners, of the billable callbacks and of the click listeners of the
    three variants all have an address, whatever the response and the
    markup lack. *)
Theorem beacons_have_urls
    (ad r : BidResponse) (b : Bid) (urls : Render.Urls) (t0 : Z) (ep : Net.Endpoint) :
  Forall (fun u => JS.truthy_str u = true)
    (Listeners.trackImpression ad ++ Listeners.onBillable ad
     ++ Render.ortbOnLoad urls b r ++ Render.ortbOnBillable b r
     ++ map Net.fc_url
          (Listeners.requests_of (Listeners.brandOnClick t0 ad ep)
           ++ Listeners.requests_of (Listeners.testingOnClick t0 ad ep)
           ++ Listeners.requests_of (Listeners.ortbOnClick t0 urls r ep))).
Proof.
  assert (Hsend : forall u, Forall (fun v => JS.truthy_str v = true)
                              (map Net.fc_url (snd (Listeners.sendImpressionAt t0 u ep)))).
  { intros u. rewrite beacon_urls. apply sendImpression_truthy. }
  unfold Listeners.trackImpression, Listeners.onBillable, Render.ortbOnLoad,
    Render.ortbOnBillable.
  rewrite !map_app.
  repeat match goal with
         | |- Forall _ (_ ++ _) => apply Forall_app; split
         | |- Forall _ (match ?x with _ => _ end) => destruct x
         | |- Forall _ (Net.sendImpression _) => apply sendImpression_truthy
         | |- Forall _ [] => constructor
         end.
  - unfold Listeners.brandOnClick. destruct (tracking ad) as [tr|]; [|constructor].
    destruct (JS.truthy_ostr (click_url tr)); [|constructor].
    pose proof (Hsend (click_url tr)) as Hs.
    destruct (Listeners.sendImpressionAt t0 (click_url tr) ep) as [[[ts [|]]|] cs];
      exact Hs.
  - unfold Listeners.testingOnClick. destruct (tracking ad) as [tr|]; [|constructor].
    destruct (JS.truthy_ostr (click_url tr)); [|constructor].
    pose proof (Hsend (click_url tr)) as Hs.
    destruct (Listeners.sendImpressionAt t0 (click_url tr) ep) as [[[ts [|]]|] cs];
      exact Hs.
  - apply Hsend.
Qed.
